(** * lssy: lossy compression of dense index floats

    A shallow embedding of the C sources of the repository
    ([helpers.c], [encoder.c], [quantize.c]) and the properties of its
    natural-language specification that are settled against them.

    Conventions.
    - A [uint64_t]/[size_t] is a [Z] in [[0, 2^64)]; every C operation that
      can leave that interval is written with its wrap-around ([u64]).
    - A byte stream ([FILE *]) is a [list Z] of byte values: for a file open
      for writing, the bytes written so far; for a file open for reading,
      the bytes not yet consumed.
    - A C function that can abort, hit undefined behaviour or loop for ever
      returns an [outcome]. *)

From Stdlib Require Import String ZArith List Lia Bool Floats Uint63.
From Equations Require Import Equations.
Import ListNotations.
Open Scope Z_scope.

(** ** Outcomes of a C call *)

Inductive outcome (A : Type) : Type :=
| Ret (a : A)        (* the call returns normally *)
| AssertFailure      (* an [assert] failed: the process aborts *)
| ExitFailure        (* [exit(EXIT_FAILURE)] *)
| Undefined          (* undefined behaviour: index out of bounds, division by zero *)
| Diverges.          (* a loop that never exits *)

Arguments Ret {A} a.
Arguments AssertFailure {A}.
Arguments ExitFailure {A}.
Arguments Undefined {A}.
Arguments Diverges {A}.

Definition bind {A B : Type} (m : outcome A) (k : A -> outcome B) : outcome B :=
  match m with
  | Ret a => k a
  | AssertFailure => AssertFailure
  | ExitFailure => ExitFailure
  | Undefined => Undefined
  | Diverges => Diverges
  end.

Notation "x <- m ;; k" := (bind m (fun x => k))
  (at level 61, m at next level, right associativity).
Notation "' p <- m ;; k" := (bind m (fun x => let p := x in k))
  (at level 61, p pattern, m at next level, right associativity).

(** [assert(b)] *)
Definition assert (b : bool) : outcome unit :=
  if b then Ret tt else AssertFailure.

(** ** Machine integers *)

Definition u64 (x : Z) : Z := x mod 2 ^ 64.
Definition u32 (x : Z) : Z := x mod 2 ^ 32.
Definition u8 (x : Z) : Z := x mod 2 ^ 8.

(** Conversion to [int] (two's complement truncation). *)
Definition to_int (x : Z) : Z := (x + 2 ^ 31) mod 2 ^ 32 - 2 ^ 31.

(** [a[i]] on an array of [size_t]: reading outside the array is
    undefined behaviour. *)
Definition index (a : list Z) (i : Z) : outcome Z :=
  if (0 <=? i) && (i <? Z.of_nat (length a))
  then Ret (nth (Z.to_nat i) a 0)
  else Undefined.

(** [x / y] on unsigned operands. *)
Definition udiv (x y : Z) : outcome Z :=
  if y =? 0 then Undefined else Ret (x / y).

(** ** The arithmetic coder ([helpers.c]) *)

Module Coder.

Definition HEADER : Z := 45.
Definition BBYTES : Z := 7.
Definition BBITS : Z := BBYTES * 8.
Definition FULL : Z := Z.shiftl 1 BBITS - 1.
Definition FULLBYTE : Z := 255.
Definition PART : Z := Z.shiftl 1 (BBITS - 8).
Definition ZERO : Z := 0.
Definition MINR : Z := Z.shiftl 1 (BBITS - 15).

(** [EOF] of <stdio.h>: a negative [int]; -1 in every common C library. *)
Definition EOF : Z := -1.

(** The process-wide coder variables.  [first] is the C [int] flag
    ([true] for 1, [false] for 0).  The scratch globals [low], [high],
    [scale] and [byte] are assigned before each use and are local here. *)
Record coder : Type := mkCoder {
  L : Z;
  R : Z;
  total : Z;
  last_non_ff_byte : Z;
  num_ff_bytes : Z;
  first : bool;
  bytes_out : Z;
  D : Z
}.

(** The initializers of the globals: [L=ZERO], [R=FULL],
    [last_non_ff_byte=0], [num_ff_bytes=0], [first=1],
    [bytes_out=HEADER]; [total] and [D] are zero-initialized. *)
Definition initial : coder :=
  mkCoder ZERO FULL 0 0 0 true HEADER 0.

Definition set_L (g : coder) (v : Z) : coder :=
  mkCoder v (R g) (total g) (last_non_ff_byte g) (num_ff_bytes g) (first g) (bytes_out g) (D g).
Definition set_R (g : coder) (v : Z) : coder :=
  mkCoder (L g) v (total g) (last_non_ff_byte g) (num_ff_bytes g) (first g) (bytes_out g) (D g).
Definition set_total (g : coder) (v : Z) : coder :=
  mkCoder (L g) (R g) v (last_non_ff_byte g) (num_ff_bytes g) (first g) (bytes_out g) (D g).
Definition set_last (g : coder) (v : Z) : coder :=
  mkCoder (L g) (R g) (total g) v (num_ff_bytes g) (first g) (bytes_out g) (D g).
Definition set_num_ff (g : coder) (v : Z) : coder :=
  mkCoder (L g) (R g) (total g) (last_non_ff_byte g) v (first g) (bytes_out g) (D g).
Definition set_first (g : coder) (v : bool) : coder :=
  mkCoder (L g) (R g) (total g) (last_non_ff_byte g) (num_ff_bytes g) v (bytes_out g) (D g).
Definition set_bytes_out (g : coder) (v : Z) : coder :=
  mkCoder (L g) (R g) (total g) (last_non_ff_byte g) (num_ff_bytes g) (first g) v (D g).
Definition set_D (g : coder) (v : Z) : coder :=
  mkCoder (L g) (R g) (total g) (last_non_ff_byte g) (num_ff_bytes g) (first g) (bytes_out g) v.

(** [fputc(b, fp); bytes_out++;] *)
Definition put (b : Z) (g : coder) (fp : list Z) : coder * list Z :=
  (set_bytes_out g (u64 (bytes_out g + 1)), fp ++ [b]).

(** The last setup step of [make_arrays_and_read_bin_data]:
    [for (i=1; i<num_bins; i++) c[i] += c[i-1];] on the frequencies read
    from the bins file.  [acc] is the already converted [c[i-1]]. *)
Fixpoint cumulate (acc : Z) (c : list Z) : list Z :=
  match c with
  | [] => []
  | x :: rest => let y := u64 (x + acc) in y :: cumulate y rest
  end.

Definition cumfreqs (c : list Z) : list Z :=
  match c with
  | [] => []
  | x :: rest => x :: cumulate x rest
  end.

(** [total = c[num_bins-1];] *)
Definition cum_total (c : list Z) : outcome Z :=
  index c (u64 (Z.of_nat (length c) - 1)).

(** *** Encoder *)

(** Allocated probability range of symbol [s]: [low] and [high]. *)
Definition symbol_range (s : Z) (c : list Z) : outcome (Z * Z) :=
  low <- (if s =? 0 then Ret 0 else index c (u64 (s - 1))) ;;
  high <- index c s ;;
  Ret (low, high).

(** The coding step shared by encoder and decoder:
    [R = (high<total) ? (high-low)*scale : R - low*scale]. *)
Definition narrow (g : coder) (low high scale : Z) : Z :=
  if high <? total g
  then u64 (u64 (high - low) * scale)
  else u64 (R g - u64 (low * scale)).

(** [while (num_ff_bytes>0) { fputc(last_non_ff_byte, fp); num_ff_bytes--;
    last_non_ff_byte = ZERO; bytes_out++; }]
    The loop runs [num_ff_bytes] times; [k] counts the iterations left. *)
Fixpoint carry_flush (k : nat) (g : coder) (fp : list Z) : coder * list Z :=
  match k with
  | O => (g, fp)
  | S k' =>
      let '(g1, fp1) := put (last_non_ff_byte g) g fp in
      carry_flush k' (set_last (set_num_ff g1 (num_ff_bytes g1 - 1)) ZERO) fp1
  end.

(** [if (L>FULL) { last_non_ff_byte += 1; L &= FULL; while ... }] *)
Definition carry (g : coder) (fp : list Z) : coder * list Z :=
  if FULL <? L g then
    let g1 := set_last g (u8 (last_non_ff_byte g + 1)) in
    let g2 := set_L g1 (Z.land (L g1) FULL) in
    carry_flush (Z.to_nat (num_ff_bytes g2)) g2 fp
  else (g, fp).

(** [while (num_ff_bytes) { fputc(FULLBYTE, fp); num_ff_bytes--; bytes_out++; }] *)
Fixpoint ff_flush (k : nat) (g : coder) (fp : list Z) : coder * list Z :=
  match k with
  | O => (g, fp)
  | S k' =>
      let '(g1, fp1) := put FULLBYTE g fp in
      ff_flush k' (set_num_ff g1 (num_ff_bytes g1 - 1)) fp1
  end.

(** One iteration of the renormalization loop of [arith_encode]. *)
Definition renorm_step (g : coder) (fp : list Z) : coder * list Z :=
  let byte := u8 (Z.shiftr (L g) (BBITS - 8)) in
  let '(g3, fp3) :=
    if negb (byte =? FULLBYTE) then
      let '(g1, fp1) :=
        if negb (first g) then put (last_non_ff_byte g) g fp else (g, fp) in
      let '(g2, fp2) := ff_flush (Z.to_nat (num_ff_bytes g1)) g1 fp1 in
      (set_first (set_last g2 byte) false, fp2)
    else (set_num_ff g (u32 (num_ff_bytes g + 1)), fp) in
  let g4 := set_L g3 (u64 (Z.shiftl (L g3) 8)) in
  let g5 := set_L g4 (Z.land (L g4) FULL) in
  (set_R g5 (u64 (Z.shiftl (R g5) 8)), fp3).

(** [while (R < PART) { ... }].  A nonzero [R] below [PART] reaches [PART]
    within six shifts by eight bits; [R = 0] is never changed by the
    shift, and the C loop then runs for ever.  [fuel] bounds the number of
    iterations: with [renorm_fuel] it runs out exactly when [R = 0]
    (lemma [renorm_diverges_iff]). *)
Fixpoint renorm (fuel : nat) (g : coder) (fp : list Z) : outcome (coder * list Z) :=
  if R g <? PART then
    match fuel with
    | O => Diverges
    | S fuel' => let '(g1, fp1) := renorm_step g fp in renorm fuel' g1 fp1
    end
  else Ret (g, fp).

Definition renorm_fuel : nat := 6.

(** [arith_encode(s, c, n, fp)] *)
Definition arith_encode (s : Z) (c : list Z) (n : Z) (g : coder) (fp : list Z)
  : outcome (coder * list Z) :=
  _ <- assert (total g <? R g) ;;
  '(low, high) <- symbol_range s c ;;
  scale <- udiv (R g) (total g) ;;
  let g1 := set_L g (u64 (L g + u64 (low * scale))) in
  let g2 := set_R g1 (narrow g1 low high scale) in
  let '(g3, fp3) := carry g2 fp in
  renorm renorm_fuel g3 fp3.

(** The closing loop [for (i=BBYTES-1; i>=0; i--) fputc((L>>(8*i))&FULLBYTE, fp)];
    [k] is [i+1]. *)
Fixpoint put_L (k : nat) (g : coder) (fp : list Z) : coder * list Z :=
  match k with
  | O => (g, fp)
  | S i =>
      let '(g1, fp1) := put (Z.land (Z.shiftr (L g) (8 * Z.of_nat i)) FULLBYTE) g fp in
      put_L i g1 fp1
  end.

(** [encoder_close(fp)] *)
Definition encoder_close (g : coder) (fp : list Z) : coder * list Z :=
  let '(g1, fp1) :=
    if negb (first g) then put (last_non_ff_byte g) g fp else (g, fp) in
  let '(g2, fp2) := ff_flush (Z.to_nat (num_ff_bytes g1)) g1 fp1 in
  put_L (Z.to_nat BBYTES) g2 fp2.

(** *** Decoder *)

(** [fgetc(fp)]: the next byte, or [EOF] once the stream is exhausted. *)
Definition fgetc (fp : list Z) : Z * list Z :=
  match fp with
  | [] => (EOF, [])
  | b :: rest => (b, rest)
  end.

(** The body of the loop of [decoder_start]: [D <<= 8; D += fgetc(fp);] *)
Fixpoint start_loop (k : nat) (g : coder) (fp : list Z) : coder * list Z :=
  match k with
  | O => (g, fp)
  | S k' =>
      let g1 := set_D g (u64 (Z.shiftl (D g) 8)) in
      let '(b, fp1) := fgetc fp in
      start_loop k' (set_D g1 (u64 (D g1 + b))) fp1
  end.

(** [decoder_start(fp)] *)
Definition decoder_start (g : coder) (fp : list Z) : coder * list Z :=
  start_loop (Z.to_nat BBYTES) (set_D g 0) fp.

(** The binary search of [arith_decode] over [c[lo..hi]]:
    [while (lo<hi) { v = lo + (hi-lo)/2;
                     if (c[v] <= target) lo = v+1; else hi = v; }] *)
Equations? search (c : list Z) (target : Z) (lo hi : Z) : outcome Z
  by wf (Z.to_nat (hi - lo)) lt :=
search c target lo hi with Z_lt_dec lo hi := {
  | left _ with index c (u64 (lo + Z.quot (hi - lo) 2)) := {
      | Ret cv with Z_le_dec cv target := {
          | left _ => search c target (lo + Z.quot (hi - lo) 2 + 1) hi
          | right _ => search c target lo (lo + Z.quot (hi - lo) 2) }
      | AssertFailure => AssertFailure
      | ExitFailure => ExitFailure
      | Undefined => Undefined
      | Diverges => Diverges }
  | right _ => Ret lo }.
Proof.
  all: rewrite Z.quot_div_nonneg by lia;
    pose proof (Z.div_lt_upper_bound (hi - lo) 2 (hi - lo));
    pose proof (Z.div_pos (hi - lo) 2); lia.
Qed.

(** One iteration of the renormalization loop of [arith_decode]:
    [R <<= 8; D <<= 8; D &= FULL; D += fgetc(fp);] *)
Definition fill_step (g : coder) (fp : list Z) : coder * list Z :=
  let g1 := set_R g (u64 (Z.shiftl (R g) 8)) in
  let g2 := set_D g1 (u64 (Z.shiftl (D g1) 8)) in
  let g3 := set_D g2 (Z.land (D g2) FULL) in
  let '(b, fp1) := fgetc fp in
  (set_D g3 (u64 (D g3 + b)), fp1).

(** [while (R < PART) { ... }] of the decoder; see [renorm]. *)
Fixpoint fill (fuel : nat) (g : coder) (fp : list Z) : outcome (coder * list Z) :=
  if R g <? PART then
    match fuel with
    | O => Diverges
    | S fuel' => let '(g1, fp1) := fill_step g fp in fill fuel' g1 fp1
    end
  else Ret (g, fp).

(** [arith_decode(c, n, fp)]: the decoded symbol with the new state. *)
Definition arith_decode (c : list Z) (n : Z) (g : coder) (fp : list Z)
  : outcome (Z * coder * list Z) :=
  scale <- udiv (R g) (total g) ;;
  _ <- assert (0 <? scale) ;;
  scale' <- udiv (D g) scale ;;
  let target := if total g <=? scale' then u64 (total g - 1) else scale' in
  lo <- search c target 0 (to_int (u64 (n - 1))) ;;
  let v := u64 lo in
  cprev <- (if v =? 0 then Ret 0 else index c (u64 (v - 1))) ;;
  _ <- assert ((v =? 0) || (cprev <=? target)) ;;
  _ <- assert (v <? n) ;;
  cv <- index c v ;;
  _ <- assert (target <? cv) ;;
  '(low, high) <- symbol_range v c ;;
  let g1 := set_D g (u64 (D g - u64 (low * scale))) in
  let g2 := set_R g1 (narrow g1 low high scale) in
  _ <- assert (D g2 <=? R g2) ;;
  '(g3, fp3) <- fill renorm_fuel g2 fp ;;
  _ <- assert (D g3 <=? R g3) ;;
  Ret (v, g3, fp3).

(** *** Whole runs *)

(** One [arith_encode] per symbol of [xs], in order. *)
Fixpoint encode_all (xs : list Z) (c : list Z) (g : coder) (fp : list Z)
  : outcome (coder * list Z) :=
  match xs with
  | [] => Ret (g, fp)
  | s :: rest =>
      '(g1, fp1) <- arith_encode s c (Z.of_nat (length c)) g fp ;;
      encode_all rest c g1 fp1
  end.

(** [count] calls of [arith_decode], collecting the symbols. *)
Fixpoint decode_all (count : nat) (c : list Z) (g : coder) (fp : list Z)
  : outcome (list Z * coder * list Z) :=
  match count with
  | O => Ret ([], g, fp)
  | S k =>
      '(v, g1, fp1) <- arith_decode c (Z.of_nat (length c)) g fp ;;
      '(vs, g2, fp2) <- decode_all k c g1 fp1 ;;
      Ret (v :: vs, g2, fp2)
  end.

(** The coder state once [make_arrays_and_read_bin_data] has turned the
    bin frequencies [freqs] into cumulative ones and set [total]. *)
Definition setup (freqs : list Z) : outcome (list Z * coder) :=
  let c := cumfreqs freqs in
  t <- cum_total c ;;
  Ret (c, set_total initial t).

(** Encoder run: the bytes the coder appends to an output stream. *)
Definition encode (freqs : list Z) (xs : list Z) : outcome (list Z) :=
  '(c, g) <- setup freqs ;;
  '(g1, fp1) <- encode_all xs c g [] ;;
  Ret (snd (encoder_close g1 fp1)).

(** Decoder run on the coder bytes [fp], for a known symbol count. *)
Definition decode (freqs : list Z) (count : nat) (fp : list Z) : outcome (list Z) :=
  '(c, g) <- setup freqs ;;
  let '(g1, fp1) := decoder_start g fp in
  '(vs, _, _) <- decode_all count c g1 fp1 ;;
  Ret vs.

End Coder.


(** ** Floating point and arrays *)

(** A C [double] is a primitive binary64 number, with the IEEE 754
    operations of [PrimFloat] (round to nearest, ties to even).  A C
    [float] is modelled by the binary64 number of the same value: every
    binary32 number is one, so that the promotion to [double] is the
    identity and only the conversion back, [to_float], rounds. *)

(** [(float)x]: the nearest binary32 number, as a binary64 number. *)
Definition to_float (x : float) : float :=
  match Prim2SF x with
  | S754_finite s m e => SF2Prim (binary_round 24 128 s m e)
  | _ => x
  end.

(** The binary64 numbers that are values of type [float]. *)
Definition is_float (x : float) : Prop := to_float x = x.

(** [(double)n] for a [size_t] n. *)
Definition of_size_t (n : Z) : float :=
  SF2Prim (binary_normalize prec emax n 0 false).

(** [(size_t)x] for a [double] x: truncation; undefined when the
    truncated value is not a [size_t]. *)
Definition to_size_t (x : float) : outcome Z :=
  match Prim2SF x with
  | S754_zero _ => Ret 0
  | S754_finite s m e =>
      let v := if 0 <=? e then Zpos m * 2 ^ e else Zpos m / 2 ^ (- e) in
      if s then (if v =? 0 then Ret 0 else Undefined)
      else if v <? 2 ^ 64 then Ret v else Undefined
  | _ => Undefined
  end.

(** The value of a binary32 bit pattern. *)
Definition float_of_bits (b : Z) : float :=
  let s := Z.testbit b 31 in
  let e := Z.land (Z.shiftr b 23) 255 in
  let m := Z.land b 8388607 in
  if e =? 255 then
    if m =? 0 then (if s then neg_infinity else infinity) else nan
  else if e =? 0 then
    match m with
    | Zpos p => SF2Prim (S754_finite s p (-149))
    | _ => if s then neg_zero else zero
    end
  else SF2Prim (S754_finite s (Z.to_pos (m + 8388608)) (e - 150)).

(** [F[i]] on an array of [float]. *)
Definition findex (a : list float) (i : Z) : outcome float :=
  if (0 <=? i) && (i <? Z.of_nat (length a))
  then Ret (nth (Z.to_nat i) a zero)
  else Undefined.

(** [a[i] = v]: writing outside the array is undefined behaviour. *)
Definition store (a : list Z) (i : Z) (v : Z) : outcome (list Z) :=
  if (0 <=? i) && (i <? Z.of_nat (length a))
  then Ret (firstn (Z.to_nat i) a ++ v :: skipn (S (Z.to_nat i)) a)
  else Undefined.

(** ** The quantizer ([quantize.c]) *)

Module Quantize.

Definition BIN1_GEOM : Z := 1.
Definition NUM_METHODS : Z := 4.

(** [EPS], the double nearest to [1e-10]. *)
Definition EPS : float := 0x1.b7cdfd9d7bdbbp-34%float.

(** What [fwrite] puts into the bins file: a [size_t] or a [float]. *)
Inductive datum : Type :=
| size_datum (v : Z)
| float_datum (v : float).

(** The last statements of [bins_fixed_domain] and of
    [bins_geometric_domain]: what is left of [nF] goes to the one or two
    middle bins. *)
Definition fill_middle (C : list Z) (num_bins nF sofar : Z) : outcome (list Z) :=
  if num_bins mod 2 =? 0 then
    Ca <- store C (u64 (num_bins / 2 - 1)) (u64 (nF - sofar) / 2) ;;
    c <- index Ca (u64 (num_bins / 2 - 1)) ;;
    store Ca (num_bins / 2) (u64 (u64 (nF - sofar) - c))
  else
    store C (num_bins / 2) (u64 (nF - sofar)).

(** [for (i=0; i<(num_bins-1)/2; i++) { C[i] = C[num_bins-i-1] = step;
    sofar += 2*step; }], [k] iterations from [i] on. *)
Fixpoint fd_loop (k : nat) (i : Z) (C : list Z) (num_bins step sofar : Z)
  : outcome (list Z * Z) :=
  match k with
  | O => Ret (C, sofar)
  | S k' =>
      Ca <- store C (u64 (u64 (num_bins - i) - 1)) step ;;
      Cb <- store Ca i step ;;
      fd_loop k' (i + 1) Cb num_bins step (u64 (sofar + u64 (2 * step)))
  end.

(** Fixed Domain, FD. *)
Definition bins_fixed_domain (C : list Z) (num_bins : Z) (F : list float) (nF : Z)
  : outcome (list Z) :=
  step <- udiv nF num_bins ;;
  '(Ca, sofar) <- fd_loop (Z.to_nat (u64 (num_bins - 1) / 2)) 0 C num_bins step 0 ;;
  fill_middle Ca num_bins nF sofar.

(** [while (iF < nF && F[iF] < bound) { iF++; C[i]++; }]: the new [iF]
    and the number of increments.  At most [nF - iF] iterations are
    possible; [fuel] is that number. *)
Fixpoint fr_count (fuel : nat) (F : list float) (nF iF cnt : Z) (bound : float)
  : outcome (Z * Z) :=
  if iF <? nF then
    match fuel with
    | O => Diverges
    | S fuel' =>
        x <- findex F iF ;;
        if (x <? bound)%float
        then fr_count fuel' F nF (u64 (iF + 1)) (u64 (cnt + 1)) bound
        else Ret (iF, cnt)
    end
  else Ret (iF, cnt).

(** [for (i=0, iF=0; i<num_bins; i++) { C[i] = 0; while ... }], [k]
    iterations from [i] on.  The count of the inner loop is kept in a
    local and stored into [C[i]] at its end. *)
Fixpoint fr_loop (k : nat) (i iF : Z) (C : list Z) (F : list float) (nF : Z)
  (minF interval : float) : outcome (list Z) :=
  match k with
  | O => Ret C
  | S k' =>
      Cz <- store C i 0 ;;
      let bound := (minF + of_size_t (u64 (i + 1)) * interval)%float in
      '(iF', cnt) <- fr_count (Z.to_nat (nF - iF)) F nF iF 0 bound ;;
      Ca <- store Cz i cnt ;;
      fr_loop k' (i + 1) iF' Ca F nF minF interval
  end.

(** Fixed Range, FR. *)
Definition bins_fixed_range (C : list Z) (num_bins : Z) (F : list float) (nF : Z)
  : outcome (list Z) :=
  f0 <- findex F 0 ;;
  fl <- findex F (u64 (nF - 1)) ;;
  let minF := (f0 - EPS)%float in
  let maxF := (fl + EPS)%float in
  let interval := ((maxF - minF) / of_size_t num_bins)%float in
  fr_loop (Z.to_nat num_bins) 0 0 C F nF minF interval.

(** [for (i=0; i<singles; i++) { C[i] = 1; C[num_bins-i-1] = 1; }] *)
Fixpoint skinny_loop (k : nat) (i : Z) (C : list Z) (num_bins : Z) : outcome (list Z) :=
  match k with
  | O => Ret C
  | S k' =>
      Ca <- store C i 1 ;;
      Cb <- store Ca (u64 (u64 (num_bins - i) - 1)) 1 ;;
      skinny_loop k' (i + 1) Cb num_bins
  end.

(** Central Fixed Range, CFR: FR on the arrays [C+singles] and
    [F+singles]. *)
Definition bins_fixed_skinny (C : list Z) (num_bins : Z) (F : list float) (nF : Z)
  : outcome (list Z) :=
  let singles := num_bins / 4 in
  Ca <- skinny_loop (Z.to_nat singles) 0 C num_bins ;;
  sub <- bins_fixed_range (skipn (Z.to_nat singles) Ca)
           (u64 (num_bins - u64 (2 * singles)))
           (skipn (Z.to_nat singles) F)
           (u64 (nF - u64 (2 * singles))) ;;
  Ret (firstn (Z.to_nat singles) Ca ++ sub).

Section Geometric.

(** [pow] of <math.h>, which is not part of the repository. *)
Variable pow : float -> float -> float.

(** The bisection [while (1) { if (hi-lo < EPS) break; ... }]: the ratio
    [r] and the number of iterations.  The interval is halved at each
    iteration, whatever [pow] returns; [fuel] bounds their number. *)
Fixpoint bisect (fuel : nat) (lo hi r : float) (loops : Z) (num_bins nF : Z)
  : outcome (float * Z) :=
  if (hi - lo <? EPS)%float then Ret (r, loops)
  else
    match fuel with
    | O => Diverges
    | S fuel' =>
        let r := ((lo + hi) / of_size_t 2)%float in
        let fmid :=
          (of_size_t BIN1_GEOM
           * (pow r (of_size_t num_bins / of_size_t 2) - of_size_t 1)
           / (r - of_size_t 1))%float in
        let loops := u64 (loops + 1) in
        if (fmid <? of_size_t nF / of_size_t 2)%float
        then bisect fuel' r hi r loops num_bins nF
        else bisect fuel' lo r r loops num_bins nF
    end.

(** [for (size_t i=1; i<(num_bins-1)/2; i++) { this *= r;
    C[i] = C[num_bins-i-1] = (size_t)(this); sofar += 2*C[i]; }] *)
Fixpoint gd_loop (k : nat) (i : Z) (C : list Z) (num_bins : Z) (r this : float)
  (sofar : Z) : outcome (list Z * Z) :=
  match k with
  | O => Ret (C, sofar)
  | S k' =>
      let this := (this * r)%float in
      v <- to_size_t this ;;
      Ca <- store C (u64 (u64 (num_bins - i) - 1)) v ;;
      Cb <- store Ca i v ;;
      c <- index Cb i ;;
      gd_loop k' (i + 1) Cb num_bins r this (u64 (sofar + u64 (2 * c)))
  end.

(** Geometric Domain, GD.  The variable [r] is assigned in the first
    iteration of the bisection, which is always entered. *)
Definition bins_geometric_domain (C : list Z) (num_bins : Z) (F : list float) (nF : Z)
  : outcome (list Z) :=
  '(r, loops) <- bisect 128 0x1.0000002af31dcp+0%float (of_size_t 1000)
                   nan 0 num_bins nF ;;
  Ca <- store C (u64 (num_bins - 1)) BIN1_GEOM ;;
  Cb <- store Ca 0 BIN1_GEOM ;;
  '(Cc, sofar) <- gd_loop (Z.to_nat (u64 (num_bins - 1) / 2 - 1)) 1 Cb num_bins r
                    (of_size_t BIN1_GEOM) (u64 (2 * BIN1_GEOM)) ;;
  fill_middle Cc num_bins nF sofar.

(** The tabulation of the methods. *)
Definition labels : list string :=
  [""; "FD"; "FR"; "GD"; "CFR"; ""]%string.

Definition bin_func : Type := list Z -> Z -> list float -> Z -> outcome (list Z).

Definition bin_funcs : list bin_func :=
  [bins_fixed_domain; bins_fixed_range; bins_geometric_domain; bins_fixed_skinny].

(** The checks [main] makes on [num_bins = atoi(argv[1])] and
    [bintype = atoi(argv[2])], both stored into a [size_t], and its
    choice [bin_funcs[bintype]]. *)
Definition selected (num_bins bintype : Z) : outcome bin_func :=
  let num_bins := u64 num_bins in
  if num_bins <? 4 then ExitFailure
  else
    let bintype := u64 bintype in
    if (bintype <? 1) || (NUM_METHODS <? bintype) then ExitFailure
    else
      match nth_error bin_funcs (Z.to_nat bintype) with
      | Some f => Ret f
      | None => Undefined
      end.

(** The label [main] prints for the chosen method: [labels[bintype]]. *)
Definition label (bintype : Z) : option string :=
  nth_error labels (Z.to_nat (u64 bintype)).

End Geometric.

(** [for (size_t j=strt; j<strt+C[i]; j++) binrep += F[j];], [k]
    iterations from [j] on. *)
Fixpoint bin_sum (k : nat) (F : list float) (j : Z) (binrep : float) : outcome float :=
  match k with
  | O => Ret binrep
  | S k' =>
      x <- findex F j ;;
      bin_sum k' F (u64 (j + 1)) (binrep + x)%float
  end.

(** The table loop of [write_bins], [k] iterations from [i] on: the new
    [strt] and the file. *)
Fixpoint write_table (k : nat) (i strt : Z) (C : list Z) (F : list float)
  (fb : list datum) : outcome (Z * list datum) :=
  match k with
  | O => Ret (strt, fb)
  | S k' =>
      ci <- index C i ;;
      binrep <-
        (if 0 <? ci then
           s <- bin_sum (Z.to_nat ci) F strt zero ;;
           Ret (s / of_size_t ci)%float
         else findex F (u64 (u64 (strt + ci) - 1))) ;;
      ub <- findex F (u64 (u64 (strt + ci) - 1)) ;;
      let fb1 := fb ++ [float_datum ub] in
      let fbinrep := to_float binrep in
      let fb2 := fb1 ++ [float_datum fbinrep] in
      write_table k' (i + 1) (u64 (strt + ci)) C F fb2
  end.

(** [fwrite(C, sizeof( *C), num_bins, fb)] *)
Definition write_freqs (C : list Z) (num_bins : Z) (fb : list datum)
  : outcome (list datum) :=
  if num_bins <=? Z.of_nat (length C)
  then Ret (fb ++ map size_datum (firstn (Z.to_nat num_bins) C))
  else Undefined.

(** [write_bins(C, num_bins, F, nF, fb)] *)
Definition write_bins (C : list Z) (num_bins : Z) (F : list float) (nF : Z)
  (fb : list datum) : outcome (list datum) :=
  let fb1 := fb ++ [size_datum 2] in
  let fb2 := fb1 ++ [size_datum num_bins] in
  '(strt, fb3) <- write_table (Z.to_nat num_bins) 0 0 C F fb2 ;;
  _ <- assert (strt =? nF) ;;
  write_freqs C num_bins fb3.

End Quantize.

(** ** The encode tool ([encoder.c]) *)

Module Encoder.
Import Coder.

(** The value of a little-endian byte string. *)
Definition le (bs : list Z) : Z := fold_right (fun b acc => b + 256 * acc) 0 bs.

(** [fread(p, size, nmemb, f)]: the number of complete items read, their
    bytes, and the rest of the stream. *)
Definition fread (size nmemb : nat) (f : list Z) : Z * list Z * list Z :=
  let n := Nat.min nmemb (length f / size) in
  (Z.of_nat n, firstn (n * size) f, skipn (n * size) f).

(** [if (fread(&x, sizeof(size_t), 1, fb) != 1) read_error();] *)
Definition read_size_t (fb : list Z) : outcome (Z * list Z) :=
  let '(n, bs, rest) := fread 8 1 fb in
  if negb (n =? 1) then ExitFailure else Ret (le bs, rest).

(** [if (fread(&x, sizeof(float), 1, f) != 1) read_error();] *)
Definition read_float (f : list Z) : outcome (float * list Z) :=
  let '(n, bs, rest) := fread 4 1 f in
  if negb (n =? 1) then ExitFailure else Ret (float_of_bits (le bs), rest).

(** The bin table globals [num_bins], [U], [S] and [c]. *)
Record bins : Type := mkBins {
  num_bins : Z;
  U : list float;
  S : list float;
  c : list Z
}.

(** [for (i=0; i<num_bins; i++) { fread(U+i, ...); fread(S+i, ...); }] *)
Fixpoint read_pairs (k : nat) (fb : list Z)
  : outcome (list float * list float * list Z) :=
  match k with
  | O => Ret ([], [], fb)
  | Datatypes.S k' =>
      '(u, fb1) <- read_float fb ;;
      '(s, fb2) <- read_float fb1 ;;
      '(us, ss, fb3) <- read_pairs k' fb2 ;;
      Ret (u :: us, s :: ss, fb3)
  end.

(** [for (i=0; i<num_bins; i++) fread(c+i, sizeof(size_t), 1, fb);] *)
Fixpoint read_freqs (k : nat) (fb : list Z) : outcome (list Z * list Z) :=
  match k with
  | O => Ret ([], fb)
  | Datatypes.S k' =>
      '(x, fb1) <- read_size_t fb ;;
      '(xs, fb2) <- read_freqs k' fb1 ;;
      Ret (x :: xs, fb2)
  end.

(** [make_arrays_and_read_bin_data(fb)]; the allocations succeed. *)
Definition make_arrays_and_read_bin_data (g : coder) (fb : list Z)
  : outcome (bins * coder) :=
  '(marker, fb1) <- read_size_t fb ;;
  _ <- assert (marker =? 2) ;;
  '(n, fb2) <- read_size_t fb1 ;;
  '(us, ss, fb3) <- read_pairs (Z.to_nat n) fb2 ;;
  '(cs, fb4) <- read_freqs (Z.to_nat n) fb3 ;;
  let cum := cumfreqs cs in
  t <- cum_total cum ;;
  Ret (mkBins n us ss cum, set_total g t).

(** The binary search of [main] over [U[lo..hi]]:
    [while (lo < hi) { md = lo + (hi-lo)/2;
                       if (f <= U[md]) hi = md; else lo = md+1; }] *)
Equations? bin_search (U : list float) (f : float) (lo hi : Z) : outcome Z
  by wf (Z.to_nat (hi - lo)) lt :=
bin_search U f lo hi with Z_lt_dec lo hi := {
  | left _ with findex U (lo + Z.quot (hi - lo) 2) := {
      | Ret u with (f <=? u)%float := {
          | true => bin_search U f lo (lo + Z.quot (hi - lo) 2)
          | false => bin_search U f (lo + Z.quot (hi - lo) 2 + 1) hi }
      | AssertFailure => AssertFailure
      | ExitFailure => ExitFailure
      | Undefined => Undefined
      | Diverges => Diverges }
  | right _ => Ret lo }.
Proof.
  all: rewrite Z.quot_div_nonneg by lia;
    pose proof (Z.div_lt_upper_bound (hi - lo) 2 (hi - lo));
    pose proof (Z.div_pos (hi - lo) 2); lia.
Qed.

(** The search with its two assertions: the bin number of [f].
    [lo = 0; hi = num_bins-1; while ...;
     assert(lo==0 || U[lo-1]<f); assert(f <= U[lo]);] *)
Definition find_bin (U : list float) (num_bins : Z) (f : float) : outcome Z :=
  lo <- bin_search U f 0 (to_int (u64 (num_bins - 1))) ;;
  below <- (if lo =? 0 then Ret true
            else u <- findex U (lo - 1) ;; Ret (u <? f)%float) ;;
  _ <- assert below ;;
  u <- findex U lo ;;
  _ <- assert (f <=? u)%float ;;
  Ret lo.

(** The loop of [main]: [while (fread(&f, sizeof(f), 1, fi) == 1) { ...
    arith_encode(lo, c, num_bins, fo); }].  The counter [cnt] only feeds
    the report on [stderr]. *)
Fixpoint encode_floats (fi : list Z) (b : bins) (g : coder) (fo : list Z)
  : outcome (coder * list Z) :=
  match fi with
  | b0 :: b1 :: b2 :: b3 :: rest =>
      let f := float_of_bits (le [b0; b1; b2; b3]) in
      lo <- find_bin (U b) (num_bins b) f ;;
      '(g1, fo1) <- arith_encode (u64 lo) (c b) (num_bins b) g fo ;;
      encode_floats rest b g1 fo1
  | _ => Ret (g, fo)
  end.

(** [main], once the three files are open: from the bytes of the bins
    file and of the index file to the bytes of the output file.  The
    global [head] is zero-initialized. *)
Definition main (fb fi : list Z) : outcome (list Z) :=
  '(b, g) <- make_arrays_and_read_bin_data initial fb ;;
  let '(n, bs, fi1) := fread 1 (Z.to_nat HEADER) fi in
  if negb (n =? 1) then ExitFailure
  else
    let head := bs ++ repeat 0 (Z.to_nat (HEADER + 1) - length bs) in
    let fo := firstn (Z.to_nat HEADER) head in
    '(g1, fo1) <- encode_floats fi1 b g fo ;;
    Ret (snd (encoder_close g1 fo1)).

End Encoder.

(** ** The checks and the report of the quantizer ([quantize.c]) *)

Module QuantizeReport.
Import Quantize.

Definition INT_MAX : Z := 2147483647.

(** The check of [main] on the loaded values,
    [for (int i=0; i<nF-1; i++) assert(F[i] <= F[i+1]);], [k] iterations
    from [i] on.  The test [i<nF-1] is made in [size_t], so that the body
    runs [nF-1] times as a [size_t]; [i+1] on [INT_MAX] is undefined. *)
Fixpoint sorted_loop (k : nat) (i : Z) (F : list float) : outcome unit :=
  match k with
  | O => Ret tt
  | S k' =>
      if i + 1 <=? INT_MAX then
        a <- findex F i ;;
        b <- findex F (i + 1) ;;
        _ <- assert (a <=? b)%float ;;
        sorted_loop k' (i + 1) F
      else Undefined
  end.

Definition check_sorted (F : list float) (nF : Z) : outcome unit :=
  sorted_loop (Z.to_nat (u64 (nF - 1))) 0 F.

(** The first loop of [print_bins],
    [for (i=0; i<num_bins-1; i++) { if (F[strt]==F[strt+C[i]]) empty += 1;
    strt += C[i]; }], [k] iterations from [i] on: the new [empty]. *)
Fixpoint count_empty (k : nat) (i strt empty : Z) (C : list Z) (F : list float)
  : outcome Z :=
  match k with
  | O => Ret empty
  | S k' =>
      ci <- index C i ;;
      a <- findex F strt ;;
      b <- findex F (u64 (strt + ci)) ;;
      let empty := if (a =? b)%float then u64 (empty + 1) else empty in
      count_empty k' (i + 1) (u64 (strt + ci)) empty C F
  end.

(** [for (size_t j=strt; j<strt+C[i]; j++) avgerror += fabs(F[j] - binrep);],
    [k] iterations from [j] on. *)
Fixpoint add_errors (k : nat) (F : list float) (j : Z) (binrep avgerror : float)
  : outcome float :=
  match k with
  | O => Ret avgerror
  | S k' =>
      x <- findex F j ;;
      add_errors k' F (u64 (j + 1)) binrep (avgerror + abs (x - binrep))%float
  end.

(** The second loop of [print_bins], [while (strt<nF) { ... C[i] ...;
    strt += C[i]; i++; }], on the part [rest] of [C] from [C[i]] on: each
    pass reads [C[i]], and reading past the end of [C] is undefined.  The
    result is [strt], [maxerror] and [avgerror] at the exit. *)
Fixpoint report_loop (rest : list Z) (strt : Z) (F : list float) (nF : Z)
  (maxerror avgerror : float) : outcome (Z * float * float) :=
  if strt <? nF then
    match rest with
    | [] => Undefined
    | ci :: rest' =>
        '(maxerror, avgerror) <-
          (if 0 <? ci then
             lo <- findex F strt ;;
             hi <- findex F (u64 (u64 (strt + ci) - 1)) ;;
             s <- bin_sum (Z.to_nat ci) F strt zero ;;
             let binrep := (s / of_size_t ci)%float in
             let error := (binrep - lo)%float in
             let error := if (error <? hi - binrep)%float
                          then (hi - binrep)%float else error in
             let maxerror := if (maxerror <? error)%float then error else maxerror in
             avgerror <- add_errors (Z.to_nat ci) F strt binrep avgerror ;;
             Ret (maxerror, avgerror)
           else Ret (maxerror, avgerror)) ;;
        report_loop rest' (u64 (strt + ci)) F nF maxerror avgerror
    end
  else Ret (strt, maxerror, avgerror).

(** [print_bins(C, num_bins, F, nF)] up to its assertion
    [assert(strt==nF)]: the number of bins counted as empty, [maxerror]
    and [avgerror].  The text written to [stdout] and [stderr] is left
    out, and so is the entropy printed after the assertion, which reads
    [C[0..num_bins)] and calls [log]. *)
Definition print_bins (C : list Z) (num_bins : Z) (F : list float) (nF : Z)
  : outcome (Z * float * float) :=
  empty <- count_empty (Z.to_nat (u64 (num_bins - 1))) 0 0 0 C F ;;
  '(strt, maxerror, avgerror) <- report_loop C 0 F nF zero zero ;;
  _ <- assert (strt =? nF) ;;
  Ret (empty, maxerror, avgerror).

End QuantizeReport.

(** ** Specification vocabulary for the coder *)

Module CoderSpec.
Import Coder.

(** Bin frequencies as the bins file holds them, and the symbols that may
    be coded against them. *)
Definition sum (l : list Z) : Z := fold_right Z.add 0 l.

Definition valid_freqs (freqs : list Z) : Prop :=
  freqs <> [] /\ Z.of_nat (length freqs) < 2 ^ 64 /\
  Forall (fun f => 0 <= f) freqs /\ sum freqs <= MINR.

Definition valid_symbol (freqs : list Z) (s : Z) : Prop :=
  0 <= s < Z.of_nat (length freqs) /\ 0 < nth (Z.to_nat s) freqs 0.

(** [cum freqs i]: the number of values in the bins below [i]. *)
Definition cum (freqs : list Z) (i : nat) : Z := sum (firstn i freqs).
Arguments cum : simpl never.

(** The range a coding step leaves: [narrow] without the wrap-around. *)
Definition narrowed (r t low high : Z) : Z :=
  if high <? t then (high - low) * (r / t) else r - low * (r / t).

(** The state after the coding step proper, before carry and
    renormalization. *)
Definition coded (g : coder) (low high : Z) : coder :=
  set_R (set_L g (L g + low * (R g / total g)))
        (narrowed (R g) (total g) low high).

(** The bytes the carry loop writes: the incremented held byte, then a
    zero for each pending [0xFF] but the last. *)
Definition carried_bytes (b : Z) (k : nat) : list Z :=
  match k with
  | O => []
  | S k' => b :: repeat 0 k'
  end.

(** Number of iterations of the renormalization loop entered with range [r]. *)
Fixpoint shifts (fuel : nat) (r : Z) : nat :=
  if r <? PART then
    match fuel with
    | O => O
    | S fuel' => S (shifts fuel' (r * 256))
    end
  else O.

(** Big-endian value of a byte string. *)
Definition be (l : list Z) : Z := fold_left (fun acc b => acc * 256 + b) l 0.

Definition bytes (l : list Z) : Prop := Forall (fun b => 0 <= b < 256) l.

(** The bytes shifted out of [L] but not yet written: the held byte (once
    one has been staged) and the run of pending [0xFF] bytes. *)
Definition held (g : coder) : list Z :=
  (if first g then [] else [last_non_ff_byte g])
  ++ repeat FULLBYTE (Z.to_nat (num_ff_bytes g)).

(** All bytes shifted out of [L] so far, written or not. *)
Definition pending (g : coder) (fp : list Z) : list Z := fp ++ held g.

(** The lower bound of the coding interval at full precision. *)
Definition value (g : coder) (fp : list Z) : Z :=
  be (pending g fp) * 2 ^ 56 + L g.

(** What holds of the encoder variables inside the renormalization loop. *)
Record mid_inv (g : coder) : Prop := {
  mid_R : 0 < R g <= FULL;
  mid_L : 0 <= L g <= FULL;
  mid_last : 0 <= last_non_ff_byte g <= 255;
  mid_nff : 0 <= num_ff_bytes g < 2 ^ 32;
  mid_first : first g = true -> L g + R g <= FULL + 1;
  mid_carry : first g = false ->
              L g + R g <= FULL + 1 \/ last_non_ff_byte g <= 254
}.

(** What holds of the encoder variables between two calls. *)
Definition enc_inv (g : coder) : Prop := mid_inv g /\ PART <= R g.

(** The states the coder variables can be in: after the setup, and after
    any returning call of [arith_encode] on a symbol of nonzero frequency,
    of [decoder_start] or of [arith_decode], on any streams. *)
Inductive reachable (freqs : list Z) : coder -> Prop :=
| reach_setup c g :
    setup freqs = Ret (c, g) -> reachable freqs g
| reach_encode g s fp g' fp' :
    reachable freqs g -> valid_symbol freqs s ->
    arith_encode s (cumfreqs freqs) (Z.of_nat (length freqs)) g fp = Ret (g', fp') ->
    reachable freqs g'
| reach_start g fp :
    reachable freqs g -> reachable freqs (fst (decoder_start g fp))
| reach_decode g fp v g' fp' :
    reachable freqs g ->
    arith_decode (cumfreqs freqs) (Z.of_nat (length freqs)) g fp = Ret (v, g', fp') ->
    reachable freqs g'.

(** The states of an encoder run: after the setup and after each call of
    [arith_encode] on a symbol of nonzero frequency. *)
Inductive enc_reachable (freqs : list Z) : coder -> list Z -> Prop :=
| enc_reach_setup c g :
    setup freqs = Ret (c, g) -> enc_reachable freqs g []
| enc_reach_encode g s fp g' fp' :
    enc_reachable freqs g fp -> valid_symbol freqs s ->
    arith_encode s (cumfreqs freqs) (Z.of_nat (length freqs)) g fp = Ret (g', fp') ->
    enc_reachable freqs g' fp'.

(** The pending run of [0xFF] bytes never comes within one call of the
    capacity of its 32-bit counter. *)
Fixpoint ff_room (xs : list Z) (c : list Z) (g : coder) (fp : list Z) : Prop :=
  match xs with
  | [] => True
  | s :: rest =>
      num_ff_bytes g + 6 < 2 ^ 32 /\
      match arith_encode s c (Z.of_nat (length c)) g fp with
      | Ret (g1, fp1) => ff_room rest c g1 fp1
      | _ => True
      end
  end.

(** *** Concrete runs *)

(** Bins of 255 and 1 values; the second symbol coded over and over. *)
Definition ff_freqs : list Z := [255; 1].

(** The encoder variables after eight times the symbol 1 against
    [ff_freqs]: from here on each further 1 shifts one [0xFF] out of [L]
    and leaves [L] and [R] as they are. *)
Definition g8 : coder :=
  mkCoder 71776119061152256 281474976775680 256 254 0 false 51 0.

Definition fp8 : list Z := [255; 255; 255; 255; 255; 255].

(** Eight and then [2^32] times the symbol 1. *)
Definition long_run : list Z := repeat 1 8 ++ repeat 1 (Z.to_nat 4294967296).

(** The fourteen bytes the encoder writes for [long_run]. *)
Definition short_stream : list Z :=
  [255; 255; 255; 255; 255; 255; 254; 254; 255; 255; 255; 255; 2; 0].

(** Bins of 1 and 255 values, and the encoder variables after the symbols
    1, 1, 0, 0: the held byte is [0xFE], no [0xFF] is pending, and coding
    another 1 carries out of [L]. *)
Definition carry_freqs : list Z := [1; 255].

Definition before_carry : coder :=
  mkCoder 72057594037862400 71495743596134400 256 254 0 false 46 0.

Definition after_carry : coder :=
  mkCoder 279280248356864 71216463347712000 256 255 0 false 46 0.

(** The stream of the symbols 0, 1, 2, 2, 2, 1, 0 against three bins of 3
    values, and the same stream without its last byte, a zero. *)
Definition scenario_stream : list Z := [56; 47; 194; 49; 221; 149; 238; 0].
Definition cut_stream : list Z := [56; 47; 194; 49; 221; 149; 238].

End CoderSpec.

(** ** Specification vocabulary for the tools *)

Module ToolSpec.

(** The C comparisons [a <= b] and [a < b] on floating-point values. *)
Definition fle (a b : float) : Prop := (a <=? b)%float = true.
Definition flt (a b : float) : Prop := (a <? b)%float = true.

(** [U[i]] for [i] inside the array. *)
Definition at_ (U : list float) (i : nat) : float := nth i U nan.

(** [U[i] <= U[i+1]] throughout. *)
Definition nondecreasing (U : list float) : Prop :=
  forall i, (S i < length U)%nat -> fle (at_ U i) (at_ U (S i)).

(** The number of values in the bins below [k]: [strt] when the table
    loop of [write_bins] reaches bin [k]. *)
Definition start (C : list Z) (k : nat) : Z := CoderSpec.sum (firstn k C).

(** The upper bound and the representative [write_bins] has written for
    bin [k]: the two [float]s after the two leading [size_t]s and the
    pairs of the bins before. *)
Definition written_bound (fb : list Quantize.datum) (k : nat) : option Quantize.datum :=
  nth_error fb (2 + 2 * k).
Definition written_rep (fb : list Quantize.datum) (k : nat) : option Quantize.datum :=
  nth_error fb (2 + 2 * k + 1).

(** *** Concrete files *)

(** A bins file of four bins with upper bounds 1, 3, 5, 7,
    representatives 0.5, 2.5, 4.5, 6.5 and two values each. *)
Definition bins_file : list Z :=
  [2; 0; 0; 0; 0; 0; 0; 0;  4; 0; 0; 0; 0; 0; 0; 0;
   0; 0; 128; 63;  0; 0; 0; 63;   0; 0; 64; 64;  0; 0; 32; 64;
   0; 0; 160; 64;  0; 0; 144; 64;  0; 0; 224; 64;  0; 0; 208; 64;
   2; 0; 0; 0; 0; 0; 0; 0;  2; 0; 0; 0; 0; 0; 0; 0;
   2; 0; 0; 0; 0; 0; 0; 0;  2; 0; 0; 0; 0; 0; 0; 0].

(** An index file: a header of 45 bytes, then the floats 0, 1, ..., 7. *)
Definition index_header : list Z :=
  [1; 2; 3; 4; 5; 6; 7; 8; 9; 10; 11; 12; 13; 14; 15; 16; 17; 18; 19; 20;
   21; 22; 23; 24; 25; 26; 27; 28; 29; 30; 31; 32; 33; 34; 35; 36; 37; 38;
   39; 40; 41; 42; 43; 44; 45].

Definition index_floats : list Z :=
  [0; 0; 0; 0;  0; 0; 128; 63;  0; 0; 0; 64;  0; 0; 64; 64;
   0; 0; 128; 64;  0; 0; 160; 64;  0; 0; 192; 64;  0; 0; 224; 64].

Definition index_file : list Z := index_header ++ index_floats.

(** Four equal values of [2^40], already sorted, as they stand after the
    quantizer has loaded them, and the array [C] before it is filled. *)
Definition equal_values : list float :=
  [1099511627776; 1099511627776; 1099511627776; 1099511627776]%float.

Definition fresh_counts : list Z := [0; 0; 0; 0].

(** The floats 0, 1, ..., 7. *)
Definition eight_values : list float := [0; 1; 2; 3; 4; 5; 6; 7]%float.

(** Seven zeros and a seven. *)
Definition skewed_values : list float := [0; 0; 0; 0; 0; 0; 0; 7]%float.

(** Four bins for [eight_values], the second of them empty. *)
Definition gapped_counts : list Z := [2; 0; 2; 4].

(** Four bin bounds. *)
Definition four_bounds : list float := [1; 3; 5; 7]%float.

(** An array of [2^31 + 1] bin bounds: zeros, then a one. *)
Definition huge_bounds : list float :=
  repeat zero (Z.to_nat 2147483648) ++ [one].

End ToolSpec.

(** ** Specification vocabulary for the output stream *)

Module OutputSpec.
Import Coder.

(** From the state [g] with the stream [fp] to the state [g'] with the
    stream [fp']: bytes were only appended, and the counter [bytes_out]
    advanced by their number (as a [size_t]). *)
Definition extends (g : coder) (fp : list Z) (g' : coder) (fp' : list Z) : Prop :=
  exists w, fp' = fp ++ w /\
            u64 (bytes_out g') = u64 (bytes_out g + Z.of_nat (length w)).

End OutputSpec.

(** ** More vocabulary for the tools *)

Module FileSpec.

(** The floats the loop of the encode tool reads from the bytes after
    the header: one for each complete group of four bytes. *)
Fixpoint floats_of_groups (n : nat) (fi : list Z) : list float :=
  match n, fi with
  | S n', b0 :: b1 :: b2 :: b3 :: rest =>
      float_of_bits (Encoder.le [b0; b1; b2; b3]) :: floats_of_groups n' rest
  | _, _ => []
  end.

Definition floats_of (fi : list Z) : list float :=
  floats_of_groups (length fi) fi.

(** The eight bytes of a [size_t] in memory, least significant first. *)
Definition size_bytes (v : Z) : list Z :=
  map (fun i => (v / 256 ^ Z.of_nat i) mod 256) (seq 0 8).

(** A bins file: the marker 2, the number of bins, a pair of four-byte
    floats for each bin, a [size_t] count for each bin. *)
Definition bins_bytes (pairs : list (list Z * list Z)) (counts : list Z) : list Z :=
  size_bytes 2 ++ size_bytes (Z.of_nat (length pairs))
  ++ concat (map (fun p => fst p ++ snd p) pairs)
  ++ concat (map size_bytes counts).

(** The bin bounds [write_bins] writes for counts [C] of the sorted
    values [F]: for each bin the value before the start of the next. *)
Definition bounds (C : list Z) (F : list float) : list float :=
  map (fun k => ToolSpec.at_ F (Z.to_nat (ToolSpec.start C (S k) - 1)))
      (seq 0 (length C)).

(** *** Concrete files *)

(** The float pairs and the counts of [ToolSpec.bins_file]. *)
Definition four_pairs : list (list Z * list Z) :=
  [([0; 0; 128; 63], [0; 0; 0; 63]); ([0; 0; 64; 64], [0; 0; 32; 64]);
   ([0; 0; 160; 64], [0; 0; 144; 64]); ([0; 0; 224; 64], [0; 0; 208; 64])].

Definition four_counts : list Z := [2; 2; 2; 2].

(** The bin numbers of the floats 0, 1, ..., 7 for the bounds 1, 3, 5, 7. *)
Definition eight_bins : list Z := [0; 0; 1; 1; 2; 2; 3; 3].

End FileSpec.

(** ** Vocabulary for the quantizer *)

Module QuantizeSpec.
Import Quantize.

(** The upper end of the last sub-range of Fixed Range for the values
    [F[0..nF)]: [minF + num_bins*interval] as the loop computes it for
    [i = num_bins-1]. *)
Definition fr_top (num_bins : Z) (F : list float) (nF : Z) : float :=
  let minF := (ToolSpec.at_ F 0 - EPS)%float in
  let maxF := (ToolSpec.at_ F (Z.to_nat (nF - 1)) + EPS)%float in
  let interval := ((maxF - minF) / of_size_t num_bins)%float in
  (minF + of_size_t num_bins * interval)%float.

(** A call that returns or runs into undefined behaviour, and does
    nothing else. *)
Definition returns_or_undefined {A} (m : outcome A) : Prop :=
  (exists a, m = Ret a) \/ m = Undefined.

End QuantizeSpec.

(** ** Vocabulary for the length of the code *)

Module RateSpec.
Import Coder CoderSpec.

(** The product over the run of [128 * frequency of the symbol]. *)
Definition weight (freqs xs : list Z) : Z :=
  fold_right (fun s acc => 128 * nth (Z.to_nat s) freqs 0 * acc) 1 xs.

(** The product over the run of [129 * total]. *)
Definition budget (freqs xs : list Z) : Z :=
  fold_right (fun _ acc => 129 * sum freqs * acc) 1 xs.

End RateSpec.
(** ** Facts on the machine arithmetic *)

Section Arithmetic.

Lemma FULL_val : Coder.FULL = 2 ^ 56 - 1.
Proof. reflexivity. Qed.

Lemma PART_val : Coder.PART = 2 ^ 48.
Proof. reflexivity. Qed.

Lemma MINR_val : Coder.MINR = 2 ^ 41.
Proof. reflexivity. Qed.

Lemma u64_small x : 0 <= x < 2 ^ 64 -> u64 x = x.
Proof. intros H. unfold u64. apply Z.mod_small. exact H. Qed.

Lemma u32_small x : 0 <= x < 2 ^ 32 -> u32 x = x.
Proof. intros H. unfold u32. apply Z.mod_small. exact H. Qed.

Lemma u8_small x : 0 <= x < 2 ^ 8 -> u8 x = x.
Proof. intros H. unfold u8. apply Z.mod_small. exact H. Qed.

Lemma u64_range x : 0 <= u64 x < 2 ^ 64.
Proof. unfold u64. apply Z.mod_pos_bound. lia. Qed.

Lemma shiftl8 x : Z.shiftl x 8 = x * 256.
Proof. rewrite Z.shiftl_mul_pow2 by lia. reflexivity. Qed.

Lemma land_FULL x : 0 <= x -> Z.land x Coder.FULL = x mod 2 ^ 56.
Proof.
  intros _. change Coder.FULL with (Z.ones 56).
  apply Z.land_ones. lia.
Qed.

Lemma land_FULLBYTE x : Z.land x Coder.FULLBYTE = x mod 256.
Proof.
  change Coder.FULLBYTE with (Z.ones 8).
  rewrite Z.land_ones by lia. reflexivity.
Qed.

Lemma top_byte x : Z.shiftr x (Coder.BBITS - 8) = x / 2 ^ 48.
Proof. change (Coder.BBITS - 8) with 48. apply Z.shiftr_div_pow2. lia. Qed.

End Arithmetic.

(** ** The frequency table *)

Module TableFacts.
Import Coder CoderSpec.

Lemma sum_app l1 l2 : sum (l1 ++ l2) = sum l1 + sum l2.
Proof. induction l1 as [|x l1 IH]; simpl; [reflexivity | rewrite IH; ring]. Qed.

Lemma sum_nonneg l : Forall (fun f => 0 <= f) l -> 0 <= sum l.
Proof. induction 1; simpl; lia. Qed.

Lemma Forall_firstn {A} (P : A -> Prop) i l : Forall P l -> Forall P (firstn i l).
Proof.
  intros H. rewrite <- (firstn_skipn i l) in H.
  apply Forall_app in H. apply H.
Qed.

Lemma Forall_skipn {A} (P : A -> Prop) i l : Forall P l -> Forall P (skipn i l).
Proof.
  intros H. rewrite <- (firstn_skipn i l) in H.
  apply Forall_app in H. apply H.
Qed.

Lemma sum_firstn_le l i : Forall (fun f => 0 <= f) l -> 0 <= sum (firstn i l) <= sum l.
Proof.
  intros H. rewrite <- (firstn_skipn i l) at 3. rewrite sum_app.
  pose proof (sum_nonneg (firstn i l) (Forall_firstn _ i l H)).
  pose proof (sum_nonneg (skipn i l) (Forall_skipn _ i l H)). lia.
Qed.

Lemma cum_S freqs i :
  (i < length freqs)%nat -> cum freqs (S i) = cum freqs i + nth i freqs 0.
Proof.
  unfold cum. revert i. induction freqs as [|x l IH]; intros [|i] Hi; simpl in *; try lia.
  rewrite (IH i) by lia. ring.
Qed.

Lemma cum_all freqs : cum freqs (length freqs) = sum freqs.
Proof. unfold cum. rewrite firstn_all. reflexivity. Qed.

Lemma cum_mono freqs i j :
  Forall (fun f => 0 <= f) freqs -> (i <= j)%nat -> cum freqs i <= cum freqs j.
Proof.
  intros H Hij. unfold cum.
  replace i with (Nat.min i j) by lia.
  rewrite <- firstn_firstn.
  apply sum_firstn_le. apply Forall_firstn. exact H.
Qed.

Lemma cum_le_total freqs i :
  Forall (fun f => 0 <= f) freqs -> 0 <= cum freqs i <= sum freqs.
Proof. intros H. apply sum_firstn_le. exact H. Qed.

Lemma cumulate_length acc c : length (cumulate acc c) = length c.
Proof. revert acc. induction c; intros; simpl; [reflexivity | f_equal; apply IHc]. Qed.

Lemma cumfreqs_length c : length (cumfreqs c) = length c.
Proof. destruct c; simpl; [reflexivity | f_equal; apply cumulate_length]. Qed.

Lemma cumulate_nth c : forall acc i,
  Forall (fun f => 0 <= f) c -> 0 <= acc -> acc + sum c < 2 ^ 64 ->
  (i < length c)%nat ->
  nth i (cumulate acc c) 0 = acc + sum (firstn (S i) c).
Proof.
  induction c as [|x c IH]; intros acc i Hc Hacc Hsum Hi; simpl in Hi; [lia|].
  inversion Hc as [|? ? Hx Hc']; subst.
  pose proof (sum_nonneg c Hc') as Hn.
  cbn [cumulate sum fold_right] in *. fold (sum c) in *.
  rewrite u64_small by lia.
  destruct i as [|i].
  - simpl. lia.
  - cbn [nth]. rewrite IH by (simpl in *; try lia; assumption).
    cbn [firstn fold_right sum]. change (fold_right Z.add 0 (x :: firstn (S i) c))
      with (x + sum (firstn (S i) c)). lia.
Qed.

Lemma cumfreqs_nth freqs i :
  Forall (fun f => 0 <= f) freqs -> sum freqs < 2 ^ 64 ->
  (i < length freqs)%nat ->
  nth i (cumfreqs freqs) 0 = cum freqs (S i).
Proof.
  intros H Hs Hi. destruct freqs as [|x l]; simpl in Hi; [lia|].
  inversion H as [|? ? Hx Hl]; subst.
  unfold cum. destruct i as [|i].
  - simpl. lia.
  - cbn [cumfreqs nth]. rewrite cumulate_nth; simpl in *; try lia; try assumption.
Qed.

Lemma MINR_lt : MINR < 2 ^ 64.
Proof. reflexivity. Qed.

Lemma index_cumfreqs freqs i :
  valid_freqs freqs -> 0 <= i < Z.of_nat (length freqs) ->
  index (cumfreqs freqs) i = Ret (cum freqs (S (Z.to_nat i))).
Proof.
  intros (Hne & Hlen & Hpos & Hsum) Hi. unfold index.
  rewrite cumfreqs_length.
  replace ((0 <=? i) && (i <? Z.of_nat (length freqs))) with true
    by (symmetry; apply andb_true_iff; split; [apply Z.leb_le | apply Z.ltb_lt]; lia).
  rewrite cumfreqs_nth; [reflexivity | assumption | pose proof MINR_lt; lia | lia].
Qed.

Lemma setup_ok freqs :
  valid_freqs freqs ->
  setup freqs = Ret (cumfreqs freqs, set_total initial (sum freqs)).
Proof.
  intros Hv. pose proof Hv as (Hne & Hlen & Hpos & Hsum).
  unfold setup, cum_total. rewrite cumfreqs_length.
  assert (0 < Z.of_nat (length freqs)) by (destruct freqs; simpl; [congruence | lia]).
  rewrite u64_small by lia.
  rewrite index_cumfreqs by (try assumption; lia).
  replace (S (Z.to_nat (Z.of_nat (length freqs) - 1))) with (length freqs) by lia.
  rewrite cum_all. reflexivity.
Qed.

End TableFacts.

(** ** Byte strings as numbers *)

Module ByteFacts.
Import Coder CoderSpec.

Lemma be_acc l : forall acc,
  fold_left (fun a b => a * 256 + b) l acc = acc * 256 ^ Z.of_nat (length l) + be l.
Proof.
  unfold be. induction l as [|x l IH]; intros acc.
  - simpl. lia.
  - cbn [fold_left length]. rewrite (IH (acc * 256 + x)), (IH (0 * 256 + x)).
    rewrite Nat2Z.inj_succ, Z.pow_succ_r by lia. ring.
Qed.

Lemma be_app l1 l2 : be (l1 ++ l2) = be l1 * 256 ^ Z.of_nat (length l2) + be l2.
Proof. unfold be at 1. rewrite fold_left_app. fold (be l1). apply be_acc. Qed.

Lemma be_cons x l : be (x :: l) = x * 256 ^ Z.of_nat (length l) + be l.
Proof. change (x :: l) with ([x] ++ l). rewrite be_app. reflexivity. Qed.

Lemma be_snoc l b : be (l ++ [b]) = be l * 256 + b.
Proof. rewrite be_app. cbn. lia. Qed.

Lemma be_repeat_zero k : be (repeat 0 k) = 0.
Proof.
  induction k as [|k IH]; [reflexivity|].
  cbn [repeat]. rewrite be_cons, IH. lia.
Qed.

Lemma be_repeat_ff k : be (repeat FULLBYTE k) = 256 ^ Z.of_nat k - 1.
Proof.
  induction k as [|k IH]; [reflexivity|].
  cbn [repeat]. rewrite be_cons, IH, repeat_length.
  rewrite Nat2Z.inj_succ, Z.pow_succ_r by lia. unfold FULLBYTE. lia.
Qed.

Lemma be_bounds l : bytes l -> 0 <= be l < 256 ^ Z.of_nat (length l).
Proof.
  induction l as [|x l IH] using rev_ind; intros H.
  - cbn. lia.
  - apply Forall_app in H. destruct H as [Hl Hx]. inversion Hx; subst.
    specialize (IH Hl). rewrite be_snoc, length_app. cbn [length].
    replace (Z.of_nat (length l + 1)) with (Z.succ (Z.of_nat (length l))) by lia.
    rewrite Z.pow_succ_r by lia. lia.
Qed.

Lemma bytes_app l1 l2 : bytes (l1 ++ l2) <-> bytes l1 /\ bytes l2.
Proof. apply Forall_app. Qed.

Lemma bytes_repeat b k : 0 <= b < 256 -> bytes (repeat b k).
Proof. intros H. induction k; constructor; assumption. Qed.

Lemma pow256_pos k : 0 < 256 ^ Z.of_nat k.
Proof. apply Z.pow_pos_nonneg; lia. Qed.

Lemma pow256_add a b : 256 ^ Z.of_nat (a + b) = 256 ^ Z.of_nat a * 256 ^ Z.of_nat b.
Proof. rewrite Nat2Z.inj_add, Z.pow_add_r by lia. reflexivity. Qed.

End ByteFacts.

(** ** The encoder: one call *)

Module EncoderFacts.
Import Coder CoderSpec TableFacts.

Lemma narrowed_bounds r t low high :
  PART <= r <= FULL -> 0 < t <= MINR -> 0 <= low < high -> high <= t ->
  128 <= r / t /\ 0 <= low * (r / t) /\
  r / t <= narrowed r t low high /\
  low * (r / t) + narrowed r t low high <= r.
Proof.
  rewrite PART_val, FULL_val, MINR_val. intros Hr Ht Hl Hh.
  assert (Hq : 128 <= r / t) by (apply Z.div_le_lower_bound; lia).
  pose proof (Z.mul_div_le r t ltac:(lia)) as Hm.
  unfold narrowed. destruct (Z.ltb_spec high t); repeat split; try nia.
Qed.

Lemma narrow_eq g low high :
  PART <= R g <= FULL -> 0 < total g <= MINR -> 0 <= low < high -> high <= total g ->
  narrow g low high (R g / total g) = narrowed (R g) (total g) low high.
Proof.
  intros Hr Ht Hl Hh.
  destruct (narrowed_bounds _ _ _ _ Hr Ht Hl Hh) as (Hq & Hls & Hn1 & Hn2).
  rewrite FULL_val, MINR_val in *.
  unfold narrow, narrowed in *. destruct (Z.ltb_spec high (total g)).
  - rewrite (u64_small (high - low)) by lia. apply u64_small. nia.
  - rewrite (u64_small (low * _)) by lia. apply u64_small. lia.
Qed.

Lemma arith_encode_unfold s c n g fp low high :
  enc_inv g -> 0 < total g <= MINR ->
  symbol_range s c = Ret (low, high) ->
  0 <= low < high -> high <= total g ->
  arith_encode s c n g fp =
  (let '(g3, fp3) := carry (coded g low high) fp in renorm renorm_fuel g3 fp3).
Proof.
  intros [Hm Hp] Ht Hs Hl Hh. destruct Hm as [HR HL _ _ _ _].
  assert (HR' : PART <= R g <= FULL) by lia.
  destruct (narrowed_bounds _ _ _ _ HR' Ht Hl Hh) as (Hq & Hls & Hn1 & Hn2).
  rewrite PART_val, FULL_val, MINR_val in *.
  unfold arith_encode. rewrite Hs.
  replace (total g <? R g) with true by (symmetry; apply Z.ltb_lt; lia).
  unfold udiv. replace (total g =? 0) with false by (symmetry; apply Z.eqb_neq; lia).
  cbn [assert bind].
  rewrite (u64_small (low * _)) by lia.
  rewrite (u64_small (L g + _)) by lia.
  replace (narrow (set_L g _) low high (R g / total g))
    with (narrowed (R g) (total g) low high).
  - reflexivity.
  - symmetry. apply (narrow_eq (set_L g (L g + low * (R g / total g)))); simpl;
      rewrite ?PART_val, ?FULL_val, ?MINR_val; lia.
Qed.

(** *** The flushing loops *)

Lemma ff_flush_spec k : forall g fp,
  let r := ff_flush k g fp in
  snd r = fp ++ repeat FULLBYTE k /\
  L (fst r) = L g /\ R (fst r) = R g /\ total (fst r) = total g /\
  last_non_ff_byte (fst r) = last_non_ff_byte g /\
  num_ff_bytes (fst r) = num_ff_bytes g - Z.of_nat k /\
  first (fst r) = first g /\ D (fst r) = D g.
Proof.
  induction k as [|k IH]; intros g fp; cbn [ff_flush put].
  - cbn. rewrite app_nil_r. repeat split; lia.
  - specialize (IH (set_num_ff (set_bytes_out g (u64 (bytes_out g + 1)))
                     (num_ff_bytes (set_bytes_out g (u64 (bytes_out g + 1))) - 1))
                   (fp ++ [FULLBYTE])).
    cbv zeta in IH. destruct IH as (H1 & H2 & H3 & H4 & H5 & H6 & H7 & H8).
    cbv zeta. rewrite H1, H2, H3, H4, H5, H6, H7, H8. cbn.
    rewrite <- app_assoc. repeat split; lia.
Qed.

Lemma carry_flush_zero k : forall g fp,
  last_non_ff_byte g = 0 ->
  let r := carry_flush k g fp in
  snd r = fp ++ repeat 0 k /\
  L (fst r) = L g /\ R (fst r) = R g /\ total (fst r) = total g /\
  last_non_ff_byte (fst r) = 0 /\
  num_ff_bytes (fst r) = num_ff_bytes g - Z.of_nat k /\
  first (fst r) = first g /\ D (fst r) = D g.
Proof.
  induction k as [|k IH]; intros g fp Hl; cbn [carry_flush put].
  - cbn. rewrite app_nil_r. repeat split; lia.
  - specialize (IH (set_last (set_num_ff (set_bytes_out g (u64 (bytes_out g + 1)))
                     (num_ff_bytes (set_bytes_out g (u64 (bytes_out g + 1))) - 1)) ZERO)
                   (fp ++ [last_non_ff_byte g]) eq_refl).
    cbv zeta in IH. destruct IH as (H1 & H2 & H3 & H4 & H5 & H6 & H7 & H8).
    cbv zeta. rewrite H1, H2, H3, H4, H5, H6, H7, H8, Hl. cbn.
    rewrite <- app_assoc. repeat split; lia.
Qed.

Lemma carry_flush_spec k g fp :
  let r := carry_flush k g fp in
  snd r = fp ++ carried_bytes (last_non_ff_byte g) k /\
  L (fst r) = L g /\ R (fst r) = R g /\ total (fst r) = total g /\
  last_non_ff_byte (fst r) = match k with O => last_non_ff_byte g | S _ => 0 end /\
  num_ff_bytes (fst r) = num_ff_bytes g - Z.of_nat k /\
  first (fst r) = first g /\ D (fst r) = D g.
Proof.
  destruct k as [|k]; cbn [carry_flush put carried_bytes].
  - cbn. rewrite app_nil_r. repeat split; lia.
  - pose proof (carry_flush_zero k
        (set_last (set_num_ff (set_bytes_out g (u64 (bytes_out g + 1)))
                     (num_ff_bytes (set_bytes_out g (u64 (bytes_out g + 1))) - 1)) ZERO)
        (fp ++ [last_non_ff_byte g]) eq_refl) as H.
    cbv zeta in H. destruct H as (H1 & H2 & H3 & H4 & H5 & H6 & H7 & H8).
    cbv zeta. rewrite H1, H2, H3, H4, H5, H6, H7, H8. cbn.
    rewrite <- app_assoc. repeat split; lia.
Qed.

(** *** The carry *)

(** Closed form of the carry step. *)
Lemma carry_closed g fp :
  FULL < L g -> 0 <= num_ff_bytes g ->
  let b := u8 (last_non_ff_byte g + 1) in
  let k := Z.to_nat (num_ff_bytes g) in
  let r := carry g fp in
  snd r = fp ++ carried_bytes b k /\
  L (fst r) = Z.land (L g) FULL /\ R (fst r) = R g /\ total (fst r) = total g /\
  last_non_ff_byte (fst r) = match k with O => b | S _ => 0 end /\
  num_ff_bytes (fst r) = 0 /\
  first (fst r) = first g /\ D (fst r) = D g.
Proof.
  intros HL Hk. unfold carry.
  replace (FULL <? L g) with true by (symmetry; apply Z.ltb_lt; exact HL).
  cbv zeta.
  pose proof (carry_flush_spec
    (Z.to_nat (num_ff_bytes (set_L (set_last g (u8 (last_non_ff_byte g + 1)))
        (Z.land (L (set_last g (u8 (last_non_ff_byte g + 1)))) FULL))))
    (set_L (set_last g (u8 (last_non_ff_byte g + 1)))
        (Z.land (L (set_last g (u8 (last_non_ff_byte g + 1)))) FULL)) fp) as H.
  cbv zeta in H. cbn [set_L set_last num_ff_bytes L R total last_non_ff_byte first D] in *.
  destruct H as (H1 & H2 & H3 & H4 & H5 & H6 & H7 & H8).
  repeat split; try assumption. lia.
Qed.

Lemma held_length g :
  0 <= num_ff_bytes g ->
  Z.of_nat (length (held g)) = (if first g then 0 else 1) + num_ff_bytes g.
Proof.
  intros H. unfold held. rewrite length_app, repeat_length.
  destruct (first g); cbn [length]; lia.
Qed.

Lemma be_pending g fp :
  0 <= num_ff_bytes g ->
  be (pending g fp) =
  (if first g then be fp else be fp * 256 + last_non_ff_byte g)
    * 256 ^ num_ff_bytes g + (256 ^ num_ff_bytes g - 1).
Proof.
  intros H. unfold pending, held.
  rewrite app_assoc, ByteFacts.be_app, ByteFacts.be_repeat_ff, repeat_length.
  rewrite Z2Nat.id by lia.
  destruct (first g).
  - rewrite app_nil_r. reflexivity.
  - rewrite ByteFacts.be_snoc. reflexivity.
Qed.

(** The carry after a coding step: the invariant of the loop that follows
    holds, and the full-precision lower bound has moved up by
    [low * scale]. *)
Lemma carry_coded g fp low high :
  enc_inv g -> 0 < total g <= MINR -> 0 <= low < high -> high <= total g ->
  let r := carry (coded g low high) fp in
  mid_inv (fst r) /\
  R (fst r) = narrowed (R g) (total g) low high /\
  total (fst r) = total g /\
  num_ff_bytes (fst r) <= num_ff_bytes g /\
  length (pending (fst r) (snd r)) = length (pending g fp) /\
  value (fst r) (snd r) = value g fp + low * (R g / total g) /\
  (bytes (pending g fp) -> bytes (pending (fst r) (snd r))).
Proof.
  intros [Hm Hp] Ht Hl Hh. destruct Hm as [HR HL Hlast Hnff Hfirst Hcarry].
  assert (HR' : PART <= R g <= FULL) by lia.
  destruct (narrowed_bounds _ _ _ _ HR' Ht Hl Hh) as (Hq & Hls & Hn1 & Hn2).
  set (g2 := coded g low high).
  assert (EL : L g2 = L g + low * (R g / total g)) by reflexivity.
  assert (ER : R g2 = narrowed (R g) (total g) low high) by reflexivity.
  assert (Elast : last_non_ff_byte g2 = last_non_ff_byte g) by reflexivity.
  assert (Enff : num_ff_bytes g2 = num_ff_bytes g) by reflexivity.
  assert (Efirst : first g2 = first g) by reflexivity.
  assert (Etot : total g2 = total g) by reflexivity.
  rewrite PART_val, FULL_val, MINR_val in *.
  destruct (Z.ltb_spec FULL (L g2)) as [Hc | Hc]; rewrite FULL_val in Hc.
  - (* the lower bound has overflowed *)
    assert (Hf : first g = false).
    { destruct (first g) eqn:E; [|reflexivity]. specialize (Hfirst eq_refl). lia. }
    assert (Hb : last_non_ff_byte g <= 254).
    { destruct (Hcarry Hf) as [Hs | Hs]; lia. }
    pose proof (carry_closed g2 fp ltac:(rewrite FULL_val; lia) ltac:(lia)) as H.
    cbv zeta in H. destruct H as (H1 & H2 & H3 & H4 & H5 & H6 & H7 & H8).
    rewrite land_FULL in H2 by lia.
    assert (HL3 : L (fst (carry g2 fp)) = L g2 - 2 ^ 56).
    { rewrite H2. symmetry. apply Z.mod_unique with (q := 1); lia. }
    rewrite Elast, Enff in *. rewrite u8_small in * by lia.
    cbv zeta.
    assert (Hlast3 : 0 <= last_non_ff_byte (fst (carry g2 fp)) <= 255).
    { rewrite H5. destruct (Z.to_nat (num_ff_bytes g)); lia. }
    split; [|repeat apply conj].
    + constructor; rewrite ?FULL_val; lia.
    + lia.
    + lia.
    + lia.
    + unfold pending. rewrite !length_app, H1, length_app.
      apply Nat2Z.inj. rewrite !Nat2Z.inj_add, !held_length by lia.
      rewrite H6, H7, Efirst, Hf.
      unfold carried_bytes. destruct (Z.to_nat (num_ff_bytes g)) eqn:E.
      * cbn [length]. lia.
      * cbn [length]. rewrite repeat_length. lia.
    + unfold value. rewrite !be_pending by lia.
      rewrite H6, H7, Efirst, Hf, H1, H5, HL3, EL.
      unfold carried_bytes. destruct (Z.to_nat (num_ff_bytes g)) as [|k] eqn:E.
      * assert (num_ff_bytes g = 0) by lia.
        rewrite app_nil_r. replace (num_ff_bytes g) with 0 by lia. cbn. lia.
      * replace (num_ff_bytes g) with (Z.succ (Z.of_nat k)) by lia.
        rewrite ByteFacts.be_app, ByteFacts.be_cons, ByteFacts.be_repeat_zero.
        cbn [length]. rewrite repeat_length.
        rewrite Nat2Z.inj_succ, !Z.pow_succ_r by lia.
        change (256 ^ 0) with 1. ring.
    + unfold pending, held. rewrite H6, H7, Efirst, Hf, H1, H5. cbn [Z.to_nat repeat].
      rewrite app_nil_r. intros Hbytes.
      apply ByteFacts.bytes_app in Hbytes. destruct Hbytes as [Hfp _].
      apply ByteFacts.bytes_app. split; [apply ByteFacts.bytes_app; split|].
      * exact Hfp.
      * unfold carried_bytes. destruct (Z.to_nat (num_ff_bytes g)).
        -- constructor.
        -- constructor; [lia | apply ByteFacts.bytes_repeat; lia].
      * constructor; [|constructor]. destruct (Z.to_nat (num_ff_bytes g)); lia.
  - (* no overflow: nothing happens *)
    unfold carry. replace (FULL <? L g2) with false
      by (symmetry; apply Z.ltb_ge; rewrite FULL_val; lia).
    cbn [fst snd]. split; [|repeat apply conj].
    + constructor; rewrite ?FULL_val, ?EL, ?ER, ?Elast, ?Enff, ?Efirst; try lia.
      * intros E. specialize (Hfirst E). lia.
      * intros E. destruct (Hcarry E); [left|right]; lia.
    + reflexivity.
    + reflexivity.
    + lia.
    + apply Nat2Z.inj. unfold pending. rewrite !length_app, !Nat2Z.inj_add.
      rewrite !held_length by lia. rewrite Efirst, Enff. reflexivity.
    + unfold value. rewrite !be_pending by lia.
      rewrite Efirst, Enff, Elast, EL. ring.
    + intros Hbytes. exact Hbytes.
Qed.

(** *** Renormalization *)

Lemma shift_out x :
  0 <= x <= FULL ->
  0 <= x / 2 ^ 48 <= 255 /\
  Z.land (u64 (Z.shiftl x 8)) FULL = (x mod 2 ^ 48) * 256 /\
  x = x / 2 ^ 48 * 2 ^ 48 + x mod 2 ^ 48 /\ 0 <= x mod 2 ^ 48 < 2 ^ 48.
Proof.
  rewrite FULL_val. intros Hx.
  pose proof (Z.div_mod x (2 ^ 48) ltac:(lia)) as Hd.
  pose proof (Z.mod_pos_bound x (2 ^ 48) ltac:(lia)) as Hm.
  assert (0 <= x / 2 ^ 48 <= 255).
  { split; [apply Z.div_pos; lia|].
    assert (x / 2 ^ 48 < 256); [apply Z.div_lt_upper_bound; lia | lia]. }
  repeat apply conj; try lia.
  rewrite shiftl8, u64_small by lia.
  rewrite land_FULL by lia.
  change (2 ^ 56) with (2 ^ 48 * 256).
  rewrite Z.mul_mod_distr_r by lia. reflexivity.
Qed.

Lemma repeat_snoc {A} (x : A) k : repeat x (S k) = repeat x k ++ [x].
Proof. induction k as [|k IH]; [reflexivity|]. cbn [repeat app] in *. rewrite <- IH. reflexivity. Qed.

Lemma renorm_step_spec g fp :
  mid_inv g -> R g < PART ->
  let r := renorm_step g fp in
  mid_inv (fst r) /\
  R (fst r) = R g * 256 /\
  total (fst r) = total g /\
  (num_ff_bytes g + 1 < 2 ^ 32 ->
   pending (fst r) (snd r) = pending g fp ++ [L g / 2 ^ 48] /\
   L (fst r) = (L g mod 2 ^ 48) * 256 /\
   num_ff_bytes (fst r) <= num_ff_bytes g + 1).
Proof.
  intros [HR HL Hlast Hnff Hfirst Hcarry] Hp.
  destruct (shift_out (L g) HL) as (Hb & HL' & Hsplit & Hrem).
  rewrite FULL_val in HR, HL, Hfirst, Hcarry. rewrite PART_val in Hp.
  unfold renorm_step. rewrite top_byte, u8_small by lia.
  destruct (Z.eqb_spec (L g / 2 ^ 48) FULLBYTE) as [Ebyte | Ebyte]; cbn [negb].
  - (* an 0xFF byte: counted *)
    cbn [fst snd set_R set_L set_num_ff L R total last_non_ff_byte num_ff_bytes first].
    rewrite HL', (shiftl8 (R g)), (u64_small (R g * 256)) by lia.
    unfold FULLBYTE in Ebyte.
    assert (Hu : 0 <= u32 (num_ff_bytes g + 1) < 2 ^ 32)
      by (unfold u32; apply Z.mod_pos_bound; lia).
    split; [|repeat apply conj].
    + constructor;
        cbn [set_R set_L set_num_ff L R total last_non_ff_byte num_ff_bytes first];
        rewrite ?FULL_val; try lia.
      * intros E. specialize (Hfirst E). lia.
      * intros E. destruct (Hcarry E); [left|right]; lia.
    + reflexivity.
    + reflexivity.
    + intros Hroom. rewrite u32_small by lia. repeat apply conj; try lia.
      unfold pending, held.
      cbn [set_R set_L set_num_ff L R total last_non_ff_byte num_ff_bytes first].
      replace (Z.to_nat (num_ff_bytes g + 1)) with (S (Z.to_nat (num_ff_bytes g))) by lia.
      rewrite repeat_snoc, Ebyte, !app_assoc. reflexivity.
  - (* any other byte: staged, after the held byte and the run are written *)
    set (r1 := if negb (first g) then put (last_non_ff_byte g) g fp else (g, fp)).
    assert (H1 : snd r1 = fp ++ (if first g then [] else [last_non_ff_byte g]) /\
                 L (fst r1) = L g /\ R (fst r1) = R g /\ total (fst r1) = total g /\
                 num_ff_bytes (fst r1) = num_ff_bytes g).
    { unfold r1. destruct (first g); cbn; rewrite ?app_nil_r; repeat split. }
    destruct r1 as [g1 fp1]. cbn [fst snd] in H1.
    destruct H1 as (E1 & E2 & E3 & E4 & E5).
    pose proof (ff_flush_spec (Z.to_nat (num_ff_bytes g1)) g1 fp1) as H2.
    cbv zeta in H2. destruct (ff_flush (Z.to_nat (num_ff_bytes g1)) g1 fp1) as [g2 fp2].
    cbn [fst snd] in H2. destruct H2 as (F1 & F2 & F3 & F4 & F5 & F6 & F7 & F8).
    cbn [fst snd set_R set_L set_last set_first L R total last_non_ff_byte num_ff_bytes first].
    rewrite F2, E2, HL', F3, E3, (shiftl8 (R g)), (u64_small (R g * 256)) by lia.
    unfold FULLBYTE in Ebyte.
    split; [|repeat apply conj].
    + constructor;
        cbn [set_R set_L set_last set_first L R total last_non_ff_byte num_ff_bytes first];
        rewrite ?FULL_val; lia.
    + reflexivity.
    + lia.
    + intros Hroom. repeat apply conj; try lia.
      unfold pending, held.
      cbn [set_R set_L set_last set_first L R total last_non_ff_byte num_ff_bytes first].
      rewrite F6, E5, Z2Nat.id, Z.sub_diag by lia. cbn [Z.to_nat repeat].
      rewrite F1, E1, E5, app_nil_r, !app_assoc. reflexivity.
Qed.

Lemma value_shift g fp g' fp' :
  pending g' fp' = pending g fp ++ [L g / 2 ^ 48] ->
  L g' = (L g mod 2 ^ 48) * 256 ->
  value g' fp' = value g fp * 256.
Proof.
  intros HP HL. unfold value. rewrite HP, HL, ByteFacts.be_snoc.
  pose proof (Z.div_mod (L g) (2 ^ 48) ltac:(lia)) as Hd.
  rewrite Hd at 3. ring.
Qed.

Lemma renorm_spec fuel : forall g fp,
  mid_inv g -> PART <= R g * 256 ^ Z.of_nat fuel ->
  exists g' fp',
    renorm fuel g fp = Ret (g', fp') /\
    enc_inv g' /\ total g' = total g /\
    R g' = R g * 256 ^ Z.of_nat (shifts fuel (R g)) /\
    (num_ff_bytes g + Z.of_nat fuel < 2 ^ 32 ->
     value g' fp' = value g fp * 256 ^ Z.of_nat (shifts fuel (R g)) /\
     length (pending g' fp') = (length (pending g fp) + shifts fuel (R g))%nat /\
     num_ff_bytes g' <= num_ff_bytes g + Z.of_nat (shifts fuel (R g)) /\
     (bytes (pending g fp) -> bytes (pending g' fp'))).
Proof.
  induction fuel as [|fuel IH]; intros g fp Hm Hf.
  - cbn [renorm shifts]. change (256 ^ Z.of_nat 0) with 1 in *.
    replace (R g <? PART) with false by (symmetry; apply Z.ltb_ge; lia).
    exists g, fp. repeat apply conj; try reflexivity; try assumption; try lia.
    intros _. repeat apply conj; try lia. intros Hb; exact Hb.
  - cbn [renorm shifts]. destruct (Z.ltb_spec (R g) PART) as [Hlt | Hge].
    + pose proof (renorm_step_spec g fp Hm Hlt) as Hs. cbv zeta in Hs.
      destruct (renorm_step g fp) as [g1 fp1]. cbn [fst snd] in Hs.
      destruct Hs as (Hm1 & ER & ET & Hval).
      destruct (IH g1 fp1 Hm1) as (g' & fp' & Hrun & Hinv & Htot & HR & Hv).
      { rewrite ER. rewrite Nat2Z.inj_succ, Z.pow_succ_r in Hf by lia. lia. }
      exists g', fp'. rewrite ER in *. pose proof Hinv as [Hi1 Hi2].
      repeat apply conj; try assumption; try lia.
      * rewrite HR, Nat2Z.inj_succ, Z.pow_succ_r by lia. ring.
      * intros Hroom.
        destruct (Hval ltac:(lia)) as (HP & HL & Hn).
        destruct (Hv ltac:(lia)) as (V1 & V2 & V3 & V4).
        split; [|split; [|split]].
        -- rewrite V1, (value_shift g fp g1 fp1 HP HL).
           rewrite Nat2Z.inj_succ, Z.pow_succ_r by lia. ring.
        -- rewrite V2, HP, length_app. cbn [length]. lia.
        -- lia.
        -- intros Hbytes. apply V4. rewrite HP. apply ByteFacts.bytes_app.
           split; [exact Hbytes|]. constructor; [|constructor].
           destruct Hm as [_ HLg _ _ _ _].
           destruct (shift_out (L g) HLg) as (Hb & _). lia.
    + exists g, fp. change (256 ^ Z.of_nat 0) with 1.
      repeat apply conj; try reflexivity; try assumption; try lia.
      intros _. repeat apply conj; try lia. intros Hb; exact Hb.
Qed.

(** *** One call of [arith_encode] *)

Lemma valid_symbol_range freqs s :
  valid_freqs freqs -> valid_symbol freqs s ->
  symbol_range s (cumfreqs freqs)
    = Ret (cum freqs (Z.to_nat s), cum freqs (S (Z.to_nat s))) /\
  0 <= cum freqs (Z.to_nat s) < cum freqs (S (Z.to_nat s)) /\
  cum freqs (S (Z.to_nat s)) <= sum freqs.
Proof.
  intros Hv [Hs Hf]. pose proof Hv as (Hne & Hlen & Hpos & Hsum).
  split; [|split].
  - unfold symbol_range. destruct (Z.eqb_spec s 0) as [-> | Hs0].
    + rewrite index_cumfreqs by (try assumption; lia). reflexivity.
    + rewrite u64_small by lia.
      rewrite !index_cumfreqs by (try assumption; lia).
      replace (S (Z.to_nat (s - 1))) with (Z.to_nat s) by lia. reflexivity.
  - rewrite cum_S by lia. pose proof (cum_le_total freqs (Z.to_nat s) Hpos). lia.
  - apply cum_le_total. exact Hpos.
Qed.

Lemma total_positive freqs s :
  valid_freqs freqs -> valid_symbol freqs s -> 0 < sum freqs <= MINR.
Proof.
  intros Hv Hs. destruct (valid_symbol_range freqs s Hv Hs) as (_ & H1 & H2).
  destruct Hv as (_ & _ & _ & H). lia.
Qed.

Lemma arith_encode_spec freqs s g fp :
  valid_freqs freqs -> valid_symbol freqs s ->
  enc_inv g -> total g = sum freqs ->
  let low := cum freqs (Z.to_nat s) in
  let rn := narrowed (R g) (total g) low (cum freqs (S (Z.to_nat s))) in
  let j := shifts renorm_fuel rn in
  exists g' fp',
    arith_encode s (cumfreqs freqs) (Z.of_nat (length freqs)) g fp = Ret (g', fp') /\
    enc_inv g' /\ total g' = total g /\
    R g' = rn * 256 ^ Z.of_nat j /\
    (num_ff_bytes g + 6 < 2 ^ 32 ->
     value g' fp' = (value g fp + low * (R g / total g)) * 256 ^ Z.of_nat j /\
     length (pending g' fp') = (length (pending g fp) + j)%nat /\
     num_ff_bytes g' <= num_ff_bytes g + 6 /\
     (bytes (pending g fp) -> bytes (pending g' fp'))).
Proof.
  intros Hv Hs Hinv Htot. cbv zeta.
  set (low := cum freqs (Z.to_nat s)).
  set (rn := narrowed (R g) (total g) low (cum freqs (S (Z.to_nat s)))).
  set (j := shifts renorm_fuel rn).
  destruct (valid_symbol_range freqs s Hv Hs) as (Hrange & Hlow & Hhigh).
  pose proof (total_positive freqs s Hv Hs) as Ht. rewrite <- Htot in Ht, Hhigh.
  rewrite (arith_encode_unfold _ _ _ _ _ _ _ Hinv Ht Hrange Hlow Hhigh).
  pose proof (carry_coded g fp _ _ Hinv Ht Hlow Hhigh) as Hc. cbv zeta in Hc.
  destruct (carry _ fp) as [g3 fp3]. cbn [fst snd] in Hc.
  destruct Hc as (Hm3 & ER3 & ET3 & Hn3 & Hlen3 & Hval3 & Hb3).
  destruct Hinv as [Hm Hp]. destruct Hm as [HR _ _ Hnff _ _].
  destruct (narrowed_bounds (R g) (total g) low (cum freqs (S (Z.to_nat s))))
    as (Hq & _ & Hn1 & Hn2); try lia; try assumption.
  change (R g3 = rn) in ER3. fold rn in Hn1, Hn2.
  destruct (renorm_spec renorm_fuel g3 fp3 Hm3) as (g' & fp' & Hrun & Hinv' & Htot' & HR' & Hv').
  { rewrite ER3, PART_val. change (256 ^ Z.of_nat renorm_fuel) with (2 ^ 48). lia. }
  exists g', fp'. rewrite ER3 in *. fold j in HR', Hv'.
  assert (Hj : (j <= 6)%nat).
  { unfold j, renorm_fuel. generalize rn. generalize 6%nat.
    induction n as [|n IHn]; intros r; cbn [shifts]; destruct (r <? PART); try lia.
    specialize (IHn (r * 256)). lia. }
  split; [assumption|]. split; [assumption|]. split; [lia|]. split; [assumption|].
  intros Hroom. destruct Hv' as (V1 & V2 & V3 & V4); [unfold renorm_fuel; lia|].
  split; [|split; [|split]].
  - rewrite V1, Hval3. reflexivity.
  - rewrite V2, Hlen3. reflexivity.
  - lia.
  - intros Hbytes. apply V4, Hb3, Hbytes.
Qed.

Lemma setup_inv freqs c g :
  valid_freqs freqs -> setup freqs = Ret (c, g) ->
  c = cumfreqs freqs /\ enc_inv g /\ total g = sum freqs /\ pending g [] = [].
Proof.
  intros Hv H. rewrite (setup_ok freqs Hv) in H. inversion H; subst.
  repeat apply conj; try reflexivity.
  - constructor; unfold set_total, initial, ZERO;
      cbn [L R total last_non_ff_byte num_ff_bytes first];
      rewrite ?FULL_val; intros; try discriminate; lia.
  - unfold set_total, initial. cbn [R]. rewrite PART_val, FULL_val. lia.
Qed.


End EncoderFacts.

(** ** The decoder: one call *)

Module DecoderFacts.
Import Coder CoderSpec TableFacts EncoderFacts.

Lemma bind_ret {A B} (m : outcome A) (k : A -> outcome B) b :
  bind m k = Ret b -> exists a, m = Ret a /\ k a = Ret b.
Proof. destruct m; cbn; try discriminate. intros H. exists a. split; [reflexivity | exact H]. Qed.

Lemma assert_ret b u : assert b = Ret u -> b = true.
Proof. destruct b; cbn; [reflexivity | discriminate]. Qed.

Lemma index_ret a i x :
  index a i = Ret x -> 0 <= i < Z.of_nat (length a) /\ x = nth (Z.to_nat i) a 0.
Proof.
  unfold index. destruct (Z.leb_spec 0 i), (Z.ltb_spec i (Z.of_nat (length a)));
    cbn; try discriminate.
  intros Hret. inversion Hret. split; [lia | reflexivity].
Qed.

(** The binary search returns the symbol whose range holds [target]. *)
Lemma search_spec freqs target :
  valid_freqs freqs ->
  forall k lo hi,
  Z.to_nat (hi - lo) = k ->
  0 <= lo <= hi -> hi < Z.of_nat (length freqs) ->
  cum freqs (Z.to_nat lo) <= target < cum freqs (S (Z.to_nat hi)) ->
  exists v, search (cumfreqs freqs) target lo hi = Ret v /\ lo <= v <= hi /\
            cum freqs (Z.to_nat v) <= target < cum freqs (S (Z.to_nat v)).
Proof.
  intros Hv k. induction k as [k IH] using lt_wf_ind.
  intros lo hi Hk Hlo Hhi Ht.
  rewrite search_equation_1. destruct (Z_lt_dec lo hi) as [Hlt | Hge]; cbn.
  - assert (Hq : (hi - lo) ÷ 2 = (hi - lo) / 2) by (apply Z.quot_div_nonneg; lia).
    rewrite Hq.
    assert (Hmid : 0 <= (hi - lo) / 2 < hi - lo).
    { split; [apply Z.div_pos; lia | apply Z.div_lt_upper_bound; lia]. }
    rewrite u64_small by (destruct Hv as (_ & ? & _); lia).
    rewrite index_cumfreqs by (try assumption; lia). cbn.
    destruct (Z_le_dec _ target) as [Hle | Hgt]; cbn; rewrite Hq.
    + destruct (IH (Z.to_nat (hi - (lo + (hi - lo) / 2 + 1))) ltac:(lia)
                   (lo + (hi - lo) / 2 + 1) hi eq_refl) as (v & Hs & Hb & Hr);
        try lia.
      { replace (Z.to_nat (lo + (hi - lo) / 2 + 1))
          with (S (Z.to_nat (lo + (hi - lo) / 2))) by lia. lia. }
      exists v. repeat apply conj; try assumption; lia.
    + destruct (IH (Z.to_nat (lo + (hi - lo) / 2 - lo)) ltac:(lia)
                   lo (lo + (hi - lo) / 2) eq_refl) as (v & Hs & Hb & Hr);
        try lia.
      exists v. repeat apply conj; try assumption; lia.
  - exists lo. replace hi with lo in * by lia.
    repeat apply conj; try reflexivity; lia.
Qed.

Lemma cum_unique freqs target v s :
  Forall (fun f => 0 <= f) freqs ->
  cum freqs v <= target < cum freqs (S v) ->
  cum freqs s <= target < cum freqs (S s) ->
  v = s.
Proof.
  intros Hpos Hv Hs.
  destruct (Nat.lt_trichotomy v s) as [Hlt | [Heq | Hgt]]; [|exact Heq|].
  - pose proof (cum_mono freqs (S v) s Hpos ltac:(lia)). lia.
  - pose proof (cum_mono freqs (S s) v Hpos ltac:(lia)). lia.
Qed.

(** *** Refilling the window *)

Lemma fill_spec fuel : forall g rest,
  0 < R g <= FULL -> 0 <= D g < R g -> bytes rest ->
  PART <= R g * 256 ^ Z.of_nat fuel ->
  (shifts fuel (R g) <= length rest)%nat ->
  exists g',
    fill fuel g rest = Ret (g', skipn (shifts fuel (R g)) rest) /\
    R g' = R g * 256 ^ Z.of_nat (shifts fuel (R g)) /\
    D g' = D g * 256 ^ Z.of_nat (shifts fuel (R g))
           + be (firstn (shifts fuel (R g)) rest) /\
    total g' = total g /\ 0 <= D g' < R g' /\ PART <= R g' <= FULL.
Proof.
  induction fuel as [|fuel IH]; intros g rest HR HD Hb Hf Hlen.
  - change (256 ^ Z.of_nat 0) with 1 in Hf.
    assert (Hge : (R g <? PART) = false) by (apply Z.ltb_ge; lia).
    cbn [fill shifts]. rewrite Hge. exists g.
    cbn [skipn firstn]. change (be []) with 0. change (256 ^ Z.of_nat 0) with 1.
    repeat apply conj; try reflexivity; lia.
  - cbn [fill shifts] in *. destruct (Z.ltb_spec (R g) PART) as [Hlt | Hge].
    + destruct rest as [|b rest]; [cbn in Hlen; lia|].
      inversion Hb as [|? ? Hb0 Hb']; subst.
      rewrite FULL_val in HR. rewrite PART_val in Hlt.
      assert (HD1 : D (fst (fill_step g (b :: rest))) = D g * 256 + b).
      { unfold fill_step. cbn [fgetc fst set_D set_R D R].
        rewrite (shiftl8 (D g)), (u64_small (D g * 256)) by lia.
        rewrite land_FULL, Z.mod_small by lia.
        apply u64_small. lia. }
      assert (HR1 : R (fst (fill_step g (b :: rest))) = R g * 256).
      { unfold fill_step. cbn [fgetc fst set_D set_R D R].
        rewrite shiftl8. apply u64_small. lia. }
      assert (Hrest : snd (fill_step g (b :: rest)) = rest) by reflexivity.
      assert (Htot : total (fst (fill_step g (b :: rest))) = total g) by reflexivity.
      destruct (fill_step g (b :: rest)) as [g1 fp1]. cbn [fst snd] in *. subst fp1.
      rewrite Nat2Z.inj_succ, Z.pow_succ_r in Hf by lia.
      assert (A1 : 0 < R g1 <= FULL) by (rewrite HR1, FULL_val; lia).
      assert (A2 : 0 <= D g1 < R g1) by (rewrite HR1, HD1; lia).
      assert (A3 : PART <= R g1 * 256 ^ Z.of_nat fuel) by (rewrite HR1; lia).
      assert (A4 : (shifts fuel (R g1) <= length rest)%nat)
        by (rewrite HR1; cbn [length] in Hlen; lia).
      destruct (IH g1 rest A1 A2 Hb' A3 A4)
        as (g' & Hrun & ER & ED & ET & HD' & HR').
      exists g'. rewrite HR1, HD1 in *. cbn [skipn firstn length] in *.
      rewrite ByteFacts.be_cons, firstn_length_le by lia.
      rewrite ER, ED, Nat2Z.inj_succ, Z.pow_succ_r by lia.
      repeat apply conj; try assumption; try lia; try ring.
    + exists g. cbn [skipn firstn]. change (be []) with 0.
      change (256 ^ Z.of_nat 0) with 1.
      repeat apply conj; try reflexivity; lia.
Qed.

Lemma shifts_le fuel : forall r, (shifts fuel r <= fuel)%nat.
Proof.
  induction fuel as [|n IHn]; intros r; cbn [shifts]; destruct (r <? PART); try lia.
  specialize (IHn (r * 256)). lia.
Qed.

(** *** One call of [arith_decode] *)

Lemma arith_decode_spec freqs s g rest :
  valid_freqs freqs -> Z.of_nat (length freqs) <= 2 ^ 31 ->
  valid_symbol freqs s ->
  PART <= R g <= FULL -> total g = sum freqs ->
  let low := cum freqs (Z.to_nat s) in
  let scale := R g / total g in
  let rn := narrowed (R g) (total g) low (cum freqs (S (Z.to_nat s))) in
  let j := shifts renorm_fuel rn in
  low * scale <= D g < low * scale + rn ->
  bytes rest -> (j <= length rest)%nat ->
  exists g',
    arith_decode (cumfreqs freqs) (Z.of_nat (length freqs)) g rest
      = Ret (s, g', skipn j rest) /\
    R g' = rn * 256 ^ Z.of_nat j /\
    D g' = (D g - low * scale) * 256 ^ Z.of_nat j + be (firstn j rest) /\
    total g' = total g /\ PART <= R g' <= FULL.
Proof.
  intros Hv Hlen Hs HR Htot. cbv zeta.
  set (low := cum freqs (Z.to_nat s)).
  set (high := cum freqs (S (Z.to_nat s))).
  set (scale := R g / total g).
  set (rn := narrowed (R g) (total g) low high).
  set (j := shifts renorm_fuel rn).
  intros HD Hb Hj.
  destruct (valid_symbol_range freqs s Hv Hs) as (Hrange & Hlow & Hhigh).
  fold low high in Hrange, Hlow, Hhigh.
  pose proof (total_positive freqs s Hv Hs) as Ht. rewrite <- Htot in Ht, Hhigh.
  destruct (narrowed_bounds (R g) (total g) low high HR Ht Hlow Hhigh)
    as (Hq & Hls & Hn1 & Hn2).
  fold scale rn in Hq, Hls, Hn1, Hn2.
  pose proof Hv as (Hne & Hlen64 & Hpos & Hsum).
  destruct Hs as [Hs1 Hs2].
  rewrite PART_val, FULL_val, MINR_val in *.
  (* the target lies in the range of [s] *)
  set (target := if total g <=? D g / scale then u64 (total g - 1) else D g / scale).
  assert (Htarget : low <= target < high).
  { unfold target. unfold rn, narrowed in HD, Hn2. fold scale in HD, Hn2.
    assert (Hdl : low <= D g / scale) by (apply Z.div_le_lower_bound; lia).
    destruct (Z.leb_spec (total g) (D g / scale)) as [Hbig | Hsmall].
    - rewrite u64_small by lia.
      destruct (Z.ltb_spec high (total g)) as [Hh | Hh]; [|lia].
      assert (D g / scale < high) by (apply Z.div_lt_upper_bound; lia). lia.
    - destruct (Z.ltb_spec high (total g)) as [Hh | Hh]; [|lia].
      assert (D g / scale < high) by (apply Z.div_lt_upper_bound; lia). lia. }
  destruct (search_spec freqs target Hv _ 0 (Z.of_nat (length freqs) - 1) eq_refl)
    as (v & Hsearch & Hvb & Hvr); try lia.
  { replace (S (Z.to_nat (Z.of_nat (length freqs) - 1))) with (length freqs) by lia.
    rewrite cum_all. change (cum freqs (Z.to_nat 0)) with 0.
    pose proof (cum_le_total freqs (Z.to_nat s) Hpos). fold low in H. lia. }
  assert (Ev : v = s).
  { assert (Z.to_nat v = Z.to_nat s); [|lia].
    apply (cum_unique freqs target); assumption. }
  subst v.
  unfold arith_decode.
  unfold udiv at 1. replace (total g =? 0) with false by (symmetry; apply Z.eqb_neq; lia).
  cbn [bind]. fold scale.
  replace (0 <? scale) with true by (symmetry; apply Z.ltb_lt; lia). cbn [assert bind].
  unfold udiv. replace (scale =? 0) with false by (symmetry; apply Z.eqb_neq; lia).
  cbn [bind]. fold target.
  rewrite (u64_small (Z.of_nat (length freqs) - 1)) by lia.
  replace (to_int (Z.of_nat (length freqs) - 1)) with (Z.of_nat (length freqs) - 1)
    by (unfold to_int; rewrite Z.mod_small; lia).
  rewrite Hsearch. cbn [bind]. rewrite (u64_small s) by lia.
  assert (Hprev : (if s =? 0 then Ret 0 else index (cumfreqs freqs) (u64 (s - 1)))
                  = Ret low).
  { unfold symbol_range in Hrange.
    destruct (if s =? 0 then Ret 0 else index (cumfreqs freqs) (u64 (s - 1)));
      cbn in Hrange; try discriminate.
    destruct (index (cumfreqs freqs) s); cbn in Hrange; try discriminate.
    inversion Hrange. reflexivity. }
  rewrite Hprev. cbn [bind].
  replace ((s =? 0) || (low <=? target)) with true
    by (symmetry; apply orb_true_iff; right; apply Z.leb_le; lia).
  cbn [assert bind].
  replace (s <? Z.of_nat (length freqs)) with true by (symmetry; apply Z.ltb_lt; lia).
  cbn [assert bind].
  rewrite index_cumfreqs by (try assumption; lia). cbn [bind]. fold high.
  replace (target <? high) with true by (symmetry; apply Z.ltb_lt; lia).
  cbn [assert bind]. rewrite Hrange. cbn [bind].
  rewrite (u64_small (low * scale)) by lia.
  rewrite (u64_small (D g - low * scale)) by lia.
  replace (narrow (set_D g (D g - low * scale)) low high scale) with rn
    by (symmetry; apply (narrow_eq (set_D g (D g - low * scale)));
        cbn [set_D R total]; rewrite ?PART_val, ?FULL_val, ?MINR_val; lia).
  cbn [set_D set_R D R].
  replace (D g - low * scale <=? rn) with true by (symmetry; apply Z.leb_le; lia).
  cbn [assert bind].
  destruct (fill_spec renorm_fuel (set_R (set_D g (D g - low * scale)) rn) rest)
    as (g' & Hrun & ER & ED & ET & HD' & HR');
    cbn [set_D set_R D R]; rewrite ?FULL_val, ?PART_val; try assumption; try lia.
  { change (256 ^ Z.of_nat renorm_fuel) with (2 ^ 48). lia. }
  cbn [set_D set_R D R total] in *. fold j in Hrun, ER, ED.
  rewrite Hrun. cbn [bind].
  replace (D g' <=? R g') with true by (symmetry; apply Z.leb_le; lia).
  cbn [assert bind].
  rewrite PART_val, FULL_val in HR'.
  exists g'. repeat apply conj; try assumption; try reflexivity; lia.
Qed.

End DecoderFacts.

(** ** Whole runs: the decoder follows the encoder *)

Module RoundTrip.
Import Coder CoderSpec TableFacts ByteFacts EncoderFacts DecoderFacts.

(** *** Closing the encoder *)

Lemma put_L_spec k : forall g fp,
  0 <= L g ->
  exists w, snd (put_L k g fp) = fp ++ w /\ length w = k /\ bytes w /\
            be w = L g mod 256 ^ Z.of_nat k.
Proof.
  induction k as [|k IH]; intros g fp HL.
  - exists []. cbn. rewrite app_nil_r, Z.mod_1_r. repeat split. constructor.
  - cbn [put_L put].
    destruct (IH (set_bytes_out g (u64 (bytes_out g + 1)))
                 (fp ++ [Z.land (Z.shiftr (L g) (8 * Z.of_nat k)) FULLBYTE]) HL)
      as (w & Hw & Hlen & Hb & Hbe).
    cbn [L set_bytes_out] in Hbe.
    exists (Z.land (Z.shiftr (L g) (8 * Z.of_nat k)) FULLBYTE :: w).
    rewrite Hw, <- app_assoc. cbn [app length].
    rewrite land_FULLBYTE, Z.shiftr_div_pow2 by lia.
    replace (2 ^ (8 * Z.of_nat k)) with (256 ^ Z.of_nat k)
      by (change 256 with (2 ^ 8); rewrite <- Z.pow_mul_r by lia; reflexivity).
    pose proof (pow256_pos k) as Hp.
    repeat apply conj.
    + reflexivity.
    + lia.
    + constructor; [apply Z.mod_pos_bound; lia | exact Hb].
    + rewrite be_cons, Hbe, Hlen, Nat2Z.inj_succ, Z.pow_succ_r by lia.
      rewrite (Z.mul_comm 256), Z.rem_mul_r by lia. ring.
Qed.

Lemma encoder_close_spec g fp :
  enc_inv g ->
  exists w, snd (encoder_close g fp) = pending g fp ++ w /\ length w = 7%nat /\
            bytes w /\ be w = L g.
Proof.
  intros [[_ HL _ Hnff _ _] _]. unfold encoder_close.
  set (r1 := if negb (first g) then put (last_non_ff_byte g) g fp else (g, fp)).
  assert (H1 : snd r1 = fp ++ (if first g then [] else [last_non_ff_byte g]) /\
               L (fst r1) = L g /\ num_ff_bytes (fst r1) = num_ff_bytes g).
  { unfold r1. destruct (first g); cbn; rewrite ?app_nil_r; repeat split. }
  destruct r1 as [g1 fp1]. cbn [fst snd] in H1. destruct H1 as (E1 & E2 & E3).
  pose proof (ff_flush_spec (Z.to_nat (num_ff_bytes g1)) g1 fp1) as H2.
  cbv zeta in H2. destruct (ff_flush _ g1 fp1) as [g2 fp2]. cbn [fst snd] in H2.
  destruct H2 as (F1 & F2 & _).
  destruct (put_L_spec (Z.to_nat BBYTES) g2 fp2 ltac:(lia)) as (w & Hw & Hlen & Hb & Hbe).
  exists w. rewrite Hw, F1, E1, E3. unfold pending, held.
  rewrite <- !app_assoc. repeat apply conj; try assumption; try reflexivity.
  rewrite Hbe, F2, E2. apply Z.mod_small. rewrite FULL_val in HL.
  change (256 ^ Z.of_nat (Z.to_nat BBYTES)) with (2 ^ 56). lia.
Qed.

(** *** Prefixes of a byte string *)

Lemma be_prefix l k :
  bytes l -> (k <= length l)%nat ->
  be (firstn k l) = be l / 256 ^ Z.of_nat (length l - k).
Proof.
  intros Hb Hk. rewrite <- (firstn_skipn k l) at 2.
  rewrite be_app, length_skipn.
  pose proof (be_bounds (skipn k l) (Forall_skipn _ k l Hb)) as H.
  rewrite length_skipn in H.
  pose proof (pow256_pos (length l - k)).
  apply Z.div_unique with (r := be (skipn k l)); lia.
Qed.

Lemma firstn_add {A} (l : list A) a b :
  firstn (a + b) l = firstn a l ++ firstn b (skipn a l).
Proof.
  revert l. induction a as [|a IH]; intros l; [reflexivity|].
  destruct l as [|x l]; cbn [Nat.add firstn skipn app].
  - rewrite firstn_nil. reflexivity.
  - rewrite IH. reflexivity.
Qed.

(** *** The encoder run *)

Lemma ff_room_cons freqs s xs g fp g1 fp1 :
  ff_room (s :: xs) (cumfreqs freqs) g fp ->
  arith_encode s (cumfreqs freqs) (Z.of_nat (length freqs)) g fp = Ret (g1, fp1) ->
  num_ff_bytes g + 6 < 2 ^ 32 /\ ff_room xs (cumfreqs freqs) g1 fp1.
Proof.
  cbn [ff_room]. rewrite cumfreqs_length. intros [H1 H2] Hrun.
  rewrite Hrun in H2. split; assumption.
Qed.

Lemma encode_all_spec freqs :
  valid_freqs freqs ->
  forall xs g fp,
  Forall (valid_symbol freqs) xs ->
  enc_inv g -> total g = sum freqs ->
  ff_room xs (cumfreqs freqs) g fp -> bytes (pending g fp) ->
  exists g' fp' d,
    encode_all xs (cumfreqs freqs) g fp = Ret (g', fp') /\
    enc_inv g' /\ total g' = total g /\ bytes (pending g' fp') /\
    length (pending g' fp') = (length (pending g fp) + d)%nat /\
    value g fp * 256 ^ Z.of_nat d <= value g' fp' /\
    value g' fp' + R g' <= (value g fp + R g) * 256 ^ Z.of_nat d.
Proof.
  intros Hv. induction xs as [|s xs IH]; intros g fp Hxs Hinv Htot Hroom Hb.
  - exists g, fp, 0%nat. cbn [encode_all]. change (256 ^ Z.of_nat 0) with 1.
    rewrite Nat.add_0_r. pose proof Hinv as [Hi1 Hi2].
    repeat apply conj; try reflexivity; try assumption; lia.
  - inversion Hxs as [|? ? Hs Hxs']; subst.
    destruct (arith_encode_spec freqs s g fp Hv Hs Hinv Htot)
      as (g1 & fp1 & Hrun & Hinv1 & Htot1 & HR1 & Hval).
    destruct (ff_room_cons _ _ _ _ _ _ _ Hroom Hrun) as [Hn Hroom1].
    destruct (Hval Hn) as (V1 & V2 & V3 & V4).
    destruct (IH g1 fp1 Hxs' Hinv1 ltac:(lia) Hroom1 (V4 Hb))
      as (g' & fp' & d & Hrun' & Hinv' & Htot' & Hb' & Hlen' & Hlo & Hhi).
    destruct (valid_symbol_range freqs s Hv Hs) as (_ & Hlow & Hhigh).
    pose proof (total_positive freqs s Hv Hs) as Ht. rewrite <- Htot in Ht, Hhigh.
    destruct Hinv as [Hm Hp]. destruct Hm as [HR _ _ _ _ _].
    destruct (narrowed_bounds (R g) (total g) _ _ ltac:(lia) Ht Hlow Hhigh)
      as (Hq & Hls & Hn1 & Hn2).
    set (j := shifts renorm_fuel
                (narrowed (R g) (total g) (cum freqs (Z.to_nat s))
                          (cum freqs (S (Z.to_nat s))))) in *.
    exists g', fp', (j + d)%nat.
    cbn [encode_all]. rewrite cumfreqs_length, Hrun. cbn [bind].
    rewrite V1, HR1 in *. rewrite pow256_add.
    pose proof (pow256_pos j). pose proof (pow256_pos d).
    pose proof Hinv' as [Hi1 Hi2].
    repeat apply conj; try assumption; try lia; try nia.
Qed.

(** *** The decoder run *)

(** The decoder window is the stream read so far minus the encoder's
    lower bound at the same point of the run. *)
Lemma decode_follows freqs :
  valid_freqs freqs -> Z.of_nat (length freqs) <= 2 ^ 31 ->
  forall xs g fp g' fp' gd,
  Forall (valid_symbol freqs) xs ->
  enc_inv g -> total g = sum freqs ->
  ff_room xs (cumfreqs freqs) g fp -> bytes (pending g fp) ->
  encode_all xs (cumfreqs freqs) g fp = Ret (g', fp') ->
  let stream := snd (encoder_close g' fp') in
  let n := length (pending g fp) in
  R gd = R g -> total gd = total g ->
  D gd = be (firstn (n + 7) stream) - value g fp ->
  exists gd',
    decode_all (length xs) (cumfreqs freqs) gd (skipn (n + 7) stream)
      = Ret (xs, gd', []).
Proof.
  intros Hv Hlen. induction xs as [|s xs IH];
    intros g fp g' fp' gd Hxs Hinv Htot Hroom Hb Hrun stream n HR HT HD.
  - cbn [encode_all] in Hrun. inversion Hrun; subst g' fp'.
    destruct (encoder_close_spec g fp Hinv) as (w & Hw & Hwl & _).
    exists gd. cbn [length decode_all]. unfold stream, n. rewrite Hw.
    rewrite skipn_all2 by (rewrite length_app; lia). reflexivity.
  - inversion Hxs as [|? ? Hs Hxs']; subst.
    destruct (arith_encode_spec freqs s g fp Hv Hs Hinv Htot)
      as (g1 & fp1 & Hrun1 & Hinv1 & Htot1 & HR1 & Hval).
    destruct (ff_room_cons _ _ _ _ _ _ _ Hroom Hrun1) as [Hn Hroom1].
    destruct (Hval Hn) as (V1 & V2 & V3 & V4). clear Hval.
    cbn [encode_all] in Hrun. rewrite cumfreqs_length, Hrun1 in Hrun. cbn [bind] in Hrun.
    destruct (encode_all_spec freqs Hv xs g1 fp1 Hxs' Hinv1 ltac:(lia) Hroom1 (V4 Hb))
      as (g2 & fp2 & d & Hrun2 & Hinv2 & Htot2 & Hb2 & Hlen2 & Hlo & Hhi).
    rewrite Hrun in Hrun2. inversion Hrun2; subst g2 fp2. clear Hrun2.
    destruct (encoder_close_spec g' fp' Hinv2) as (w & Hw & Hwl & Hwb & Hwv).
    fold stream in Hw.
    set (low := cum freqs (Z.to_nat s)) in *.
    set (high := cum freqs (S (Z.to_nat s))) in *.
    set (rn := narrowed (R g) (total g) low high) in *.
    set (j := shifts renorm_fuel rn) in *.
    set (n1 := length (pending g1 fp1)) in *.
    assert (Hstream_b : bytes stream)
      by (rewrite Hw; apply bytes_app; split; assumption).
    assert (Hstream_l : length stream = (n1 + d + 7)%nat)
      by (rewrite Hw, length_app; lia).
    assert (Hstream_v : be stream = value g' fp').
    { rewrite Hw, be_app, Hwl, Hwv. reflexivity. }
    (* the stream read up to the end of this call *)
    set (t1 := be (firstn (n1 + 7) stream)).
    assert (Ht1 : value g1 fp1 <= t1 < value g1 fp1 + R g1).
    { unfold t1. rewrite be_prefix by (try assumption; lia).
      replace (length stream - (n1 + 7))%nat with d by lia.
      rewrite Hstream_v. pose proof (pow256_pos d).
      destruct Hinv2 as [[HR2 _ _ _ _ _] _].
      split; [apply Z.div_le_lower_bound | apply Z.div_lt_upper_bound]; lia. }
    assert (Hsplit : firstn (n1 + 7) stream
                     = firstn (n + 7) stream ++ firstn j (skipn (n + 7) stream)).
    { replace (n1 + 7)%nat with ((n + 7) + j)%nat by lia. apply firstn_add. }
    assert (Hjl : length (firstn j (skipn (n + 7) stream)) = j)
      by (apply firstn_length_le; rewrite length_skipn; lia).
    assert (Et1 : t1 = be (firstn (n + 7) stream) * 256 ^ Z.of_nat j
                       + be (firstn j (skipn (n + 7) stream))).
    { unfold t1. rewrite Hsplit, be_app, Hjl. reflexivity. }
    assert (Hjb : 0 <= be (firstn j (skipn (n + 7) stream)) < 256 ^ Z.of_nat j).
    { pose proof (be_bounds (firstn j (skipn (n + 7) stream))) as Hbb.
      rewrite Hjl in Hbb. apply Hbb. apply Forall_firstn, Forall_skipn.
      exact Hstream_b. }
    destruct (valid_symbol_range freqs s Hv Hs) as (_ & Hlow & Hhigh).
    pose proof (total_positive freqs s Hv Hs) as Ht. rewrite <- Htot in Ht, Hhigh.
    pose proof Hinv as [[HRg _ _ _ _ _] Hpg].
    destruct (narrowed_bounds (R g) (total g) _ _ ltac:(lia) Ht Hlow Hhigh)
      as (Hq & Hls & Hn1 & Hn2).
    fold low high rn in Hlow, Hhigh, Hq, Hls, Hn1, Hn2.
    pose proof (pow256_pos j) as Hpj.
    destruct (arith_decode_spec freqs s gd (skipn (n + 7) stream) Hv Hlen Hs)
      as (gd1 & Hdec & HRd & HDd & HTd & _);
      rewrite ?HR, ?HT; fold low high rn j; try assumption; try lia.
    { rewrite HD. rewrite V1, HR1 in Ht1. nia. }
    { apply Forall_skipn. exact Hstream_b. }
    { rewrite length_skipn. lia. }
    rewrite HR, HT in *. fold low high rn j in Hdec, HRd, HDd.
    destruct (IH g1 fp1 g' fp' gd1 Hxs' Hinv1 ltac:(lia) Hroom1 (V4 Hb) Hrun)
      as (gd' & Hrest); try lia.
    { fold stream n1 t1. rewrite HDd, HD, Et1, V1. ring. }
    exists gd'. cbn [length decode_all]. rewrite cumfreqs_length, Hdec. cbn [bind].
    fold stream n1 in Hrest. rewrite skipn_skipn.
    replace (j + (n + 7))%nat with (n1 + 7)%nat by lia.
    rewrite Hrest. reflexivity.
Qed.

(** Whatever bytes follow the encoder's stream, the decoder takes the
    bytes of the stream and none of those that follow. *)
Lemma decode_follows_app freqs :
  valid_freqs freqs -> Z.of_nat (length freqs) <= 2 ^ 31 ->
  forall xs g fp g' fp' gd,
  Forall (valid_symbol freqs) xs ->
  enc_inv g -> total g = sum freqs ->
  ff_room xs (cumfreqs freqs) g fp -> bytes (pending g fp) ->
  encode_all xs (cumfreqs freqs) g fp = Ret (g', fp') ->
  let stream := snd (encoder_close g' fp') in
  let n := length (pending g fp) in
  R gd = R g -> total gd = total g ->
  D gd = be (firstn (n + 7) stream) - value g fp ->
  forall extra, bytes extra ->
  exists gd',
    decode_all (length xs) (cumfreqs freqs) gd (skipn (n + 7) stream ++ extra)
      = Ret (xs, gd', extra).
Proof.
  intros Hv Hlen. induction xs as [|s xs IH];
    intros g fp g' fp' gd Hxs Hinv Htot Hroom Hb Hrun stream n HR HT HD extra Hextra.
  - cbn [encode_all] in Hrun. inversion Hrun; subst g' fp'.
    destruct (encoder_close_spec g fp Hinv) as (w & Hw & Hwl & _).
    exists gd. cbn [length decode_all]. unfold stream, n. rewrite Hw.
    rewrite skipn_all2 by (rewrite length_app; lia). reflexivity.
  - inversion Hxs as [|? ? Hs Hxs']; subst.
    destruct (arith_encode_spec freqs s g fp Hv Hs Hinv Htot)
      as (g1 & fp1 & Hrun1 & Hinv1 & Htot1 & HR1 & Hval).
    destruct (ff_room_cons _ _ _ _ _ _ _ Hroom Hrun1) as [Hn Hroom1].
    destruct (Hval Hn) as (V1 & V2 & V3 & V4). clear Hval.
    cbn [encode_all] in Hrun. rewrite cumfreqs_length, Hrun1 in Hrun. cbn [bind] in Hrun.
    destruct (encode_all_spec freqs Hv xs g1 fp1 Hxs' Hinv1 ltac:(lia) Hroom1 (V4 Hb))
      as (g2 & fp2 & d & Hrun2 & Hinv2 & Htot2 & Hb2 & Hlen2 & Hlo & Hhi).
    rewrite Hrun in Hrun2. inversion Hrun2; subst g2 fp2. clear Hrun2.
    destruct (encoder_close_spec g' fp' Hinv2) as (w & Hw & Hwl & Hwb & Hwv).
    fold stream in Hw.
    set (low := cum freqs (Z.to_nat s)) in *.
    set (high := cum freqs (S (Z.to_nat s))) in *.
    set (rn := narrowed (R g) (total g) low high) in *.
    set (j := shifts renorm_fuel rn) in *.
    set (n1 := length (pending g1 fp1)) in *.
    assert (Hstream_b : bytes stream)
      by (rewrite Hw; apply bytes_app; split; assumption).
    assert (Hstream_l : length stream = (n1 + d + 7)%nat)
      by (rewrite Hw, length_app; lia).
    assert (Hstream_v : be stream = value g' fp').
    { rewrite Hw, be_app, Hwl, Hwv. reflexivity. }
    (* the stream read up to the end of this call *)
    set (t1 := be (firstn (n1 + 7) stream)).
    assert (Ht1 : value g1 fp1 <= t1 < value g1 fp1 + R g1).
    { unfold t1. rewrite be_prefix by (try assumption; lia).
      replace (length stream - (n1 + 7))%nat with d by lia.
      rewrite Hstream_v. pose proof (pow256_pos d).
      destruct Hinv2 as [[HR2 _ _ _ _ _] _].
      split; [apply Z.div_le_lower_bound | apply Z.div_lt_upper_bound]; lia. }
    assert (Hsplit : firstn (n1 + 7) stream
                     = firstn (n + 7) stream ++ firstn j (skipn (n + 7) stream)).
    { replace (n1 + 7)%nat with ((n + 7) + j)%nat by lia. apply firstn_add. }
    assert (Hjl : length (firstn j (skipn (n + 7) stream)) = j)
      by (apply firstn_length_le; rewrite length_skipn; lia).
    assert (Et1 : t1 = be (firstn (n + 7) stream) * 256 ^ Z.of_nat j
                       + be (firstn j (skipn (n + 7) stream))).
    { unfold t1. rewrite Hsplit, be_app, Hjl. reflexivity. }
    assert (Hjb : 0 <= be (firstn j (skipn (n + 7) stream)) < 256 ^ Z.of_nat j).
    { pose proof (be_bounds (firstn j (skipn (n + 7) stream))) as Hbb.
      rewrite Hjl in Hbb. apply Hbb. apply Forall_firstn, Forall_skipn.
      exact Hstream_b. }
    destruct (valid_symbol_range freqs s Hv Hs) as (_ & Hlow & Hhigh).
    pose proof (total_positive freqs s Hv Hs) as Ht. rewrite <- Htot in Ht, Hhigh.
    pose proof Hinv as [[HRg _ _ _ _ _] Hpg].
    destruct (narrowed_bounds (R g) (total g) _ _ ltac:(lia) Ht Hlow Hhigh)
      as (Hq & Hls & Hn1 & Hn2).
    fold low high rn in Hlow, Hhigh, Hq, Hls, Hn1, Hn2.
    pose proof (pow256_pos j) as Hpj.
    assert (Hjr : (j <= length (skipn (n + 7) stream))%nat)
      by (rewrite length_skipn; lia).
    (* the bytes of this call come before [extra] *)
    assert (Hfirst : firstn j (skipn (n + 7) stream ++ extra)
                     = firstn j (skipn (n + 7) stream)).
    { rewrite firstn_app. replace (j - length (skipn (n + 7) stream))%nat with 0%nat by lia.
      cbn [firstn]. apply app_nil_r. }
    assert (Hskip : skipn j (skipn (n + 7) stream ++ extra)
                    = skipn (n1 + 7) stream ++ extra).
    { rewrite skipn_app. replace (j - length (skipn (n + 7) stream))%nat with 0%nat by lia.
      cbn [skipn]. rewrite skipn_skipn.
      replace (j + (n + 7))%nat with (n1 + 7)%nat by lia. reflexivity. }
    destruct (arith_decode_spec freqs s gd (skipn (n + 7) stream ++ extra) Hv Hlen Hs)
      as (gd1 & Hdec & HRd & HDd & HTd & _);
      rewrite ?HR, ?HT; fold low high rn j; try assumption; try lia.
    { rewrite HD. rewrite V1, HR1 in Ht1. nia. }
    { apply bytes_app. split; [apply Forall_skipn; exact Hstream_b | exact Hextra]. }
    { rewrite length_app. lia. }
    rewrite HR, HT in *. fold low high rn j in Hdec, HRd, HDd.
    rewrite Hfirst in HDd. rewrite Hskip in Hdec.
    destruct (IH g1 fp1 g' fp' gd1 Hxs' Hinv1 ltac:(lia) Hroom1 (V4 Hb) Hrun)
      with (extra := extra) as (gd' & Hrest); try lia; try assumption.
    { fold stream n1 t1. rewrite HDd, HD, Et1, V1. ring. }
    exists gd'. cbn [length decode_all]. rewrite cumfreqs_length, Hdec. cbn [bind].
    fold stream n1 in Hrest. rewrite Hrest. reflexivity.
Qed.


(** *** Starting the decoder *)

Lemma start_loop_spec k : forall g fp,
  bytes fp -> (k <= length fp)%nat ->
  0 <= D g -> (D g + 1) * 256 ^ Z.of_nat k <= 2 ^ 64 ->
  let r := start_loop k g fp in
  snd r = skipn k fp /\
  D (fst r) = D g * 256 ^ Z.of_nat k + be (firstn k fp) /\
  R (fst r) = R g /\ total (fst r) = total g.
Proof.
  induction k as [|k IH]; intros g fp Hb Hk HD Hroom.
  - cbn. repeat split. lia.
  - destruct fp as [|b fp]; [cbn in Hk; lia|].
    inversion Hb as [|? ? Hb0 Hb']; subst.
    rewrite Nat2Z.inj_succ, Z.pow_succ_r in Hroom by lia.
    pose proof (pow256_pos k) as Hp.
    cbn [start_loop fgetc set_D D].
    rewrite shiftl8, (u64_small (D g * 256)), (u64_small (D g * 256 + b)) by nia.
    specialize (IH (set_D (set_D g (D g * 256)) (D g * 256 + b)) fp Hb').
    cbn [set_D D R total length] in IH, Hk.
    destruct IH as (I1 & I2 & I3 & I4); try lia; try nia.
    cbv zeta. rewrite I1, I2, I3, I4. cbn [skipn firstn].
    rewrite be_cons, firstn_length_le, Nat2Z.inj_succ, Z.pow_succ_r by lia.
    repeat split. ring.
Qed.

Lemma decoder_start_spec g fp :
  bytes fp -> (7 <= length fp)%nat ->
  let r := decoder_start g fp in
  snd r = skipn 7 fp /\ D (fst r) = be (firstn 7 fp) /\
  R (fst r) = R g /\ total (fst r) = total g.
Proof.
  intros Hb Hl. unfold decoder_start.
  destruct (start_loop_spec (Z.to_nat BBYTES) (set_D g 0) fp Hb Hl)
    as (H1 & H2 & H3 & H4); cbn [set_D D]; try lia.
  { change (256 ^ Z.of_nat (Z.to_nat BBYTES)) with (2 ^ 56). lia. }
  cbv zeta. rewrite H1, H2, H3, H4. repeat split.
Qed.

(** *** Coder symmetry *)

(** For frequencies with a total of at most [MINR], spread over at most
    [2^31] bins, and symbols of nonzero frequency whose encoding never
    brings the pending run of [0xFF] bytes within a call of the capacity
    of its 32-bit counter, the decoder returns the encoded symbols. *)
Theorem coder_symmetry freqs xs :
  valid_freqs freqs -> Z.of_nat (length freqs) <= 2 ^ 31 ->
  Forall (valid_symbol freqs) xs ->
  ff_room xs (cumfreqs freqs) (set_total initial (sum freqs)) [] ->
  exists stream,
    encode freqs xs = Ret stream /\
    decode freqs (length xs) stream = Ret xs.
Proof.
  intros Hv Hlen Hxs Hroom.
  destruct (setup_inv freqs _ _ Hv (setup_ok freqs Hv)) as (_ & Hinv & Htot & Hp).
  set (g := set_total initial (sum freqs)) in *.
  assert (Hb : bytes (pending g [])) by (rewrite Hp; constructor).
  destruct (encode_all_spec freqs Hv xs g [] Hxs Hinv Htot Hroom Hb)
    as (g' & fp' & d & Hrun & Hinv' & _ & Hb' & Hlen' & _).
  destruct (encoder_close_spec g' fp' Hinv') as (w & Hw & Hwl & Hwb & _).
  exists (snd (encoder_close g' fp')). split.
  - unfold encode. rewrite (setup_ok freqs Hv). cbn [bind]. fold g.
    rewrite Hrun. reflexivity.
  - set (stream := snd (encoder_close g' fp')) in *.
    assert (Hsb : bytes stream) by (rewrite Hw; apply bytes_app; split; assumption).
    assert (Hsl : (7 <= length stream)%nat) by (rewrite Hw, length_app; lia).
    unfold decode. rewrite (setup_ok freqs Hv). cbn [bind]. fold g.
    pose proof (decoder_start_spec g stream Hsb Hsl) as Hstart. cbv zeta in Hstart.
    destruct (decoder_start g stream) as [gd rest]. cbn [fst snd] in Hstart.
    destruct Hstart as (S1 & S2 & S3 & S4). subst rest.
    destruct (decode_follows freqs Hv Hlen xs g [] g' fp' gd Hxs Hinv Htot Hroom Hb Hrun)
      as (gd' & Hdec); try assumption.
    { rewrite Hp. cbn [length Nat.add]. rewrite S2. unfold value. rewrite Hp.
      change (L g) with 0. change (be []) with 0. unfold stream. lia. }
    rewrite Hp in Hdec. cbn [length Nat.add] in Hdec. fold stream in Hdec.
    rewrite Hdec. reflexivity.
Qed.

(** A run of fewer than [2^32 / 6] symbols always leaves room in the
    counter. *)
Lemma ff_room_short freqs :
  valid_freqs freqs ->
  forall xs g fp,
  Forall (valid_symbol freqs) xs ->
  enc_inv g -> total g = sum freqs ->
  num_ff_bytes g + 6 * Z.of_nat (length xs) < 2 ^ 32 ->
  ff_room xs (cumfreqs freqs) g fp.
Proof.
  intros Hv. induction xs as [|s xs IH]; intros g fp Hxs Hinv Htot Hn; [exact I|].
  inversion Hxs as [|? ? Hs Hxs']; subst.
  cbn [length] in Hn. cbn [ff_room]. split; [lia|].
  rewrite cumfreqs_length.
  destruct (arith_encode_spec freqs s g fp Hv Hs Hinv Htot)
    as (g1 & fp1 & Hrun & Hinv1 & Htot1 & _ & Hval).
  rewrite Hrun. destruct Hval as (_ & _ & Hn1 & _); [lia|].
  apply IH; try assumption; lia.
Qed.

Corollary coder_symmetry_short freqs xs :
  valid_freqs freqs -> Z.of_nat (length freqs) <= 2 ^ 31 ->
  Forall (valid_symbol freqs) xs ->
  6 * Z.of_nat (length xs) < 2 ^ 32 ->
  exists stream,
    encode freqs xs = Ret stream /\
    decode freqs (length xs) stream = Ret xs.
Proof.
  intros Hv Hlen Hxs Hshort. apply coder_symmetry; try assumption.
  destruct (setup_inv freqs _ _ Hv (setup_ok freqs Hv)) as (_ & Hinv & Htot & _).
  apply (ff_room_short freqs Hv); assumption.
Qed.

(** *** Exact consumption *)

(** The decoder started on the encoder's stream followed by any bytes
    returns the run and leaves exactly the bytes that follow. *)
Lemma decoder_takes_exactly freqs xs :
  valid_freqs freqs -> Z.of_nat (length freqs) <= 2 ^ 31 ->
  Forall (valid_symbol freqs) xs ->
  ff_room xs (cumfreqs freqs) (set_total initial (sum freqs)) [] ->
  exists stream,
    encode freqs xs = Ret stream /\ bytes stream /\ (7 <= length stream)%nat /\
    forall extra, bytes extra ->
    decode freqs (length xs) (stream ++ extra) = Ret xs /\
    exists gd,
      decode_all (length xs) (cumfreqs freqs)
        (fst (decoder_start (set_total initial (sum freqs)) (stream ++ extra)))
        (snd (decoder_start (set_total initial (sum freqs)) (stream ++ extra)))
      = Ret (xs, gd, extra).
Proof.
  intros Hv Hlen Hxs Hroom.
  destruct (setup_inv freqs _ _ Hv (setup_ok freqs Hv)) as (_ & Hinv & Htot & Hp).
  set (g := set_total initial (sum freqs)) in *.
  assert (Hb : bytes (pending g [])) by (rewrite Hp; constructor).
  destruct (encode_all_spec freqs Hv xs g [] Hxs Hinv Htot Hroom Hb)
    as (g' & fp' & d & Hrun & Hinv' & _ & Hb' & Hlen' & _).
  destruct (encoder_close_spec g' fp' Hinv') as (w & Hw & Hwl & Hwb & _).
  set (stream := snd (encoder_close g' fp')) in *.
  assert (Hsb : bytes stream) by (rewrite Hw; apply bytes_app; split; assumption).
  assert (Hsl : (7 <= length stream)%nat) by (rewrite Hw, length_app; lia).
  exists stream. split; [|split; [exact Hsb | split; [exact Hsl|]]].
  { unfold encode. rewrite (setup_ok freqs Hv). cbn [bind]. fold g.
    rewrite Hrun. reflexivity. }
  intros extra Hextra.
  assert (Hab : bytes (stream ++ extra)) by (apply bytes_app; split; assumption).
  assert (Hal : (7 <= length (stream ++ extra))%nat) by (rewrite length_app; lia).
  pose proof (decoder_start_spec g (stream ++ extra) Hab Hal) as Hstart.
  cbv zeta in Hstart.
  unfold decode. rewrite (setup_ok freqs Hv). cbn [bind]. fold g.
  destruct (decoder_start g (stream ++ extra)) as [gd rest]. cbn [fst snd] in Hstart |- *.
  destruct Hstart as (S1 & S2 & S3 & S4). subst rest.
  assert (Hfirst : firstn 7 (stream ++ extra) = firstn 7 stream).
  { rewrite firstn_app. replace (7 - length stream)%nat with 0%nat by lia.
    cbn [firstn]. apply app_nil_r. }
  assert (Hskip : skipn 7 (stream ++ extra) = skipn 7 stream ++ extra).
  { rewrite skipn_app. replace (7 - length stream)%nat with 0%nat by lia.
    reflexivity. }
  rewrite Hfirst in S2. rewrite Hskip.
  destruct (decode_follows_app freqs Hv Hlen xs g [] g' fp' gd Hxs Hinv Htot Hroom Hb Hrun)
    with (extra := extra) as (gd' & Hdec); try assumption.
  { rewrite Hp. cbn [length Nat.add]. rewrite S2. unfold value. rewrite Hp.
    change (L g) with 0. change (be []) with 0. unfold stream. lia. }
  rewrite Hp in Hdec. cbn [length Nat.add] in Hdec. fold stream in Hdec.
  rewrite Hdec. split; [reflexivity|]. exists gd'. reflexivity.
Qed.

End RoundTrip.

(** ** Every state the coder variables can reach *)

Module ReachFacts.
Import Coder CoderSpec TableFacts EncoderFacts DecoderFacts.

Lemma carry_D g fp : D (fst (carry g fp)) = D g.
Proof.
  unfold carry. destruct (FULL <? L g); [|reflexivity].
  cbv zeta. match goal with |- D (fst (carry_flush ?k ?g0 ?f)) = _ =>
    pose proof (carry_flush_spec k g0 f) as H end.
  cbv zeta in H. destruct H as (_ & _ & _ & _ & _ & _ & _ & H). exact H.
Qed.

Lemma renorm_step_D g fp : D (fst (renorm_step g fp)) = D g.
Proof.
  unfold renorm_step.
  destruct (negb (u8 (Z.shiftr (L g) (BBITS - 8)) =? FULLBYTE)); [|reflexivity].
  set (r1 := if negb (first g) then put (last_non_ff_byte g) g fp else (g, fp)).
  assert (H1 : D (fst r1) = D g) by (unfold r1; destruct (first g); reflexivity).
  destruct r1 as [g1 fp1]. cbn [fst] in H1.
  pose proof (ff_flush_spec (Z.to_nat (num_ff_bytes g1)) g1 fp1) as H2.
  cbv zeta in H2. destruct (ff_flush _ g1 fp1) as [g2 fp2]. cbn [fst snd] in *.
  destruct H2 as (_ & _ & _ & _ & _ & _ & _ & H2). cbn. lia.
Qed.

Lemma renorm_D fuel : forall g fp g' fp',
  renorm fuel g fp = Ret (g', fp') -> D g' = D g.
Proof.
  induction fuel as [|fuel IH]; intros g fp g' fp'; cbn [renorm];
    destruct (R g <? PART).
  - discriminate.
  - intros H. injection H as <- _. reflexivity.
  - pose proof (renorm_step_D g fp) as HD.
    destruct (renorm_step g fp) as [g1 fp1]. cbn [fst] in HD.
    intros H. rewrite (IH _ _ _ _ H). exact HD.
  - intros H. injection H as <- _. reflexivity.
Qed.

Lemma arith_encode_D s c n g fp g' fp' :
  arith_encode s c n g fp = Ret (g', fp') -> D g' = D g.
Proof.
  unfold arith_encode. intros H.
  apply bind_ret in H. destruct H as (_ & _ & H).
  apply bind_ret in H. destruct H as ([low high] & _ & H).
  apply bind_ret in H. destruct H as (scale & _ & H).
  cbv zeta in H.
  match type of H with context [carry ?g0 fp] =>
    pose proof (carry_D g0 fp) as HD; destruct (carry g0 fp) as [g3 fp3] end.
  cbn [fst] in HD. rewrite (renorm_D _ _ _ _ _ H), HD. reflexivity.
Qed.

Lemma carry_R g fp :
  R (fst (carry g fp)) = R g /\ total (fst (carry g fp)) = total g.
Proof.
  unfold carry. destruct (FULL <? L g); [|split; reflexivity].
  cbv zeta. match goal with |- R (fst (carry_flush ?k ?g0 ?f)) = _ /\ _ =>
    pose proof (carry_flush_spec k g0 f) as H end.
  cbv zeta in H. destruct H as (_ & _ & H1 & H2 & _). split; assumption.
Qed.

Lemma renorm_step_R g fp :
  R (fst (renorm_step g fp)) = u64 (Z.shiftl (R g) 8) /\
  total (fst (renorm_step g fp)) = total g.
Proof.
  unfold renorm_step.
  destruct (negb (u8 (Z.shiftr (L g) (BBITS - 8)) =? FULLBYTE)); [|split; reflexivity].
  set (r1 := if negb (first g) then put (last_non_ff_byte g) g fp else (g, fp)).
  assert (H1 : R (fst r1) = R g /\ total (fst r1) = total g)
    by (unfold r1; destruct (first g); split; reflexivity).
  destruct r1 as [g1 fp1]. cbn [fst] in H1.
  pose proof (ff_flush_spec (Z.to_nat (num_ff_bytes g1)) g1 fp1) as H2.
  cbv zeta in H2. destruct (ff_flush _ g1 fp1) as [g2 fp2]. cbn [fst snd] in *.
  destruct H2 as (_ & _ & H2 & H3 & _). cbn. destruct H1 as [H1 H1'].
  rewrite H2, H3, H1, H1'. split; reflexivity.
Qed.

Lemma renorm_R fuel : forall g fp g' fp',
  renorm fuel g fp = Ret (g', fp') ->
  0 < R g <= FULL ->
  PART <= R g' <= FULL /\ total g' = total g.
Proof.
  induction fuel as [|fuel IH]; intros g fp g' fp'; cbn [renorm];
    destruct (Z.ltb_spec (R g) PART) as [Hlt | Hge].
  - discriminate.
  - intros H HR. injection H as <- _. split; [lia | reflexivity].
  - intros H HR.
    destruct (renorm_step_R g fp) as [E1 E2].
    destruct (renorm_step g fp) as [g1 fp1]. cbn [fst] in E1, E2.
    rewrite PART_val in Hlt. rewrite FULL_val in HR.
    rewrite shiftl8, u64_small in E1 by lia.
    destruct (IH _ _ _ _ H) as (I1 & I2); [rewrite E1, FULL_val; lia|].
    split; [exact I1 | lia].
  - intros H HR. injection H as <- _. split; [lia | reflexivity].
Qed.

(** What a returning call of [arith_encode] leaves in [R]. *)
Lemma arith_encode_R freqs s g fp g' fp' :
  valid_freqs freqs -> valid_symbol freqs s ->
  PART <= R g <= FULL -> total g = sum freqs ->
  arith_encode s (cumfreqs freqs) (Z.of_nat (length freqs)) g fp = Ret (g', fp') ->
  PART <= R g' <= FULL /\ total g' = total g.
Proof.
  intros Hv Hs HR Htot Hcall.
  pose proof (total_positive freqs s Hv Hs) as Ht. rewrite <- Htot in Ht.
  destruct (valid_symbol_range freqs s Hv Hs) as (Hrange & Hlow & Hhigh).
  rewrite <- Htot in Hhigh.
  destruct (narrowed_bounds (R g) (total g) _ _ HR Ht Hlow Hhigh)
    as (Hq & Hls & Hn1 & Hn2).
  unfold arith_encode in Hcall.
  apply bind_ret in Hcall. destruct Hcall as (_ & _ & Hcall).
  rewrite Hrange in Hcall. cbn [bind] in Hcall.
  unfold udiv in Hcall.
  destruct (Z.eqb_spec (total g) 0); [lia|]. cbn [bind] in Hcall.
  cbv zeta in Hcall.
  match type of Hcall with context [carry (set_R ?g1 (narrow ?g1' ?l ?h ?sc)) fp] =>
    replace (narrow g1' l h sc)
      with (narrowed (R g) (total g) l h) in Hcall
      by (symmetry; apply (narrow_eq g1'); cbn [set_L R total]; assumption);
    destruct (carry_R (set_R g1 (narrowed (R g) (total g) l h)) fp) as [E1 E2];
    destruct (carry (set_R g1 (narrowed (R g) (total g) l h)) fp) as [g3 fp3] end.
  cbn [fst set_R set_L R total] in E1, E2.
  apply renorm_R in Hcall.
  - rewrite E2 in Hcall. exact Hcall.
  - rewrite E1, FULL_val in *. lia.
Qed.

Lemma fill_step_spec g fp :
  0 < R g < PART ->
  let r := fill_step g fp in
  R (fst r) = R g * 256 /\ total (fst r) = total g /\ 0 <= D (fst r) < 2 ^ 64.
Proof.
  rewrite PART_val. intros HR. unfold fill_step.
  destruct (fgetc fp) as [b fp1]. cbn [fst set_D set_R R D total].
  rewrite shiftl8, (u64_small (R g * 256)) by lia.
  repeat split; apply u64_range.
Qed.

Lemma fill_range fuel : forall g fp g' fp',
  fill fuel g fp = Ret (g', fp') ->
  0 < R g <= FULL -> 0 <= D g < 2 ^ 64 ->
  PART <= R g' <= FULL /\ total g' = total g /\ 0 <= D g' < 2 ^ 64.
Proof.
  induction fuel as [|fuel IH]; intros g fp g' fp'; cbn [fill];
    destruct (Z.ltb_spec (R g) PART) as [Hlt | Hge].
  - discriminate.
  - intros H HR HD. injection H as <- _. repeat split; lia.
  - intros H HR HD.
    pose proof (fill_step_spec g fp ltac:(lia)) as Hs. cbv zeta in Hs.
    destruct (fill_step g fp) as [g1 fp1]. cbn [fst] in Hs.
    destruct Hs as (E1 & E2 & E3).
    rewrite PART_val in Hlt. rewrite FULL_val in HR.
    destruct (IH _ _ _ _ H) as (I1 & I2 & I3); [rewrite E1, FULL_val; lia | lia |].
    split; [exact I1 | split; [lia | exact I3]].
  - intros H HR HD. injection H as <- _. repeat split; lia.
Qed.

(** What a returning call of [arith_decode] leaves in [R] and [D]. *)
Lemma arith_decode_range freqs g fp v g' fp' :
  valid_freqs freqs ->
  PART <= R g <= FULL -> total g = sum freqs -> 0 <= D g < 2 ^ 64 ->
  arith_decode (cumfreqs freqs) (Z.of_nat (length freqs)) g fp = Ret (v, g', fp') ->
  PART <= R g' <= FULL /\ total g' = total g /\ 0 <= D g' < 2 ^ 64.
Proof.
  intros Hv HR Htot HD H. pose proof Hv as (Hne & Hlen & Hpos & Hsum).
  unfold arith_decode in H.
  apply bind_ret in H. destruct H as (scale & Hscale & H).
  apply bind_ret in H. destruct H as (? & Hpos_scale & H).
  apply assert_ret, Z.ltb_lt in Hpos_scale.
  apply bind_ret in H. destruct H as (q & Hq & H).
  cbv zeta in H.
  set (target := if total g <=? q then u64 (total g - 1) else q) in H.
  apply bind_ret in H. destruct H as (lo & _ & H).
  apply bind_ret in H. destruct H as (cprev & Hprev & H).
  apply bind_ret in H. destruct H as (? & Hassert1 & H). apply assert_ret in Hassert1.
  apply bind_ret in H. destruct H as (_ & _ & H).
  apply bind_ret in H. destruct H as (cv & Hcv & H).
  apply bind_ret in H. destruct H as (? & Hassert2 & H).
  apply assert_ret, Z.ltb_lt in Hassert2.
  apply bind_ret in H. destruct H as ([low high] & Hrange & H).
  apply bind_ret in H. destruct H as (_ & _ & H).
  apply bind_ret in H. destruct H as ([g3 fp3] & Hfill & H).
  apply bind_ret in H. destruct H as (_ & _ & H).
  inversion H; subst v g' fp'. clear H.
  (* the total is positive and the quotients are the C ones *)
  unfold udiv in Hscale, Hq.
  destruct (Z.eqb_spec (total g) 0) as [|Hne0]; [discriminate|].
  destruct (Z.eqb_spec scale 0); [discriminate|].
  inversion Hscale; subst scale. inversion Hq; subst q. clear Hscale Hq.
  assert (Ht : 0 < total g <= MINR).
  { pose proof (sum_nonneg freqs Hpos). lia. }
  assert (Htarget : 0 <= target).
  { unfold target. destruct (total g <=? D g / (R g / total g)).
    - apply u64_range.
    - apply Z.div_pos; lia. }
  (* the decoded symbol *)
  apply index_ret in Hcv. destruct Hcv as [Hvr Ecv].
  rewrite cumfreqs_length in Hvr.
  set (v := u64 lo) in *.
  assert (Erange : symbol_range v (cumfreqs freqs)
                   = Ret (cum freqs (Z.to_nat v), cum freqs (S (Z.to_nat v)))).
  { unfold symbol_range. destruct (Z.eqb_spec v 0) as [E0 | E0].
    - rewrite E0. rewrite index_cumfreqs by (try assumption; lia). reflexivity.
    - rewrite u64_small by lia. rewrite !index_cumfreqs by (try assumption; lia).
      replace (S (Z.to_nat (v - 1))) with (Z.to_nat v) by lia. reflexivity. }
  rewrite Erange in Hrange. inversion Hrange; subst low high. clear Hrange.
  rewrite cumfreqs_nth in Ecv by (try assumption; pose proof MINR_lt; lia).
  subst cv.
  assert (Hlow : 0 <= cum freqs (Z.to_nat v) < cum freqs (S (Z.to_nat v))).
  { pose proof (cum_le_total freqs (Z.to_nat v) Hpos).
    destruct (Z.eqb_spec v 0) as [E0 | E0].
    - rewrite E0 in *. change (cum freqs (Z.to_nat 0)) with 0. lia.
    - cbn [orb] in Hassert1. apply Z.leb_le in Hassert1.
      rewrite u64_small in Hprev by lia.
      rewrite index_cumfreqs in Hprev by (try assumption; lia).
      inversion Hprev; subst cprev.
      replace (S (Z.to_nat (v - 1))) with (Z.to_nat v) in Hassert1 by lia. lia. }
  assert (Hhigh : cum freqs (S (Z.to_nat v)) <= total g).
  { rewrite Htot. apply cum_le_total. exact Hpos. }
  destruct (narrowed_bounds (R g) (total g) _ _ HR Ht Hlow Hhigh)
    as (Hq & Hls & Hn1 & Hn2).
  match type of Hfill with fill _ (set_R ?g1 (narrow ?g1' ?l ?h ?sc)) _ = _ =>
    replace (narrow g1' l h sc)
      with (narrowed (R g) (total g) (cum freqs (Z.to_nat v)) (cum freqs (S (Z.to_nat v))))
      in Hfill
      by (symmetry; apply (narrow_eq g1'); cbn [set_D R total]; assumption) end.
  apply fill_range in Hfill; cbn [set_R set_D R D total] in *.
  - exact Hfill.
  - rewrite FULL_val in *. lia.
  - apply u64_range.
Qed.

Lemma start_loop_range k : forall g fp,
  0 <= D g < 2 ^ 64 ->
  let r := start_loop k g fp in
  R (fst r) = R g /\ total (fst r) = total g /\ 0 <= D (fst r) < 2 ^ 64.
Proof.
  induction k as [|k IH]; intros g fp HD; cbn [start_loop].
  - cbn. repeat split; lia.
  - destruct (fgetc fp) as [b fp1].
    specialize (IH (set_D (set_D g (u64 (Z.shiftl (D g) 8)))
                      (u64 (D (set_D g (u64 (Z.shiftl (D g) 8))) + b))) fp1).
    cbn [set_D D R total] in IH. apply IH. apply u64_range.
Qed.

Lemma reachable_inv freqs g :
  valid_freqs freqs -> reachable freqs g ->
  PART <= R g <= FULL /\ total g = sum freqs /\ 0 <= D g < 2 ^ 64.
Proof.
  intros Hv. induction 1 as [c g Hsetup | g s fp g' fp' _ IH Hs Hcall
                            | g fp _ IH | g fp v g' fp' _ IH Hcall].
  - rewrite (setup_ok freqs Hv) in Hsetup. injection Hsetup as _ <-.
    unfold set_total, initial. cbn [R total D]. rewrite PART_val, FULL_val. lia.
  - destruct IH as (HR & Htot & HD).
    pose proof (total_positive freqs s Hv Hs) as Ht. rewrite <- Htot in Ht.
    pose proof (arith_encode_D _ _ _ _ _ _ _ Hcall) as ED.
    destruct (arith_encode_R freqs s g fp g' fp' Hv Hs HR Htot Hcall) as [H1 H2].
    repeat split; lia.
  - destruct IH as (HR & Htot & HD). unfold decoder_start.
    pose proof (start_loop_range (Z.to_nat BBYTES) (set_D g 0) fp) as H.
    cbn [set_D D R total] in H. destruct H as (H1 & H2 & H3); [lia|].
    rewrite H1, H2. repeat split; try lia.
  - destruct IH as (HR & Htot & HD).
    destruct (arith_decode_range freqs g fp v g' fp' Hv HR Htot HD Hcall)
      as (H1 & H2 & H3).
    repeat split; lia.
Qed.

End ReachFacts.

(** ** A run of [2^32] pending [0xFF] bytes *)

Module Overflow.
Import Coder CoderSpec.

Lemma eight_symbols :
  encode_all (repeat 1 8) (cumfreqs ff_freqs) (set_total initial 256) [] = Ret (g8, fp8).
Proof. vm_compute. reflexivity. Qed.

Lemma one_more k fp :
  arith_encode 1 (cumfreqs ff_freqs) 2 (set_num_ff g8 k) fp
  = Ret (set_num_ff g8 (u32 (k + 1)), fp).
Proof. reflexivity. Qed.

Lemma many_more n : forall k fp,
  0 <= k -> k + Z.of_nat n <= 2 ^ 32 ->
  encode_all (repeat 1 n) (cumfreqs ff_freqs) (set_num_ff g8 (u32 k)) fp
  = Ret (set_num_ff g8 (u32 (k + Z.of_nat n)), fp).
Proof.
  induction n as [|n IH]; intros k fp Hk Hn.
  - cbn [repeat encode_all]. rewrite Z.add_0_r. reflexivity.
  - cbn [repeat encode_all]. rewrite (u32_small k) by lia.
    change (Z.of_nat (length (cumfreqs ff_freqs))) with 2.
    rewrite one_more. cbn [bind]. rewrite IH by lia.
    replace (k + Z.of_nat (S n)) with (k + 1 + Z.of_nat n) by lia. reflexivity.
Qed.

Lemma encode_all_app xs ys c : forall g fp,
  encode_all (xs ++ ys) c g fp
  = ('(g1, fp1) <- encode_all xs c g fp ;; encode_all ys c g1 fp1).
Proof.
  induction xs as [|x xs IH]; intros g fp; cbn [app encode_all bind]; [reflexivity|].
  destruct (arith_encode x c _ g fp) as [[g1 fp1]| | | |]; cbn [bind]; try reflexivity.
  apply IH.
Qed.

Lemma decode_all_abort a : forall b c g fp,
  decode_all a c g fp = AssertFailure ->
  decode_all (a + b) c g fp = AssertFailure.
Proof.
  induction a as [|a IH]; intros b c g fp H; cbn [decode_all] in *; [discriminate|].
  cbn [Nat.add decode_all].
  destruct (arith_decode c _ g fp) as [[[v g1] fp1]| | | |]; cbn [bind] in *;
    try discriminate; try reflexivity.
  destruct (decode_all a c g1 fp1) as [[[vs g2] fp2]| | | |] eqn:E; cbn [bind] in *;
    try discriminate.
  rewrite (IH b c g1 fp1 E). reflexivity.
Qed.

Lemma overflow_encode N :
  Z.of_nat N = 2 ^ 32 ->
  encode ff_freqs (repeat 1 8 ++ repeat 1 N) = Ret short_stream.
Proof.
  intros HN. unfold encode.
  change (setup ff_freqs) with (Ret (cumfreqs ff_freqs, set_total initial 256)).
  cbn [bind]. rewrite encode_all_app, eight_symbols. cbn [bind].
  change g8 with (set_num_ff g8 (u32 0)) at 1.
  rewrite many_more by lia. cbn [bind]. rewrite HN. reflexivity.
Qed.

Lemma overflow_decode N :
  (1 <= N)%nat ->
  decode ff_freqs (length (repeat 1 8 ++ repeat 1 N)) short_stream = AssertFailure.
Proof.
  intros HN. rewrite length_app, !repeat_length.
  replace (8 + N)%nat with (9 + (N - 1))%nat by lia.
  unfold decode.
  change (setup ff_freqs) with (Ret (cumfreqs ff_freqs, set_total initial 256)).
  cbn [bind].
  destruct (decoder_start (set_total initial 256) short_stream) as [gd rest] eqn:E.
  rewrite (decode_all_abort 9 (N - 1) (cumfreqs ff_freqs) gd rest); [reflexivity|].
  vm_compute in E. inversion E; subst gd rest. vm_compute. reflexivity.
Qed.

Lemma long_run_valid :
  valid_freqs ff_freqs /\ Forall (valid_symbol ff_freqs) long_run.
Proof.
  split.
  - unfold valid_freqs, ff_freqs. repeat split.
    + discriminate.
    + repeat constructor; discriminate.
    + discriminate.
  - unfold long_run. apply Forall_app. split; apply Forall_forall; intros x Hx;
      apply repeat_spec in Hx; subst x; (split; [cbn; lia | reflexivity]).
Qed.

End Overflow.

(** ** The order of floating-point values *)

Module FloatOrder.
Import ToolSpec.

Ltac cmp_cases :=
  repeat match goal with
  | H : context [Z.compare ?a ?b] |- _ => destruct (Z.compare_spec a b)
  | |- context [Z.compare ?a ?b] => destruct (Z.compare_spec a b)
  | H : context [Pos.compare ?a ?b] |- _ => destruct (Pos.compare_spec a b)
  | |- context [Pos.compare ?a ?b] => destruct (Pos.compare_spec a b)
  end.

Ltac sf_cases x := destruct x as [[|]|[|]| |[|] ? ?].

Ltac sf_order :=
  cmp_cases; cbn [CompOpp] in *; subst;
  try discriminate; try reflexivity; try lia.

Lemma SFleb_trans x y z :
  SFleb x y = true -> SFleb y z = true -> SFleb x z = true.
Proof.
  unfold SFleb, SFcompare. change (Pos.compare_cont Eq) with Pos.compare.
  sf_cases x; sf_cases y; sf_cases z; cbn [CompOpp];
    try discriminate; try reflexivity; intros H1 H2; sf_order.
Qed.

Lemma SFleb_ltb_trans x y z :
  SFleb x y = true -> SFltb y z = true -> SFltb x z = true.
Proof.
  unfold SFleb, SFltb, SFcompare. change (Pos.compare_cont Eq) with Pos.compare.
  sf_cases x; sf_cases y; sf_cases z; cbn [CompOpp];
    try discriminate; try reflexivity; intros H1 H2; sf_order.
Qed.

Lemma SFleb_total x y :
  SFleb x x = true -> SFleb y y = true -> SFleb x y = false -> SFltb y x = true.
Proof.
  unfold SFleb, SFltb, SFcompare. change (Pos.compare_cont Eq) with Pos.compare.
  sf_cases x; sf_cases y; cbn [CompOpp];
    try discriminate; try reflexivity; intros H1 H2 H3; sf_order.
Qed.

Lemma SFleb_ordered x y :
  SFleb x y = true -> SFleb x x = true /\ SFleb y y = true.
Proof.
  unfold SFleb, SFcompare. change (Pos.compare_cont Eq) with Pos.compare.
  sf_cases x; sf_cases y; cbn [CompOpp];
    try discriminate; intros H1; split; try reflexivity;
    rewrite ?Z.compare_refl, ?Pos.compare_refl; reflexivity.
Qed.

Lemma SFltb_not_leb x y : SFltb x y = true -> SFleb y x = false.
Proof.
  unfold SFleb, SFltb, SFcompare. change (Pos.compare_cont Eq) with Pos.compare.
  sf_cases x; sf_cases y; cbn [CompOpp];
    try discriminate; try reflexivity; intros H1; sf_order.
Qed.

(** The same on the primitive numbers. *)

Lemma fle_trans a b c : fle a b -> fle b c -> fle a c.
Proof. unfold fle. rewrite !FloatAxioms.leb_spec. apply SFleb_trans. Qed.

Lemma fle_flt_trans a b c : fle a b -> flt b c -> flt a c.
Proof. unfold fle, flt. rewrite FloatAxioms.leb_spec, !FloatAxioms.ltb_spec. apply SFleb_ltb_trans. Qed.

Lemma fle_ordered a b : fle a b -> fle a a /\ fle b b.
Proof. unfold fle. rewrite !FloatAxioms.leb_spec. apply SFleb_ordered. Qed.

Lemma not_fle_flt a b : fle a a -> fle b b -> (a <=? b)%float = false -> flt b a.
Proof. unfold fle, flt. rewrite !FloatAxioms.leb_spec, FloatAxioms.ltb_spec. apply SFleb_total. Qed.

Lemma flt_not_fle a b : flt a b -> ~ fle b a.
Proof.
  unfold fle, flt. rewrite FloatAxioms.leb_spec, FloatAxioms.ltb_spec. intros H.
  rewrite (SFltb_not_leb _ _ H). discriminate.
Qed.

(** A non-decreasing array is ordered between any two positions. *)
Lemma nondecreasing_le U i j :
  nondecreasing U -> (i < j)%nat -> (j < length U)%nat -> fle (at_ U i) (at_ U j).
Proof.
  intros Hs Hij Hj. induction j as [|j IH]; [lia|].
  destruct (Nat.eq_dec i j) as [-> | Hne].
  - apply Hs. exact Hj.
  - apply fle_trans with (at_ U j).
    + apply IH; lia.
    + apply Hs. exact Hj.
Qed.

End FloatOrder.

(** ** The float-to-bin search *)

Module SearchFacts.
Import ToolSpec FloatOrder.

Lemma findex_at U i :
  0 <= i < Z.of_nat (length U) -> findex U i = Ret (at_ U (Z.to_nat i)).
Proof.
  intros Hi. unfold findex.
  replace ((0 <=? i) && (i <? Z.of_nat (length U))) with true
    by (symmetry; apply andb_true_iff; split; [apply Z.leb_le | apply Z.ltb_lt]; lia).
  unfold at_. f_equal. apply nth_indep. lia.
Qed.

(** The loop keeps [U[lo-1] < f <= U[hi]] and ends with [lo = hi]. *)
Lemma bin_search_spec U f :
  (forall j, (j < length U)%nat -> fle (at_ U j) (at_ U j)) ->
  nondecreasing U -> fle f f ->
  forall k lo hi,
  Z.to_nat (hi - lo) = k ->
  0 <= lo <= hi -> hi < Z.of_nat (length U) ->
  (forall j, (j < Z.to_nat lo)%nat -> flt (at_ U j) f) ->
  fle f (at_ U (Z.to_nat hi)) ->
  exists r, Encoder.bin_search U f lo hi = Ret r /\ lo <= r <= hi /\
            (forall j, (j < Z.to_nat r)%nat -> flt (at_ U j) f) /\
            fle f (at_ U (Z.to_nat r)).
Proof.
  intros Hord Hs Hf k. induction k as [k IH] using lt_wf_ind.
  intros lo hi Hk Hlo Hhi Hbelow Habove.
  rewrite Encoder.bin_search_equation_1.
  destruct (Z_lt_dec lo hi) as [Hlt | Hge]; cbn.
  - assert (Hq : (hi - lo) ÷ 2 = (hi - lo) / 2) by (apply Z.quot_div_nonneg; lia).
    rewrite Hq.
    assert (Hmid : 0 <= (hi - lo) / 2 < hi - lo).
    { split; [apply Z.div_pos; lia | apply Z.div_lt_upper_bound; lia]. }
    set (md := lo + (hi - lo) / 2) in *.
    rewrite findex_at by lia. cbn.
    destruct (f <=? at_ U (Z.to_nat md))%float eqn:Ecmp; cbn; rewrite Hq; fold md.
    + destruct (IH (Z.to_nat (md - lo)) ltac:(lia) lo md eq_refl) as (r & Hr & Hb & H1 & H2);
        try lia; try assumption.
      exists r. repeat apply conj; try assumption; lia.
    + assert (Hmd : flt (at_ U (Z.to_nat md)) f).
      { apply not_fle_flt; [exact Hf | apply Hord; lia | exact Ecmp]. }
      destruct (IH (Z.to_nat (hi - (md + 1))) ltac:(lia) (md + 1) hi eq_refl)
        as (r & Hr & Hb & H1 & H2); try lia; try assumption.
      { intros j Hj. destruct (Nat.eq_dec j (Z.to_nat md)) as [-> | Hne]; [exact Hmd|].
        apply fle_flt_trans with (at_ U (Z.to_nat md)); [|exact Hmd].
        apply nondecreasing_le; try assumption; lia. }
      exists r. repeat apply conj; try assumption; lia.
  - exists lo. replace hi with lo in * by lia.
    repeat apply conj; try reflexivity; try assumption; lia.
Qed.

(** The search of an array of at most [2^31] bounds. *)
Lemma find_bin_spec U f :
  Z.of_nat (length U) <= 2 ^ 31 ->
  nondecreasing U ->
  fle f (at_ U (length U - 1)) ->
  exists k,
    Encoder.find_bin U (Z.of_nat (length U)) f = Ret (Z.of_nat k) /\
    (k < length U)%nat /\
    fle f (at_ U k) /\
    (forall j, (j < k)%nat -> flt (at_ U j) f) /\
    (forall j, (j < k)%nat -> ~ fle f (at_ U j)).
Proof.
  intros Hlen Hs Hlast.
  assert (Hn : (0 < length U)%nat).
  { destruct U as [|u U]; [|cbn; lia]. cbn in Hlast.
    unfold fle, at_ in Hlast. cbn in Hlast. rewrite FloatAxioms.leb_spec in Hlast.
    destruct (Prim2SF f); discriminate. }
  destruct (fle_ordered _ _ Hlast) as [Hf Hl].
  assert (Hord : forall j, (j < length U)%nat -> fle (at_ U j) (at_ U j)).
  { intros j Hj. destruct (Nat.eq_dec j (length U - 1)) as [-> | Hne]; [exact Hl|].
    assert (Hle : fle (at_ U j) (at_ U (length U - 1)))
      by (apply nondecreasing_le; try assumption; lia).
    apply (fle_ordered _ _ Hle). }
  destruct (bin_search_spec U f Hord Hs Hf _ 0 (Z.of_nat (length U) - 1) eq_refl)
    as (r & Hr & Hb & H1 & H2); try lia.
  { replace (Z.to_nat (Z.of_nat (length U) - 1)) with (length U - 1)%nat by lia.
    exact Hlast. }
  exists (Z.to_nat r). rewrite Z2Nat.id by lia.
  split; [|repeat apply conj; try assumption; try lia].
  - unfold Encoder.find_bin.
    rewrite (u64_small (Z.of_nat (length U) - 1)) by lia.
    replace (to_int (Z.of_nat (length U) - 1)) with (Z.of_nat (length U) - 1)
      by (unfold to_int; rewrite Z.mod_small; lia).
    rewrite Hr. cbn [bind].
    assert (Hbelow : (if r =? 0 then Ret true
                      else u <- findex U (r - 1) ;; Ret (u <? f)%float) = Ret true).
    { destruct (Z.eqb_spec r 0) as [E | E]; [reflexivity|].
      rewrite findex_at by lia. cbn [bind].
      rewrite (H1 (Z.to_nat (r - 1))) by lia. reflexivity. }
    rewrite Hbelow. cbn [bind assert].
    rewrite findex_at by lia. cbn [bind]. rewrite H2. reflexivity.
  - intros j Hj. apply flt_not_fle. apply H1. exact Hj.
Qed.

(** An array of [2^31 + 1] bounds: [num_bins - 1] does not fit the [int]
    that holds [hi], the loop is not entered, and the second assertion
    fails. *)
Lemma find_bin_huge N :
  (1 <= N)%nat ->
  Encoder.find_bin (repeat zero N ++ [one]) 2147483649 one = AssertFailure.
Proof.
  intros HN. unfold Encoder.find_bin.
  change (to_int (u64 (2147483649 - 1))) with (-2147483648).
  rewrite Encoder.bin_search_equation_1.
  destruct (Z_lt_dec 0 (-2147483648)) as [Hlt | Hge]; [lia|].
  cbn [Encoder.bin_search_unfold_clause_1 bind Z.eqb assert].
  destruct N as [|N]; [lia|].
  unfold findex. cbn [repeat app length nth Z.to_nat].
  replace ((0 <=? 0) && (0 <? Z.of_nat (Datatypes.S (length (repeat zero N ++ [one])))))
    with true
    by (symmetry; apply andb_true_iff; split; [reflexivity | apply Z.ltb_lt; lia]).
  reflexivity.
Qed.

Lemma huge_nondecreasing N : nondecreasing (repeat zero N ++ [one]).
Proof.
  intros i Hi. rewrite length_app, repeat_length in Hi. cbn [length] in Hi.
  unfold at_.
  rewrite (app_nth1 (repeat zero N) [one] nan (n := i))
    by (rewrite repeat_length; lia).
  rewrite nth_repeat_lt by lia.
  destruct (Nat.eq_dec (Datatypes.S i) N) as [E | E].
  - rewrite app_nth2 by (rewrite repeat_length; lia).
    rewrite repeat_length. replace (Datatypes.S i - N)%nat with 0%nat by lia. reflexivity.
  - rewrite app_nth1 by (rewrite repeat_length; lia).
    rewrite nth_repeat_lt by lia. reflexivity.
Qed.

End SearchFacts.

(** ** The header check of the encode tool *)

Module HeaderFacts.
Import ToolSpec.

(** [main] goes past the header check only for an index file of exactly
    one byte. *)
Lemma main_needs_one_byte fb fi out :
  Encoder.main fb fi = Ret out -> length fi = 1%nat.
Proof.
  unfold Encoder.main. intros H.
  apply DecoderFacts.bind_ret in H. destruct H as ([b g] & _ & H).
  unfold Encoder.fread in H. rewrite Nat.div_1_r in H.
  change (Z.to_nat Coder.HEADER) with 45%nat in H.
  destruct (Z.eqb_spec (Z.of_nat (Nat.min 45 (length fi))) 1) as [E | E];
    [lia | discriminate].
Qed.

Lemma main_rejects_header fb fi :
  (45 <= length fi)%nat -> forall out, Encoder.main fb fi <> Ret out.
Proof.
  intros Hlen out H. apply main_needs_one_byte in H. lia.
Qed.

End HeaderFacts.

(** ** The table written by [write_bins] *)

Module WriteFacts.
Import ToolSpec Quantize CoderSpec TableFacts.

Lemma start_S C k :
  (k < length C)%nat -> start C (S k) = start C k + nth k C 0.
Proof. apply cum_S. Qed.

Lemma start_bounds C k :
  Forall (fun f => 0 <= f) C -> 0 <= start C k <= sum C.
Proof. apply cum_le_total. Qed.

Lemma index_nth C i :
  (i < length C)%nat -> index C (Z.of_nat i) = Ret (nth i C 0).
Proof.
  intros Hi. unfold index.
  replace ((0 <=? Z.of_nat i) && (Z.of_nat i <? Z.of_nat (length C))) with true
    by (symmetry; apply andb_true_iff; split; [apply Z.leb_le | apply Z.ltb_lt]; lia).
  rewrite Nat2Z.id. reflexivity.
Qed.

Lemma bin_sum_returns k : forall F j acc,
  0 <= j -> j + Z.of_nat k <= Z.of_nat (length F) -> Z.of_nat (length F) < 2 ^ 64 ->
  exists s, bin_sum k F j acc = Ret s.
Proof.
  induction k as [|k IH]; intros F j acc Hj Hk Hlen; cbn [bin_sum].
  - exists acc. reflexivity.
  - rewrite SearchFacts.findex_at by lia. cbn [bind].
    rewrite u64_small by lia. apply IH; lia.
Qed.

(** The table loop from bin [i] on, when the bins before hold at least
    one value (or there is none before and bin 0 holds one). *)
Lemma write_table_spec C F :
  Forall (fun f => 0 <= f) C -> sum C = Z.of_nat (length F) ->
  Z.of_nat (length F) < 2 ^ 64 -> Forall is_float F ->
  0 < nth 0 C 0 ->
  forall k i fb,
  (i + k = length C)%nat -> length fb = (2 + 2 * i)%nat ->
  exists fb',
    write_table k (Z.of_nat i) (start C i) C F fb = Ret (sum C, fb') /\
    (forall p, (p < length fb)%nat -> nth_error fb' p = nth_error fb p) /\
    (forall j, (i <= j < length C)%nat -> nth j C 0 = 0 ->
       written_bound fb' j = Some (float_datum (at_ F (Z.to_nat (start C j - 1)))) /\
       written_rep fb' j = Some (float_datum (at_ F (Z.to_nat (start C j - 1))))).
Proof.
  intros Hpos Hsum Hlen Hfl H0.
  induction k as [|k IH]; intros i fb Hik Hfb.
  - cbn [write_table]. exists fb.
    replace i with (length C) by lia. unfold start. rewrite firstn_all.
    split; [reflexivity|]. split; [reflexivity|]. intros j Hj. lia.
  - cbn [write_table].
    assert (Hi : (i < length C)%nat) by lia.
    rewrite index_nth by exact Hi. cbn [bind].
    set (ci := nth i C 0).
    assert (Hci : 0 <= ci).
    { unfold ci. rewrite Forall_forall in Hpos. apply Hpos. apply nth_In. exact Hi. }
    pose proof (start_bounds C i Hpos) as Hsi.
    pose proof (start_bounds C (S i) Hpos) as HsS.
    rewrite start_S in HsS by exact Hi. fold ci in HsS.
    assert (Hfirst : 0 < start C i + ci).
    { destruct i as [|i]; [unfold start, ci; cbn; lia|].
      pose proof (cum_mono C 1 (S i) Hpos ltac:(lia)) as Hm.
      unfold cum in Hm. fold (start C (S i)) in Hm.
      assert (sum (firstn 1 C) = nth 0 C 0) by (destruct C; cbn; lia).
      lia. }
    rewrite (u64_small (start C i + ci)) by lia.
    rewrite (u64_small (start C i + ci - 1)) by lia.
    rewrite (SearchFacts.findex_at F (start C i + ci - 1)) by lia.
    set (ub := at_ F (Z.to_nat (start C i + ci - 1))).
    assert (Hrep : exists binrep,
      (if 0 <? ci
       then s <- bin_sum (Z.to_nat ci) F (start C i) zero ;; Ret (s / of_size_t ci)%float
       else Ret ub) = Ret binrep /\ (ci = 0 -> binrep = ub)).
    { destruct (Z.ltb_spec 0 ci) as [Hp | Hz].
      - destruct (bin_sum_returns (Z.to_nat ci) F (start C i) zero) as (s & Hs); try lia.
        rewrite Hs. cbn [bind]. eexists. split; [reflexivity | lia].
      - exists ub. split; [reflexivity | reflexivity]. }
    destruct Hrep as (binrep & Hrep & Hempty). rewrite Hrep. cbn [bind].
    replace (Z.of_nat i + 1) with (Z.of_nat (S i)) by lia.
    replace (start C i + ci) with (start C (S i)) by (rewrite start_S by exact Hi; reflexivity).
    set (fb2 := (fb ++ [float_datum ub]) ++ [float_datum (to_float binrep)]).
    assert (Hfb2 : length fb2 = (2 + 2 * S i)%nat).
    { unfold fb2. rewrite !length_app. cbn [length]. lia. }
    destruct (IH (S i) fb2 ltac:(lia) Hfb2) as (fb' & Hrun & Hpre & Hrows).
    exists fb'. split; [exact Hrun|]. split.
    + intros p Hp. rewrite Hpre by lia. unfold fb2.
      rewrite <- app_assoc. apply nth_error_app1. exact Hp.
    + intros j Hj Hcj. destruct (Nat.eq_dec j i) as [-> | Hne].
      * fold ci in Hcj. specialize (Hempty Hcj). subst binrep.
        assert (Hub : to_float ub = ub).
        { unfold ub. rewrite Forall_forall in Hfl. apply Hfl. apply nth_In. lia. }
        assert (Eub : ub = at_ F (Z.to_nat (start C i - 1))).
        { unfold ub. rewrite Hcj, Z.add_0_r. reflexivity. }
        unfold written_bound, written_rep.
        rewrite !Hpre by lia. unfold fb2. rewrite Hub, <- Eub.
        rewrite <- app_assoc. cbn [app].
        rewrite !nth_error_app2 by lia.
        replace (2 + 2 * i - length fb)%nat with 0%nat by lia.
        replace (2 + 2 * i + 1 - length fb)%nat with 1%nat by lia.
        split; reflexivity.
      * apply Hrows; [lia | exact Hcj].
Qed.

(** With an empty bin 0 the first iteration reads [F[-1]]. *)
Lemma write_table_empty_first C F k fb :
  (0 < length C)%nat -> nth 0 C 0 = 0 -> Z.of_nat (length F) < 2 ^ 64 ->
  write_table (S k) 0 0 C F fb = Undefined.
Proof.
  intros Hn H0 Hlen. cbn [write_table].
  change 0 with (Z.of_nat 0) at 1.
  rewrite (index_nth C 0 Hn), H0. cbn [bind Z.ltb Z.compare Z.of_nat].
  change (u64 (u64 (0 + 0) - 1)) with (2 ^ 64 - 1).
  unfold findex.
  replace ((0 <=? 2 ^ 64 - 1) && (2 ^ 64 - 1 <? Z.of_nat (length F))) with false
    by (symmetry; apply andb_false_iff; right; apply Z.ltb_ge; lia).
  reflexivity.
Qed.

(** An empty bin after bin 0 follows a nonempty one, whose last value
    stands at [start - 1]. *)
Lemma nearest_nonempty C k :
  Forall (fun f => 0 <= f) C -> 0 < nth 0 C 0 -> (0 < k < length C)%nat ->
  exists j, (j < k)%nat /\ 0 < nth j C 0 /\
            (forall m, (j < m < k)%nat -> nth m C 0 = 0) /\
            start C k - 1 = start C j + nth j C 0 - 1.
Proof.
  intros Hpos H0 Hk. induction k as [|k IH]; [lia|].
  destruct (Nat.eq_dec k 0) as [-> | Hk0].
  - exists 0%nat. repeat apply conj; try lia.
    rewrite start_S by lia. reflexivity.
  - destruct (Z_lt_dec 0 (nth k C 0)) as [Hp | Hz].
    + exists k. repeat apply conj; try lia. rewrite start_S by lia. reflexivity.
    + destruct IH as (j & Hj & Hcj & Hgap & Hst); [lia|].
      assert (Hck : nth k C 0 = 0).
      { rewrite Forall_forall in Hpos.
        pose proof (Hpos (nth k C 0) ltac:(apply nth_In; lia)). lia. }
      exists j. repeat apply conj; try lia.
      * intros m Hm. destruct (Nat.eq_dec m k) as [-> | Hne]; [exact Hck | apply Hgap; lia].
      * rewrite start_S by lia. lia.
Qed.

End WriteFacts.

(** ** The Fixed Domain strategy keeps every value *)

Module FixedDomainFacts.
Import Quantize CoderSpec TableFacts.

Lemma store_at l1 x l2 i v :
  i = Z.of_nat (length l1) -> store (l1 ++ x :: l2) i v = Ret (l1 ++ v :: l2).
Proof.
  intros ->. unfold store. rewrite length_app. cbn [length].
  replace ((0 <=? Z.of_nat (length l1))
           && (Z.of_nat (length l1) <? Z.of_nat (length l1 + S (length l2))))
    with true
    by (symmetry; apply andb_true_iff; split; [apply Z.leb_le | apply Z.ltb_lt]; lia).
  rewrite Nat2Z.id.
  rewrite firstn_app, firstn_all, Nat.sub_diag. cbn [firstn]. rewrite app_nil_r.
  replace (S (length l1)) with (length l1 + 1)%nat by lia.
  rewrite skipn_app, skipn_all2 by lia.
  replace (length l1 + 1 - length l1)%nat with 1%nat by lia. reflexivity.
Qed.

Lemma repeat_S_snoc (x : Z) k : repeat x k ++ [x] = repeat x (S k).
Proof. symmetry. apply EncoderFacts.repeat_snoc. Qed.

Lemma wrap_step (x : Z) i X :
  repeat x i ++ x :: X ++ x :: repeat x i = repeat x (S i) ++ X ++ repeat x (S i).
Proof.
  rewrite <- (repeat_S_snoc x i) at 1. rewrite <- app_assoc. reflexivity.
Qed.

Lemma sum_repeat x k : sum (repeat x k) = Z.of_nat k * x.
Proof.
  induction k as [|k IH]; [reflexivity|].
  cbn [repeat sum fold_right]. fold (sum (repeat x k)). rewrite IH. lia.
Qed.

(** The loop overwrites the [k] outer entries on both sides of what is
    left in the middle. *)
Lemma fd_loop_spec step num_bins k : forall i A Mid B sofar,
  length A = k -> length B = k ->
  num_bins = Z.of_nat (2 * i + 2 * k + length Mid) -> (1 <= length Mid)%nat ->
  num_bins < 2 ^ 64 -> 0 <= step ->
  0 <= sofar -> sofar + 2 * step * Z.of_nat k < 2 ^ 64 ->
  fd_loop k (Z.of_nat i) (repeat step i ++ A ++ Mid ++ B ++ repeat step i)
          num_bins step sofar
  = Ret (repeat step (i + k) ++ Mid ++ repeat step (i + k),
         sofar + 2 * step * Z.of_nat k).
Proof.
  induction k as [|k IH]; intros i A Mid B sofar HA HB Hn Hm Hnb Hstep Hso Hroom.
  - destruct A; [|discriminate]. destruct B; [|discriminate].
    cbn [fd_loop app]. rewrite Nat.add_0_r. do 2 f_equal. lia.
  - destruct A as [|a A]; [discriminate|].
    destruct (exists_last (l := B)) as (B' & b & ->); [intros ->; discriminate|].
    rewrite length_app in HB. cbn [length] in HA, HB.
    cbn [fd_loop].
    rewrite (u64_small (num_bins - Z.of_nat i)) by lia.
    rewrite (u64_small (num_bins - Z.of_nat i - 1)) by lia.
    replace (repeat step i ++ (a :: A) ++ Mid ++ (B' ++ [b]) ++ repeat step i)
      with ((repeat step i ++ a :: A ++ Mid ++ B') ++ b :: repeat step i)
      by (rewrite <- !app_assoc; cbn [app]; rewrite <- !app_assoc; reflexivity).
    rewrite store_at
      by (rewrite !length_app; cbn [length]; rewrite !length_app, repeat_length; lia).
    cbn [bind].
    rewrite <- app_assoc. cbn [app].
    rewrite store_at by (rewrite repeat_length; reflexivity).
    cbn [bind].
    rewrite (u64_small (2 * step)) by nia.
    rewrite (u64_small (sofar + 2 * step)) by nia.
    replace (Z.of_nat i + 1) with (Z.of_nat (S i)) by lia.
    rewrite wrap_step, <- !app_assoc.
    rewrite IH; try lia; try nia.
    replace (S i + k)%nat with (i + S k)%nat by lia.
    do 2 f_equal. lia.
Qed.

Ltac in_cases :=
  match goal with
  | H : In _ (_ ++ _) |- _ => apply in_app_or in H; destruct H as [H | H]
  | H : In _ (_ :: _) |- _ => destruct H as [<- | H]
  | H : In _ [] |- _ => destruct H
  | H : In _ (repeat _ _) |- _ => apply repeat_spec in H; subst
  end.

Lemma split_three (C : list Z) h m :
  length C = (h + m + h)%nat ->
  exists A Mid B, C = A ++ Mid ++ B /\ length A = h /\ length Mid = m /\ length B = h.
Proof.
  intros Hl.
  exists (firstn h C), (firstn m (skipn h C)), (skipn m (skipn h C)).
  rewrite !firstn_skipn. repeat split.
  - apply firstn_length_le. lia.
  - apply firstn_length_le. rewrite length_skipn. lia.
  - rewrite !length_skipn. lia.
Qed.

(** Whatever the array holds before, FD fills it with frequencies that
    add up to the number of values. *)
Theorem fixed_domain_conserves C0 num_bins F nF :
  num_bins = Z.of_nat (length C0) -> 1 <= num_bins < 2 ^ 64 ->
  0 <= nF < 2 ^ 64 ->
  exists C, bins_fixed_domain C0 num_bins F nF = Ret C /\
            length C = length C0 /\ Forall (fun f => 0 <= f) C /\ sum C = nF.
Proof.
  intros Hn Hnb HnF. unfold bins_fixed_domain, udiv.
  destruct (Z.eqb_spec num_bins 0) as [E | _]; [lia|]. cbn [bind].
  rewrite (u64_small (num_bins - 1)) by lia.
  set (step := nF / num_bins).
  set (h := Z.to_nat ((num_bins - 1) / 2)).
  assert (Hstep : 0 <= step) by (apply Z.div_pos; lia).
  assert (Hmul : step * num_bins <= nF) by (unfold step; rewrite Z.mul_comm; apply Z.mul_div_le; lia).
  pose proof (Z.div_mod (num_bins - 1) 2 ltac:(lia)) as Hdm.
  pose proof (Z.mod_pos_bound (num_bins - 1) 2 ltac:(lia)) as Hmb.
  assert (Hh : Z.of_nat h = (num_bins - 1) / 2)
    by (unfold h; apply Z2Nat.id; apply Z.div_pos; lia).
  assert (Hsofar : 0 <= 2 * step * Z.of_nat h <= nF) by nia.
  set (m := (length C0 - 2 * h)%nat).
  assert (Hm : (1 <= m <= 2)%nat) by lia.
  destruct (split_three C0 h m ltac:(lia)) as (A & Mid & B & EC & HA & HMid & HB).
  pose proof (fd_loop_spec step num_bins h 0 A Mid B 0 HA HB) as Hloop.
  cbn [repeat app Z.of_nat] in Hloop. rewrite app_nil_r, <- EC in Hloop.
  rewrite Hloop by (try lia). clear Hloop. cbn [bind Nat.add Z.add].
  unfold fill_middle.
  assert (Hhalf : num_bins / 2 = Z.of_nat h + (if num_bins mod 2 =? 0 then 1 else 0)).
  { pose proof (Z.div_mod num_bins 2 ltac:(lia)).
    pose proof (Z.mod_pos_bound num_bins 2 ltac:(lia)).
    destruct (Z.eqb_spec (num_bins mod 2) 0); lia. }
  rewrite (u64_small (nF - 2 * step * Z.of_nat h)) by lia.
  set (left := nF - 2 * step * Z.of_nat h) in *.
  destruct (Z.eqb_spec (num_bins mod 2) 0) as [Heven | Hodd].
  - (* two middle bins *)
    assert (Em : m = 2%nat).
    { pose proof (Z.div_mod num_bins 2 ltac:(lia)). lia. }
    destruct Mid as [|x [|y [|? ?]]]; cbn [length] in HMid; try lia.
    rewrite (u64_small (num_bins / 2 - 1)) by lia. cbn [app].
    rewrite (store_at (repeat step h) x (y :: repeat step h))
      by (rewrite repeat_length; lia).
    cbn [bind].
    unfold index. rewrite length_app. cbn [length]. rewrite repeat_length.
    replace ((0 <=? num_bins / 2 - 1) && (num_bins / 2 - 1 <? Z.of_nat (h + S (S h))))
      with true
      by (symmetry; apply andb_true_iff; split; [apply Z.leb_le | apply Z.ltb_lt]; lia).
    replace (Z.to_nat (num_bins / 2 - 1)) with h by lia.
    rewrite app_nth2 by (rewrite repeat_length; lia).
    rewrite repeat_length, Nat.sub_diag. cbn [nth bind].
    assert (Hl2 : 0 <= left / 2 <= left).
    { split; [apply Z.div_pos; lia|]. apply Z.div_le_upper_bound; lia. }
    rewrite (u64_small (left - left / 2)) by lia.
    assert (Eshape : repeat step h ++ (left / 2) :: y :: repeat step h
                     = (repeat step h ++ [left / 2]) ++ y :: repeat step h)
      by (rewrite <- app_assoc; reflexivity).
    rewrite Eshape.
    rewrite (store_at (repeat step h ++ [left / 2]) y (repeat step h))
      by (rewrite length_app, repeat_length; cbn [length]; lia).
    eexists. split; [reflexivity|]. repeat apply conj.
    + rewrite EC, !length_app. cbn [length]. rewrite ?length_app, ?repeat_length.
      cbn [length]. lia.
    + apply Forall_forall. intros z Hz. repeat in_cases; lia.
    + rewrite !sum_app, !sum_repeat. cbn [sum fold_right]. rewrite sum_repeat.
      unfold left. lia.
  - (* one middle bin *)
    assert (Em : m = 1%nat).
    { pose proof (Z.div_mod num_bins 2 ltac:(lia)).
      pose proof (Z.mod_pos_bound num_bins 2 ltac:(lia)). lia. }
    destruct Mid as [|x [|? ?]]; cbn [length] in HMid; try lia.
    cbn [app].
    rewrite (store_at (repeat step h) x (repeat step h))
      by (rewrite repeat_length; lia).
    eexists. split; [reflexivity|]. repeat apply conj.
    + rewrite EC, !length_app. cbn [length]. rewrite ?length_app, ?repeat_length.
      cbn [length]. lia.
    + apply Forall_forall. intros z Hz. repeat in_cases; lia.
    + rewrite !sum_app, !sum_repeat. cbn [sum fold_right]. rewrite sum_repeat.
      unfold left. lia.
Qed.

End FixedDomainFacts.

(** ** The renormalization loops end, unless the range is zero *)

Module LoopFacts.
Import Coder CoderSpec TableFacts EncoderFacts DecoderFacts ReachFacts.

Lemma renorm_zero fuel : forall g fp, R g = 0 -> renorm fuel g fp = Diverges.
Proof.
  induction fuel as [|fuel IH]; intros g fp HR; cbn [renorm]; rewrite HR;
    change (0 <? PART) with true; cbv iota.
  - reflexivity.
  - pose proof (renorm_step_R g fp) as [H _]. rewrite HR in H.
    destruct (renorm_step g fp) as [g1 fp1]. cbn [fst] in H.
    apply IH. exact H.
Qed.

Lemma renorm_returns fuel : forall g fp,
  0 < R g -> PART <= R g * 256 ^ Z.of_nat fuel ->
  exists g' fp', renorm fuel g fp = Ret (g', fp').
Proof.
  induction fuel as [|fuel IH]; intros g fp HR Hf; cbn [renorm].
  - change (256 ^ Z.of_nat 0) with 1 in Hf.
    replace (R g <? PART) with false by (symmetry; apply Z.ltb_ge; lia).
    exists g, fp. reflexivity.
  - destruct (Z.ltb_spec (R g) PART) as [Hlt | Hge]; [|exists g, fp; reflexivity].
    pose proof (renorm_step_R g fp) as [H _].
    rewrite shiftl8, u64_small in H by (rewrite PART_val in Hlt; lia).
    destruct (renorm_step g fp) as [g1 fp1]. cbn [fst] in H.
    apply IH; rewrite H; [lia|].
    rewrite Nat2Z.inj_succ, Z.pow_succ_r in Hf by lia. lia.
Qed.

(** The fuel of [renorm] runs out exactly when [R = 0]. *)
Lemma renorm_diverges_iff g fp :
  0 <= R g -> (renorm renorm_fuel g fp = Diverges <-> R g = 0).
Proof.
  intros HR. split.
  - intros Hd. destruct (Z.eq_dec (R g) 0) as [E | E]; [exact E|].
    destruct (renorm_returns renorm_fuel g fp) as (g' & fp' & Hrun); [lia| |congruence].
    change (256 ^ Z.of_nat renorm_fuel) with (2 ^ 48). rewrite PART_val. lia.
  - apply renorm_zero.
Qed.

Lemma fill_step_R g fp :
  R (fst (fill_step g fp)) = u64 (Z.shiftl (R g) 8).
Proof. unfold fill_step. destruct (fgetc fp). reflexivity. Qed.

Lemma fill_returns fuel : forall g fp,
  0 < R g -> PART <= R g * 256 ^ Z.of_nat fuel ->
  exists g' fp', fill fuel g fp = Ret (g', fp').
Proof.
  induction fuel as [|fuel IH]; intros g fp HR Hf; cbn [fill].
  - change (256 ^ Z.of_nat 0) with 1 in Hf.
    replace (R g <? PART) with false by (symmetry; apply Z.ltb_ge; lia).
    exists g, fp. reflexivity.
  - destruct (Z.ltb_spec (R g) PART) as [Hlt | Hge]; [|exists g, fp; reflexivity].
    pose proof (fill_step_R g fp) as H.
    rewrite shiftl8, u64_small in H by (rewrite PART_val in Hlt; lia).
    destruct (fill_step g fp) as [g1 fp1]. cbn [fst] in H.
    apply IH; rewrite H; [lia|].
    rewrite Nat2Z.inj_succ, Z.pow_succ_r in Hf by lia. lia.
Qed.

End LoopFacts.

(** ** The output only grows, and [bytes_out] counts it *)

Module OutputFacts.
Import Coder CoderSpec OutputSpec.

Lemma extends_refl g fp : extends g fp g fp.
Proof.
  exists []. split; [symmetry; apply app_nil_r|].
  cbn [length Z.of_nat]. rewrite Z.add_0_r. reflexivity.
Qed.

Lemma extends_trans g1 fp1 g2 fp2 g3 fp3 :
  extends g1 fp1 g2 fp2 -> extends g2 fp2 g3 fp3 -> extends g1 fp1 g3 fp3.
Proof.
  intros (w1 & E1 & B1) (w2 & E2 & B2). exists (w1 ++ w2). split.
  - rewrite E2, E1. symmetry. apply app_assoc.
  - rewrite B2. unfold u64 in *. rewrite length_app, Nat2Z.inj_add.
    rewrite <- Zplus_mod_idemp_l, B1, Zplus_mod_idemp_l.
    f_equal. lia.
Qed.

(** A change of the variables other than [bytes_out]. *)
Lemma extends_same g fp g' :
  bytes_out g' = bytes_out g -> extends g fp g' fp.
Proof.
  intros E. exists []. split; [symmetry; apply app_nil_r|].
  rewrite E. cbn [length Z.of_nat]. rewrite Z.add_0_r. reflexivity.
Qed.

Lemma extends_put b g fp :
  extends g fp (fst (put b g fp)) (snd (put b g fp)).
Proof.
  exists [b]. split; [reflexivity|].
  cbn [put fst set_bytes_out bytes_out length]. unfold u64.
  rewrite Zmod_mod. reflexivity.
Qed.

Lemma extends_ff_flush k : forall g fp,
  extends g fp (fst (ff_flush k g fp)) (snd (ff_flush k g fp)).
Proof.
  induction k as [|k IH]; intros g fp; cbn [ff_flush]; [apply extends_refl|].
  pose proof (extends_put FULLBYTE g fp) as H1.
  destruct (put FULLBYTE g fp) as [g1 fp1]. cbn [fst snd] in H1.
  eapply extends_trans; [exact H1|].
  eapply extends_trans; [|apply IH].
  apply extends_same. reflexivity.
Qed.

Lemma extends_carry_flush k : forall g fp,
  extends g fp (fst (carry_flush k g fp)) (snd (carry_flush k g fp)).
Proof.
  induction k as [|k IH]; intros g fp; cbn [carry_flush]; [apply extends_refl|].
  pose proof (extends_put (last_non_ff_byte g) g fp) as H1.
  destruct (put (last_non_ff_byte g) g fp) as [g1 fp1]. cbn [fst snd] in H1.
  eapply extends_trans; [exact H1|].
  eapply extends_trans; [|apply IH].
  apply extends_same. reflexivity.
Qed.

Lemma extends_carry g fp :
  extends g fp (fst (carry g fp)) (snd (carry g fp)).
Proof.
  unfold carry. destruct (FULL <? L g); [|apply extends_refl].
  cbv zeta. eapply extends_trans; [|apply extends_carry_flush].
  apply extends_same. reflexivity.
Qed.

Lemma extends_renorm_step g fp :
  extends g fp (fst (renorm_step g fp)) (snd (renorm_step g fp)).
Proof.
  unfold renorm_step.
  destruct (negb (u8 (Z.shiftr (L g) (BBITS - 8)) =? FULLBYTE)).
  - assert (H1 : extends g fp
                   (fst (if negb (first g) then put (last_non_ff_byte g) g fp else (g, fp)))
                   (snd (if negb (first g) then put (last_non_ff_byte g) g fp else (g, fp)))).
    { destruct (negb (first g)); [apply extends_put | apply extends_refl]. }
    destruct (if negb (first g) then put (last_non_ff_byte g) g fp else (g, fp))
      as [g1 fp1]. cbn [fst snd] in H1.
    pose proof (extends_ff_flush (Z.to_nat (num_ff_bytes g1)) g1 fp1) as H2.
    destruct (ff_flush (Z.to_nat (num_ff_bytes g1)) g1 fp1) as [g2 fp2].
    cbn [fst snd] in H2 |- *.
    eapply extends_trans; [exact H1|]. eapply extends_trans; [exact H2|].
    apply extends_same. reflexivity.
  - cbn [fst snd]. apply extends_same. reflexivity.
Qed.

Lemma extends_renorm fuel : forall g fp g' fp',
  renorm fuel g fp = Ret (g', fp') -> extends g fp g' fp'.
Proof.
  induction fuel as [|fuel IH]; intros g fp g' fp'; cbn [renorm];
    destruct (R g <? PART).
  - discriminate.
  - intros H. injection H as <- <-. apply extends_refl.
  - pose proof (extends_renorm_step g fp) as H1.
    destruct (renorm_step g fp) as [g1 fp1]. cbn [fst snd] in H1.
    intros H. eapply extends_trans; [exact H1 | exact (IH _ _ _ _ H)].
  - intros H. injection H as <- <-. apply extends_refl.
Qed.

Lemma extends_arith_encode s c n g fp g' fp' :
  arith_encode s c n g fp = Ret (g', fp') -> extends g fp g' fp'.
Proof.
  unfold arith_encode. intros H.
  apply DecoderFacts.bind_ret in H. destruct H as (_ & _ & H).
  apply DecoderFacts.bind_ret in H. destruct H as ([low high] & _ & H).
  apply DecoderFacts.bind_ret in H. destruct H as (scale & _ & H).
  cbv zeta in H.
  match type of H with context [carry ?g0 fp] =>
    pose proof (extends_carry g0 fp) as H1; destruct (carry g0 fp) as [g3 fp3] end.
  cbn [fst snd] in H1.
  eapply extends_trans; [|exact (extends_renorm _ _ _ _ _ H)].
  eapply extends_trans; [|exact H1].
  apply extends_same. reflexivity.
Qed.

Lemma put_L_out k : forall g fp,
  extends g fp (fst (put_L k g fp)) (snd (put_L k g fp)) /\
  (length (snd (put_L k g fp)) = length fp + k)%nat /\
  ((0 < k)%nat -> 0 <= bytes_out (fst (put_L k g fp)) < 2 ^ 64).
Proof.
  induction k as [|k IH]; intros g fp; cbn [put_L].
  - split; [apply extends_refl|]. split; [cbn; lia | lia].
  - set (b := Z.land (Z.shiftr (L g) (8 * Z.of_nat k)) FULLBYTE).
    pose proof (extends_put b g fp) as H1.
    assert (Hl : length (snd (put b g fp)) = (length fp + 1)%nat)
      by (cbn [put snd]; rewrite length_app; reflexivity).
    assert (Hr : 0 <= bytes_out (fst (put b g fp)) < 2 ^ 64)
      by (cbn [put fst set_bytes_out bytes_out]; apply u64_range).
    destruct (put b g fp) as [g1 fp1]. cbn [fst snd] in H1, Hl, Hr.
    destruct (IH g1 fp1) as (I1 & I2 & I3).
    split; [eapply extends_trans; eassumption|]. split; [lia|].
    intros _. destruct k as [|k]; [exact Hr | apply I3; lia].
Qed.

Lemma encoder_close_out g fp :
  let r := encoder_close g fp in
  extends g fp (fst r) (snd r) /\
  (length fp + 7 <= length (snd r))%nat /\
  0 <= bytes_out (fst r) < 2 ^ 64.
Proof.
  unfold encoder_close.
  assert (H1 : extends g fp
                 (fst (if negb (first g) then put (last_non_ff_byte g) g fp else (g, fp)))
                 (snd (if negb (first g) then put (last_non_ff_byte g) g fp else (g, fp)))).
  { destruct (negb (first g)); [apply extends_put | apply extends_refl]. }
  destruct (if negb (first g) then put (last_non_ff_byte g) g fp else (g, fp))
    as [g1 fp1]. cbn [fst snd] in H1.
  pose proof (extends_ff_flush (Z.to_nat (num_ff_bytes g1)) g1 fp1) as H2.
  destruct (ff_flush (Z.to_nat (num_ff_bytes g1)) g1 fp1) as [g2 fp2].
  cbn [fst snd] in H2.
  destruct (put_L_out (Z.to_nat BBYTES) g2 fp2) as (H3 & H4 & H5).
  cbv zeta. split; [|split].
  - eapply extends_trans; [exact H1|]. eapply extends_trans; eassumption.
  - rewrite H4. destruct H1 as (w1 & -> & _). destruct H2 as (w2 & -> & _).
    rewrite !length_app. change (Z.to_nat BBYTES) with 7%nat. lia.
  - apply H5. change (Z.to_nat BBYTES) with 7%nat. lia.
Qed.

Lemma extends_encode_all c : forall xs g fp g' fp',
  encode_all xs c g fp = Ret (g', fp') -> extends g fp g' fp'.
Proof.
  induction xs as [|s xs IH]; intros g fp g' fp' Hrun.
  - cbn in Hrun. injection Hrun as <- <-. apply extends_refl.
  - cbn [encode_all] in Hrun.
    apply DecoderFacts.bind_ret in Hrun. destruct Hrun as ([g1 fp1] & H1 & Hrest).
    eapply extends_trans; [exact (extends_arith_encode _ _ _ _ _ _ _ H1)|].
    apply IH. exact Hrest.
Qed.

(** The loop of the encode tool. *)
Lemma extends_encode_floats b : forall n fi g fo g' fo',
  (length fi <= n)%nat ->
  Encoder.encode_floats fi b g fo = Ret (g', fo') -> extends g fo g' fo'.
Proof.
  induction n as [|n IH]; intros fi g fo g' fo' Hn H.
  - destruct fi; [|cbn in Hn; lia]. cbn in H. injection H as <- <-.
    apply extends_refl.
  - destruct fi as [|b0 [|b1 [|b2 [|b3 rest]]]];
      try (cbn in H; injection H as <- <-; apply extends_refl).
    cbn [Encoder.encode_floats] in H.
    apply DecoderFacts.bind_ret in H. destruct H as (lo & _ & H).
    apply DecoderFacts.bind_ret in H. destruct H as ([g1 fo1] & H1 & H).
    eapply extends_trans; [exact (extends_arith_encode _ _ _ _ _ _ _ H1)|].
    apply (IH rest); [cbn [length] in Hn; lia | exact H].
Qed.

End OutputFacts.

(** ** The encoder on any valid run, the decoder on any stream *)

Module SafetyFacts.
Import Coder CoderSpec TableFacts EncoderFacts DecoderFacts RoundTrip ReachFacts LoopFacts.

(** Every run over symbols of nonzero frequency returns, however long. *)
Lemma encode_all_returns freqs :
  valid_freqs freqs ->
  forall xs g fp,
  Forall (valid_symbol freqs) xs ->
  enc_inv g -> total g = sum freqs ->
  exists g' fp',
    encode_all xs (cumfreqs freqs) g fp = Ret (g', fp') /\
    enc_inv g' /\ total g' = sum freqs.
Proof.
  intros Hv. induction xs as [|s xs IH]; intros g fp Hxs Hinv Htot.
  - exists g, fp. split; [reflexivity|]. split; assumption.
  - inversion Hxs as [|? ? Hs Hxs']; subst.
    destruct (arith_encode_spec freqs s g fp Hv Hs Hinv Htot)
      as (g1 & fp1 & Hrun & Hinv1 & Htot1 & _).
    destruct (IH g1 fp1 Hxs' Hinv1 ltac:(congruence)) as (g' & fp' & Hrest & Hinv' & Htot').
    exists g', fp'. split; [|split; assumption].
    cbn [encode_all]. rewrite cumfreqs_length, Hrun. exact Hrest.
Qed.

(** The symbol whose range holds [target]. *)
Lemma search_finds freqs target :
  valid_freqs freqs -> Z.of_nat (length freqs) <= 2 ^ 31 ->
  0 <= target < sum freqs ->
  exists v,
    search (cumfreqs freqs) target 0 (to_int (u64 (Z.of_nat (length freqs) - 1))) = Ret v /\
    valid_symbol freqs v /\
    cum freqs (Z.to_nat v) <= target < cum freqs (S (Z.to_nat v)).
Proof.
  intros Hv Hlen Ht. pose proof Hv as (Hne & Hlen64 & Hpos & Hsum).
  assert (Hn : (0 < length freqs)%nat) by (destruct freqs; [congruence | cbn; lia]).
  rewrite (u64_small (Z.of_nat (length freqs) - 1)) by lia.
  replace (to_int (Z.of_nat (length freqs) - 1)) with (Z.of_nat (length freqs) - 1)
    by (unfold to_int; rewrite Z.mod_small; lia).
  destruct (search_spec freqs target Hv _ 0 (Z.of_nat (length freqs) - 1) eq_refl)
    as (v & Hsearch & Hvb & Hvr); try lia.
  { replace (S (Z.to_nat (Z.of_nat (length freqs) - 1))) with (length freqs) by lia.
    rewrite cum_all. change (cum freqs (Z.to_nat 0)) with 0. lia. }
  exists v. split; [exact Hsearch|]. split; [|exact Hvr].
  split; [lia|].
  rewrite cum_S in Hvr by lia. lia.
Qed.

(** One call of [arith_decode] on any window and any stream. *)
Lemma arith_decode_safe freqs g fp :
  valid_freqs freqs -> 0 < sum freqs -> Z.of_nat (length freqs) <= 2 ^ 31 ->
  PART <= R g <= FULL -> total g = sum freqs -> 0 <= D g < 2 ^ 64 ->
  arith_decode (cumfreqs freqs) (Z.of_nat (length freqs)) g fp = AssertFailure \/
  exists v g' fp',
    arith_decode (cumfreqs freqs) (Z.of_nat (length freqs)) g fp = Ret (v, g', fp') /\
    valid_symbol freqs v /\
    PART <= R g' <= FULL /\ total g' = sum freqs /\ 0 <= D g' < 2 ^ 64.
Proof.
  intros Hv Hsum0 Hlen HR Htot HD.
  pose proof Hv as (Hne & Hlen64 & Hpos & Hsum).
  set (scale := R g / total g).
  assert (Ht : 0 < total g <= MINR) by (rewrite Htot; lia).
  assert (Hq : 128 <= scale).
  { unfold scale. apply Z.div_le_lower_bound; [lia|].
    rewrite PART_val, MINR_val in *. lia. }
  set (target := if total g <=? D g / scale then u64 (total g - 1) else D g / scale).
  assert (Htarget : 0 <= target < sum freqs).
  { unfold target. rewrite MINR_val in Ht.
    destruct (Z.leb_spec (total g) (D g / scale)) as [Hbig | Hsmall].
    - rewrite u64_small by lia. lia.
    - assert (0 <= D g / scale) by (apply Z.div_pos; lia). lia. }
  destruct (search_finds freqs target Hv Hlen Htarget) as (v & Hsearch & Hs & Hvr).
  destruct (valid_symbol_range freqs v Hv Hs) as (Hrange & Hlow & Hhigh).
  set (low := cum freqs (Z.to_nat v)) in *.
  set (high := cum freqs (S (Z.to_nat v))) in *.
  rewrite <- Htot in Hhigh.
  destruct (narrowed_bounds (R g) (total g) low high HR Ht Hlow Hhigh)
    as (_ & Hls & Hn1 & Hn2).
  fold scale in Hls, Hn1, Hn2.
  set (rn := narrowed (R g) (total g) low high) in *.
  destruct Hs as [Hs1 Hs2].
  assert (Hprev : (if v =? 0 then Ret 0 else index (cumfreqs freqs) (u64 (v - 1)))
                  = Ret low).
  { unfold symbol_range in Hrange.
    destruct (if v =? 0 then Ret 0 else index (cumfreqs freqs) (u64 (v - 1)));
      cbn in Hrange; try discriminate.
    destruct (index (cumfreqs freqs) v); cbn in Hrange; try discriminate.
    inversion Hrange. reflexivity. }
  set (g2 := set_R (set_D g (u64 (D g - u64 (low * scale))))
                   (narrow (set_D g (u64 (D g - u64 (low * scale)))) low high scale)).
  assert (Hstep : arith_decode (cumfreqs freqs) (Z.of_nat (length freqs)) g fp =
            (_ <- assert (D g2 <=? R g2) ;;
             '(g3, fp3) <- fill renorm_fuel g2 fp ;;
             _ <- assert (D g3 <=? R g3) ;;
             Ret (v, g3, fp3))).
  { unfold arith_decode.
    unfold udiv at 1.
    replace (total g =? 0) with false by (symmetry; apply Z.eqb_neq; lia).
    cbn [bind]. fold scale.
    replace (0 <? scale) with true by (symmetry; apply Z.ltb_lt; lia).
    cbn [assert bind].
    unfold udiv at 1.
    replace (scale =? 0) with false by (symmetry; apply Z.eqb_neq; lia).
    cbn [bind]. fold target.
    rewrite Hsearch. cbn [bind].
    rewrite (u64_small v) by lia.
    rewrite Hprev. cbn [bind].
    replace ((v =? 0) || (low <=? target)) with true
      by (symmetry; apply orb_true_iff; right; apply Z.leb_le; lia).
    cbn [assert bind].
    replace (v <? Z.of_nat (length freqs)) with true by (symmetry; apply Z.ltb_lt; lia).
    cbn [assert bind].
    rewrite index_cumfreqs by (try assumption; lia). cbn [bind]. fold high.
    replace (target <? high) with true by (symmetry; apply Z.ltb_lt; lia).
    cbn [assert bind]. rewrite Hrange. cbn [bind]. reflexivity. }
  assert (HR2 : R g2 = rn).
  { unfold g2. cbn [set_R R].
    apply (narrow_eq (set_D g (u64 (D g - u64 (low * scale))))); cbn [set_D R total];
      assumption. }
  assert (Hrn : 0 < rn <= FULL) by lia.
  rewrite Hstep.
  destruct (D g2 <=? R g2); [|left; reflexivity].
  cbn [assert bind].
  destruct (fill_returns renorm_fuel g2 fp) as (g3 & fp3 & Hfill).
  { rewrite HR2. lia. }
  { rewrite HR2. change (256 ^ Z.of_nat renorm_fuel) with (2 ^ 48).
    rewrite PART_val. lia. }
  rewrite Hfill. cbn [bind].
  destruct (D g3 <=? R g3); [|left; reflexivity].
  cbn [assert bind]. right. exists v, g3, fp3. split; [reflexivity|].
  split; [split; assumption|].
  assert (HD2 : 0 <= D g2 < 2 ^ 64) by (unfold g2; cbn [set_R set_D D]; apply u64_range).
  destruct (fill_range renorm_fuel g2 fp g3 fp3 Hfill) as (A1 & A2 & A3);
    [rewrite HR2; exact Hrn | exact HD2 |].
  split; [exact A1|]. split; [|exact A3].
  rewrite A2. unfold g2. cbn [set_R set_D total]. exact Htot.
Qed.

(** [count] calls on any stream. *)
Lemma decode_all_safe freqs :
  valid_freqs freqs -> 0 < sum freqs -> Z.of_nat (length freqs) <= 2 ^ 31 ->
  forall count g fp,
  PART <= R g <= FULL -> total g = sum freqs -> 0 <= D g < 2 ^ 64 ->
  decode_all count (cumfreqs freqs) g fp = AssertFailure \/
  exists vs g' fp',
    decode_all count (cumfreqs freqs) g fp = Ret (vs, g', fp') /\
    length vs = count /\ Forall (valid_symbol freqs) vs.
Proof.
  intros Hv Hsum0 Hlen. induction count as [|count IH]; intros g fp HR Htot HD.
  - right. exists [], g, fp. split; [reflexivity|]. split; [reflexivity | constructor].
  - cbn [decode_all]. rewrite cumfreqs_length.
    destruct (arith_decode_safe freqs g fp Hv Hsum0 Hlen HR Htot HD)
      as [E | (v & g1 & fp1 & E & Hs & HR1 & Htot1 & HD1)]; rewrite E; cbn [bind].
    + left. reflexivity.
    + destruct (IH g1 fp1 HR1 Htot1 HD1) as [E2 | (vs & g2 & fp2 & E2 & Hl & Hall)];
        rewrite E2; cbn [bind].
      * left. reflexivity.
      * right. exists (v :: vs), g2, fp2. split; [reflexivity|].
        split; [cbn [length]; congruence | constructor; assumption].
Qed.

End SafetyFacts.

(** ** How many bytes a run takes *)

Module RateFacts.
Import Coder CoderSpec RateSpec TableFacts ByteFacts EncoderFacts RoundTrip.

(** One coding step keeps at least [128/129] of the share of the range
    that the frequency of the symbol asks for. *)
Lemma narrowed_rate r t low high :
  PART <= r <= FULL -> 0 < t <= MINR -> 0 <= low < high -> high <= t ->
  r * (128 * (high - low)) <= narrowed r t low high * (129 * t).
Proof.
  intros Hr Ht Hlow Hhigh.
  destruct (narrowed_bounds r t low high Hr Ht Hlow Hhigh) as (Hq & _ & _ & _).
  pose proof (Z.div_mod r t ltac:(lia)) as Hdm.
  pose proof (Z.mod_pos_bound r t ltac:(lia)) as Hmb.
  set (scale := r / t) in *.
  assert (Hn : (high - low) * scale <= narrowed r t low high).
  { unfold narrowed. fold scale.
    destruct (Z.ltb_spec high t) as [Hlt | Hge]; [lia|]. nia. }
  assert (Hr2 : r * 128 <= 129 * t * scale) by nia.
  transitivity ((high - low) * scale * (129 * t)); [|nia].
  assert (0 <= high - low) by lia. nia.
Qed.

Lemma weight_nonneg freqs xs :
  Forall (fun f => 0 <= f) freqs -> 0 <= weight freqs xs.
Proof.
  intros Hpos. induction xs as [|s xs IH]; cbn [weight fold_right]; [lia|].
  fold (weight freqs xs).
  assert (0 <= nth (Z.to_nat s) freqs 0).
  { destruct (nth_in_or_default (Z.to_nat s) freqs 0) as [Hin | ->]; [|lia].
    rewrite Forall_forall in Hpos. apply Hpos. exact Hin. }
  nia.
Qed.

Lemma budget_nonneg freqs xs :
  Forall (fun f => 0 <= f) freqs -> 0 <= budget freqs xs.
Proof.
  intros Hpos. pose proof (sum_nonneg freqs Hpos).
  induction xs as [|s xs IH]; cbn [budget fold_right]; [lia|].
  fold (budget freqs xs). nia.
Qed.

(** A run stages [d] bytes, and the range it ends with bounds [256^d]. *)
Lemma encode_all_rate freqs :
  valid_freqs freqs ->
  forall xs g fp,
  Forall (valid_symbol freqs) xs ->
  enc_inv g -> total g = sum freqs ->
  num_ff_bytes g + 6 * Z.of_nat (length xs) < 2 ^ 32 ->
  exists g' fp' d,
    encode_all xs (cumfreqs freqs) g fp = Ret (g', fp') /\
    enc_inv g' /\
    length (pending g' fp') = (length (pending g fp) + d)%nat /\
    R g * 256 ^ Z.of_nat d * weight freqs xs <= R g' * budget freqs xs.
Proof.
  intros Hv. pose proof Hv as (_ & _ & Hpos & _).
  induction xs as [|s xs IH]; intros g fp Hxs Hinv Htot Hroom.
  - exists g, fp, 0%nat. split; [reflexivity|]. split; [exact Hinv|].
    split; [lia|]. cbn [weight budget fold_right Z.of_nat]. lia.
  - inversion Hxs as [|? ? Hs Hxs']; subst. cbn [length] in Hroom.
    destruct (arith_encode_spec freqs s g fp Hv Hs Hinv Htot)
      as (g1 & fp1 & Hrun & Hinv1 & Htot1 & HR1 & Hval).
    destruct Hval as (_ & Hlen1 & Hn1 & _); [lia|].
    destruct (IH g1 fp1 Hxs' Hinv1 ltac:(congruence) ltac:(lia))
      as (g' & fp' & d & Hrest & Hinv' & Hlen' & Hrate).
    set (j := shifts renorm_fuel
                (narrowed (R g) (total g) (cum freqs (Z.to_nat s))
                   (cum freqs (S (Z.to_nat s))))) in *.
    exists g', fp', (j + d)%nat.
    split; [cbn [encode_all]; rewrite cumfreqs_length, Hrun; exact Hrest|].
    split; [exact Hinv'|]. split; [lia|].
    destruct (valid_symbol_range freqs s Hv Hs) as (_ & Hlow & Hhigh).
    pose proof (total_positive freqs s Hv Hs) as Ht.
    rewrite <- Htot in Ht, Hhigh.
    destruct Hinv as [Hmid HP]. destruct Hmid as [[_ HRF] _ _ _ _ _].
    pose proof (narrowed_rate (R g) (total g) _ _ (conj HP HRF) Ht Hlow Hhigh) as Hstep.
    rewrite cum_S in Hstep by (destruct Hs; lia).
    replace (cum freqs (Z.to_nat s) + nth (Z.to_nat s) freqs 0 - cum freqs (Z.to_nat s))
      with (nth (Z.to_nat s) freqs 0) in Hstep by lia.
    rewrite cum_S in HR1 by (destruct Hs; lia).
    set (rn := narrowed (R g) (total g) (cum freqs (Z.to_nat s))
                 (cum freqs (Z.to_nat s) + nth (Z.to_nat s) freqs 0)) in *.
    cbn [weight budget fold_right]. fold (weight freqs xs) (budget freqs xs).
    rewrite Nat2Z.inj_add, Z.pow_add_r by lia.
    pose proof (weight_nonneg freqs xs Hpos) as HW.
    pose proof (budget_nonneg freqs xs Hpos) as HB.
    pose proof (pow256_pos j) as Hj. pose proof (pow256_pos d) as Hd.
    rewrite Htot in Hstep.
    set (f := nth (Z.to_nat s) freqs 0) in *.
    set (W := weight freqs xs) in *. set (B := budget freqs xs) in *.
    set (pj := 256 ^ Z.of_nat j) in *. set (pd := 256 ^ Z.of_nat d) in *.
    rewrite HR1 in Hrate.
    (* multiply the step by [pj * pd * W] and the rest by [129 * total] *)
    transitivity (rn * (129 * sum freqs) * (pj * pd * W)).
    + replace (R g * (pj * pd) * (128 * f * W))
        with (R g * (128 * f) * (pj * pd * W)) by ring.
      apply Z.mul_le_mono_nonneg_r; [nia | exact Hstep].
    + replace (rn * (129 * sum freqs) * (pj * pd * W))
        with (rn * pj * pd * W * (129 * sum freqs)) by ring.
      replace (R g' * (129 * sum freqs * B))
        with (R g' * B * (129 * sum freqs)) by ring.
      apply Z.mul_le_mono_nonneg_r; [lia | exact Hrate].
Qed.

End RateFacts.

(** ** The float-to-bin search outside its precondition *)

Module SearchEdgeFacts.
Import ToolSpec FloatOrder SearchFacts.

(** When no bound is at or above [f], every step moves [lo] and the loop
    ends at [hi]. *)
Lemma bin_search_above U f :
  (forall j, (j < length U)%nat -> (f <=? at_ U j)%float = false) ->
  forall k lo hi,
  Z.to_nat (hi - lo) = k ->
  0 <= lo <= hi -> hi < Z.of_nat (length U) ->
  Encoder.bin_search U f lo hi = Ret hi.
Proof.
  intros Hab k. induction k as [k IH] using lt_wf_ind.
  intros lo hi Hk Hlo Hhi.
  rewrite Encoder.bin_search_equation_1.
  destruct (Z_lt_dec lo hi) as [Hlt | Hge]; cbn.
  - assert (Hq : (hi - lo) ÷ 2 = (hi - lo) / 2) by (apply Z.quot_div_nonneg; lia).
    rewrite Hq.
    assert (Hmid : 0 <= (hi - lo) / 2 < hi - lo).
    { split; [apply Z.div_pos; lia | apply Z.div_lt_upper_bound; lia]. }
    set (md := lo + (hi - lo) / 2) in *.
    rewrite findex_at by lia. cbn.
    rewrite (Hab (Z.to_nat md)) by lia. cbn. rewrite Hq. fold md.
    apply (IH (Z.to_nat (hi - (md + 1)))); lia.
  - f_equal. lia.
Qed.

(** In a non-decreasing array a value not at or below the last bound is
    at or below none. *)
Lemma above_last_above_all U f :
  nondecreasing U -> ~ fle f (at_ U (length U - 1)) ->
  forall j, (j < length U)%nat -> (f <=? at_ U j)%float = false.
Proof.
  intros Hs Hlast j Hj.
  destruct (f <=? at_ U j)%float eqn:E; [|reflexivity].
  exfalso. apply Hlast.
  destruct (Nat.eq_dec j (length U - 1)) as [-> | Hne]; [exact E|].
  apply fle_trans with (at_ U j); [exact E|].
  apply nondecreasing_le; try assumption; lia.
Qed.

Lemma find_bin_above U f :
  (0 < length U)%nat -> Z.of_nat (length U) <= 2 ^ 31 ->
  (forall j, (j < length U)%nat -> (f <=? at_ U j)%float = false) ->
  Encoder.find_bin U (Z.of_nat (length U)) f = AssertFailure.
Proof.
  intros Hn Hlen Hab. unfold Encoder.find_bin.
  rewrite (u64_small (Z.of_nat (length U) - 1)) by lia.
  replace (to_int (Z.of_nat (length U) - 1)) with (Z.of_nat (length U) - 1)
    by (unfold to_int; rewrite Z.mod_small; lia).
  rewrite (bin_search_above U f Hab _ 0 (Z.of_nat (length U) - 1) eq_refl) by lia.
  cbn [bind].
  destruct (Z.eqb_spec (Z.of_nat (length U) - 1) 0) as [E0 | E0].
  - cbn [bind assert]. rewrite findex_at by lia. cbn [bind].
    rewrite Hab by lia. reflexivity.
  - rewrite findex_at by lia. cbn [bind].
    destruct (at_ U (Z.to_nat (Z.of_nat (length U) - 1 - 1)) <? f)%float;
      cbn [assert bind]; [|reflexivity].
    rewrite findex_at by lia. cbn [bind].
    rewrite Hab by lia. reflexivity.
Qed.

End SearchEdgeFacts.

(** ** The loop of the encode tool as a run of the coder *)

Module ToolRunFacts.
Import Coder CoderSpec OutputSpec FileSpec TableFacts ByteFacts EncoderFacts
  DecoderFacts RoundTrip OutputFacts.

Lemma floats_of_groups_fuel n : forall m fi,
  (length fi <= n)%nat -> (length fi <= m)%nat ->
  floats_of_groups n fi = floats_of_groups m fi.
Proof.
  induction n as [|n IH]; intros m fi Hn Hm.
  - destruct fi; [|cbn in Hn; lia]. destruct m; reflexivity.
  - destruct fi as [|b0 [|b1 [|b2 [|b3 rest]]]];
      try (destruct m; reflexivity).
    destruct m as [|m]; [cbn in Hm; lia|].
    cbn [floats_of_groups]. f_equal. cbn [length] in Hn, Hm. apply IH; lia.
Qed.

Lemma floats_of_cons b0 b1 b2 b3 rest :
  floats_of (b0 :: b1 :: b2 :: b3 :: rest)
  = float_of_bits (Encoder.le [b0; b1; b2; b3]) :: floats_of rest.
Proof.
  unfold floats_of.
  transitivity (float_of_bits (Encoder.le [b0; b1; b2; b3])
                :: floats_of_groups (S (S (S (length rest)))) rest); [reflexivity|].
  f_equal. apply floats_of_groups_fuel; lia.
Qed.

(** The loop codes the bin number of each complete float, in order. *)
Lemma encode_floats_eq freqs U S : forall n fi g fo ks,
  (length fi <= n)%nat ->
  Forall2 (fun f k => Encoder.find_bin U (Z.of_nat (length freqs)) f = Ret k /\
                      valid_symbol freqs k) (floats_of fi) ks ->
  Z.of_nat (length freqs) < 2 ^ 64 ->
  Encoder.encode_floats fi
    (Encoder.mkBins (Z.of_nat (length freqs)) U S (cumfreqs freqs)) g fo
  = encode_all ks (cumfreqs freqs) g fo.
Proof.
  induction n as [|n IH]; intros fi g fo ks Hn Hks H64.
  - destruct fi; [|cbn in Hn; lia]. inversion Hks. reflexivity.
  - destruct fi as [|b0 [|b1 [|b2 [|b3 rest]]]];
      try (inversion Hks; reflexivity).
    rewrite floats_of_cons in Hks.
    destruct ks as [|k ks]; [inversion Hks|].
    apply Forall2_cons_iff in Hks. destruct Hks as [[Hk Hs] Hrest].
    cbn [Encoder.encode_floats Encoder.U Encoder.num_bins Encoder.c encode_all].
    rewrite Hk. cbn [bind]. destruct Hs as [Hs1 Hs2].
    rewrite (u64_small k) by lia. rewrite cumfreqs_length.
    destruct (arith_encode k (cumfreqs freqs) (Z.of_nat (length freqs)) g fo)
      as [[g1 fo1]| | | |]; cbn [bind]; try reflexivity.
    apply IH; [cbn [length] in Hn; lia | exact Hrest | exact H64].
Qed.

Lemma Forall2_valid {A} (P : A -> Z -> Prop) freqs fs ks :
  Forall2 (fun f k => P f k /\ valid_symbol freqs k) fs ks ->
  Forall (valid_symbol freqs) ks.
Proof.
  induction 1 as [|f k fs ks [_ Hs] _ IH]; constructor; assumption.
Qed.

(** A run started behind a header, closed, and decoded from the bytes
    after the header. *)
Lemma coded_run_after_header freqs hdr xs :
  valid_freqs freqs -> Z.of_nat (length freqs) <= 2 ^ 31 ->
  bytes hdr -> Forall (valid_symbol freqs) xs ->
  6 * Z.of_nat (length xs) < 2 ^ 32 ->
  exists g1 fo1 code,
    encode_all xs (cumfreqs freqs) (set_total initial (sum freqs)) hdr = Ret (g1, fo1) /\
    snd (encoder_close g1 fo1) = hdr ++ code /\
    decode freqs (length xs) code = Ret xs.
Proof.
  intros Hv Hlen Hhb Hxs Hshort.
  destruct (setup_inv freqs _ _ Hv (setup_ok freqs Hv)) as (_ & Hinv & Htot & _).
  set (g := set_total initial (sum freqs)) in *.
  assert (Hp : pending g hdr = hdr) by (unfold pending, held; cbn; apply app_nil_r).
  assert (Hroom : ff_room xs (cumfreqs freqs) g hdr)
    by (apply ff_room_short; assumption).
  assert (Hb : bytes (pending g hdr)) by (rewrite Hp; exact Hhb).
  destruct (encode_all_spec freqs Hv xs g hdr Hxs Hinv Htot Hroom Hb)
    as (g' & fp' & d & Hrun & Hinv' & _ & Hb' & Hlen' & _).
  destruct (encoder_close_spec g' fp' Hinv') as (w & Hw & Hwl & Hwb & _).
  set (stream := snd (encoder_close g' fp')) in *.
  assert (Hsb : bytes stream) by (rewrite Hw; apply bytes_app; split; assumption).
  (* the header stays in front *)
  assert (Hext : extends g hdr (fst (encoder_close g' fp')) stream).
  { eapply extends_trans; [|apply encoder_close_out].
    exact (extends_encode_all _ _ _ _ _ _ Hrun). }
  destruct Hext as (code & Ecode & _).
  assert (Hcl : (7 <= length code)%nat).
  { assert (Hl : length stream = (length hdr + d + 7)%nat)
      by (rewrite Hw, length_app, Hlen', Hp; lia).
    rewrite Ecode, length_app in Hl. lia. }
  assert (Hcb : bytes code).
  { rewrite Ecode in Hsb. apply bytes_app in Hsb. apply Hsb. }
  exists g', fp', code. split; [exact Hrun|]. split; [exact Ecode|].
  unfold decode. rewrite (setup_ok freqs Hv). cbn [bind]. fold g.
  pose proof (decoder_start_spec g code Hcb Hcl) as Hstart. cbv zeta in Hstart.
  destruct (decoder_start g code) as [gd rest]. cbn [fst snd] in Hstart.
  destruct Hstart as (S1 & S2 & S3 & S4). subst rest.
  destruct (decode_follows freqs Hv Hlen xs g hdr g' fp' gd Hxs Hinv Htot Hroom Hb Hrun)
    as (gd' & Hdec); try assumption.
  { fold stream. rewrite Hp, Ecode.
    rewrite firstn_app, firstn_all2 by lia.
    replace (length hdr + 7 - length hdr)%nat with 7%nat by lia.
    rewrite be_app, S2. unfold value. rewrite Hp.
    rewrite length_firstn, Nat.min_l by lia.
    change (L g) with 0. change (256 ^ Z.of_nat 7) with (2 ^ 56). lia. }
  fold stream in Hdec. rewrite Hp, Ecode in Hdec.
  rewrite skipn_app, skipn_all2 in Hdec by lia.
  replace (length hdr + 7 - length hdr)%nat with 7%nat in Hdec by lia.
  cbn [app] in Hdec. rewrite Hdec. reflexivity.
Qed.

End ToolRunFacts.

(** ** Reading the bins file *)

Module BinsFileFacts.
Import Coder CoderSpec FileSpec TableFacts DecoderFacts.

Lemma le_cons b l : Encoder.le (b :: l) = b + 256 * Encoder.le l.
Proof. reflexivity. Qed.

Lemma le_digits v k : forall a,
  0 <= v ->
  Encoder.le (map (fun i => (v / 256 ^ Z.of_nat i) mod 256) (seq a k))
  = (v / 256 ^ Z.of_nat a) mod 256 ^ Z.of_nat k.
Proof.
  induction k as [|k IH]; intros a Hv.
  - cbn [seq map Encoder.le fold_right]. change (256 ^ Z.of_nat 0) with 1.
    rewrite Z.mod_1_r. reflexivity.
  - cbn [seq map]. rewrite le_cons, IH by exact Hv.
    rewrite !Nat2Z.inj_succ, (Z.pow_succ_r 256 (Z.of_nat k)) by lia.
    rewrite (Z.pow_succ_r 256 (Z.of_nat a)) by lia.
    rewrite Z.rem_mul_r by (try apply Z.pow_nonzero; lia).
    rewrite (Z.mul_comm 256 (256 ^ Z.of_nat a)).
    rewrite <- Z.div_div by (try apply Z.pow_pos_nonneg; lia).
    reflexivity.
Qed.

Lemma le_size_bytes v : 0 <= v < 2 ^ 64 -> Encoder.le (size_bytes v) = v.
Proof.
  intros Hv. unfold size_bytes. rewrite le_digits by lia.
  change (256 ^ Z.of_nat 0) with 1. rewrite Z.div_1_r.
  apply Z.mod_small. exact Hv.
Qed.

Lemma length_size_bytes v : length (size_bytes v) = 8%nat.
Proof. reflexivity. Qed.

(** One item of [size] bytes at the front of the stream. *)
Lemma fread_one size bs rest :
  (0 < size)%nat -> length bs = size ->
  Encoder.fread size 1 (bs ++ rest) = (1, bs, rest).
Proof.
  intros Hs Hl. unfold Encoder.fread.
  assert (Hq : (1 <= length (bs ++ rest) / size)%nat).
  { rewrite length_app, Hl. apply Nat.div_le_lower_bound; lia. }
  rewrite Nat.min_l by exact Hq. cbn [Z.of_nat Pos.of_succ_nat].
  rewrite Nat.mul_1_l, <- Hl.
  rewrite firstn_app, Nat.sub_diag, firstn_all, skipn_app, Nat.sub_diag, skipn_all.
  cbn [firstn skipn app]. rewrite app_nil_r. reflexivity.
Qed.

(** No complete item in the stream. *)
Lemma fread_none size fb :
  (length fb < size)%nat -> fst (fst (Encoder.fread size 1 fb)) = 0.
Proof.
  intros Hl. unfold Encoder.fread. cbn [fst].
  rewrite Nat.div_small by exact Hl. reflexivity.
Qed.

Lemma read_size_t_ok v rest :
  0 <= v < 2 ^ 64 -> Encoder.read_size_t (size_bytes v ++ rest) = Ret (v, rest).
Proof.
  intros Hv. unfold Encoder.read_size_t.
  rewrite (fread_one 8 (size_bytes v) rest) by (try reflexivity; lia).
  cbn [Z.eqb negb Pos.eqb]. rewrite le_size_bytes by exact Hv. reflexivity.
Qed.

Lemma read_float_ok bs rest :
  length bs = 4%nat ->
  Encoder.read_float (bs ++ rest) = Ret (float_of_bits (Encoder.le bs), rest).
Proof.
  intros Hl. unfold Encoder.read_float.
  rewrite (fread_one 4 bs rest) by (try assumption; lia). reflexivity.
Qed.

Lemma read_pairs_ok rest : forall pairs,
  Forall (fun p => length (fst p) = 4%nat /\ length (snd p) = 4%nat) pairs ->
  Encoder.read_pairs (length pairs)
    (concat (map (fun p => fst p ++ snd p) pairs) ++ rest)
  = Ret (map (fun p => float_of_bits (Encoder.le (fst p))) pairs,
         map (fun p => float_of_bits (Encoder.le (snd p))) pairs, rest).
Proof.
  induction pairs as [|[u s] pairs IH]; intros Hp; [reflexivity|].
  inversion Hp as [|? ? [Hu Hs] Hp']; subst. cbn [fst snd] in Hu, Hs.
  cbn [length map concat Encoder.read_pairs fst snd].
  rewrite <- !app_assoc.
  rewrite (read_float_ok u) by exact Hu. cbn [bind].
  rewrite (read_float_ok s) by exact Hs. cbn [bind].
  rewrite (IH Hp'). reflexivity.
Qed.

Lemma read_freqs_ok rest : forall counts,
  Forall (fun c => 0 <= c < 2 ^ 64) counts ->
  Encoder.read_freqs (length counts) (concat (map size_bytes counts) ++ rest)
  = Ret (counts, rest).
Proof.
  induction counts as [|x counts IH]; intros Hc; [reflexivity|].
  inversion Hc as [|? ? Hx Hc']; subst.
  cbn [length map concat Encoder.read_freqs].
  rewrite <- app_assoc.
  rewrite read_size_t_ok by exact Hx. cbn [bind].
  rewrite (IH Hc'). reflexivity.
Qed.

Lemma each_below_sum l :
  Forall (fun c => 0 <= c) l -> Forall (fun c => 0 <= c <= sum l) l.
Proof.
  induction 1 as [|x l Hx Hl IH]; constructor.
  - pose proof (sum_nonneg l Hl). cbn [sum fold_right]. fold (sum l). lia.
  - eapply Forall_impl; [|exact IH]. cbn beta. intros c Hc.
    cbn [sum fold_right]. fold (sum l). lia.
Qed.

Lemma cum_total_cumfreqs counts :
  (0 < length counts)%nat -> Z.of_nat (length counts) < 2 ^ 64 ->
  Forall (fun c => 0 <= c) counts -> sum counts < 2 ^ 64 ->
  cum_total (cumfreqs counts) = Ret (sum counts).
Proof.
  intros Hn H64 Hpos Hsum. unfold cum_total.
  rewrite cumfreqs_length, u64_small by lia.
  unfold index.
  replace ((0 <=? Z.of_nat (length counts) - 1)
           && (Z.of_nat (length counts) - 1 <? Z.of_nat (length (cumfreqs counts))))
    with true
    by (symmetry; rewrite cumfreqs_length; apply andb_true_iff;
        split; [apply Z.leb_le | apply Z.ltb_lt]; lia).
  rewrite cumfreqs_nth by (try assumption; lia).
  replace (S (Z.to_nat (Z.of_nat (length counts) - 1))) with (length counts) by lia.
  rewrite cum_all. reflexivity.
Qed.

(** *** Streams that end too early *)

Lemma read_size_t_short fb :
  (length fb < 8)%nat -> Encoder.read_size_t fb = ExitFailure.
Proof.
  intros Hl. unfold Encoder.read_size_t.
  pose proof (fread_none 8 fb Hl) as H.
  destruct (Encoder.fread 8 1 fb) as [[n bs] rest]. cbn [fst] in H. subst n.
  reflexivity.
Qed.

Lemma read_float_short fb :
  (length fb < 4)%nat -> Encoder.read_float fb = ExitFailure.
Proof.
  intros Hl. unfold Encoder.read_float.
  pose proof (fread_none 4 fb Hl) as H.
  destruct (Encoder.fread 4 1 fb) as [[n bs] rest]. cbn [fst] in H. subst n.
  reflexivity.
Qed.

Lemma read_size_t_long fb :
  (8 <= length fb)%nat ->
  Encoder.read_size_t fb = Ret (Encoder.le (firstn 8 fb), skipn 8 fb).
Proof.
  intros Hl. unfold Encoder.read_size_t.
  rewrite <- (firstn_skipn 8 fb) at 1.
  rewrite (fread_one 8) by (rewrite ?length_firstn; lia). reflexivity.
Qed.

Lemma read_float_long fb :
  (4 <= length fb)%nat ->
  Encoder.read_float fb
  = Ret (float_of_bits (Encoder.le (firstn 4 fb)), skipn 4 fb).
Proof.
  intros Hl. unfold Encoder.read_float.
  rewrite <- (firstn_skipn 4 fb) at 1.
  rewrite (fread_one 4) by (rewrite ?length_firstn; lia). reflexivity.
Qed.

Lemma read_pairs_short k : forall fb,
  (length fb < 8 * k)%nat -> Encoder.read_pairs k fb = ExitFailure.
Proof.
  induction k as [|k IH]; intros fb Hl; [lia|].
  cbn [Encoder.read_pairs].
  destruct (Nat.lt_ge_cases (length fb) 4) as [H4 | H4].
  { rewrite read_float_short by exact H4. reflexivity. }
  rewrite read_float_long by exact H4. cbn [bind].
  destruct (Nat.lt_ge_cases (length (skipn 4 fb)) 4) as [H8 | H8].
  { rewrite read_float_short by exact H8. reflexivity. }
  rewrite read_float_long by exact H8. cbn [bind].
  rewrite IH; [reflexivity|]. rewrite length_skipn in H8. rewrite !length_skipn. lia.
Qed.

Lemma read_pairs_long k : forall fb,
  (8 * k <= length fb)%nat ->
  exists us ss, Encoder.read_pairs k fb = Ret (us, ss, skipn (8 * k) fb).
Proof.
  induction k as [|k IH]; intros fb Hl.
  - exists [], []. reflexivity.
  - cbn [Encoder.read_pairs].
    rewrite read_float_long by lia. cbn [bind].
    rewrite read_float_long by (rewrite length_skipn; lia). cbn [bind].
    destruct (IH (skipn 4 (skipn 4 fb))) as (us & ss & E);
      [rewrite !length_skipn; lia|].
    rewrite E. cbn [bind]. eexists. eexists. f_equal. f_equal.
    rewrite !skipn_skipn. f_equal. lia.
Qed.

Lemma read_freqs_short k : forall fb,
  (length fb < 8 * k)%nat -> Encoder.read_freqs k fb = ExitFailure.
Proof.
  induction k as [|k IH]; intros fb Hl; [lia|].
  cbn [Encoder.read_freqs].
  destruct (Nat.lt_ge_cases (length fb) 8) as [H8 | H8].
  { rewrite read_size_t_short by exact H8. reflexivity. }
  rewrite read_size_t_long by exact H8. cbn [bind].
  rewrite IH; [reflexivity|]. rewrite length_skipn. lia.
Qed.

End BinsFileFacts.

(** ** The counts of the Fixed Domain strategy *)

Module BalanceFacts.
Import Quantize CoderSpec TableFacts FixedDomainFacts.

(** FD gives every bin the quotient [nF / num_bins], and the middle bin
    or bins the remainder on top. *)
Lemma fixed_domain_balanced C0 num_bins F nF :
  num_bins = Z.of_nat (length C0) -> 1 <= num_bins < 2 ^ 64 ->
  0 <= nF < 2 ^ 64 ->
  exists C, bins_fixed_domain C0 num_bins F nF = Ret C /\
            length C = length C0 /\
            Forall (fun f => nF / num_bins <= f <= nF / num_bins + nF mod num_bins) C /\
            sum C = nF.
Proof.
  intros Hn Hnb HnF. unfold bins_fixed_domain, udiv.
  destruct (Z.eqb_spec num_bins 0) as [E | _]; [lia|]. cbn [bind].
  rewrite (u64_small (num_bins - 1)) by lia.
  set (step := nF / num_bins).
  set (h := Z.to_nat ((num_bins - 1) / 2)).
  assert (Hstep : 0 <= step) by (apply Z.div_pos; lia).
  assert (Hmul : step * num_bins <= nF) by (unfold step; rewrite Z.mul_comm; apply Z.mul_div_le; lia).
  pose proof (Z.div_mod (num_bins - 1) 2 ltac:(lia)) as Hdm.
  pose proof (Z.mod_pos_bound (num_bins - 1) 2 ltac:(lia)) as Hmb.
  assert (Hh : Z.of_nat h = (num_bins - 1) / 2)
    by (unfold h; apply Z2Nat.id; apply Z.div_pos; lia).
  assert (Hsofar : 0 <= 2 * step * Z.of_nat h <= nF) by nia.
  set (m := (length C0 - 2 * h)%nat).
  assert (Hm : (1 <= m <= 2)%nat) by lia.
  destruct (split_three C0 h m ltac:(lia)) as (A & Mid & B & EC & HA & HMid & HB).
  pose proof (fd_loop_spec step num_bins h 0 A Mid B 0 HA HB) as Hloop.
  cbn [repeat app Z.of_nat] in Hloop. rewrite app_nil_r, <- EC in Hloop.
  rewrite Hloop by (try lia). clear Hloop. cbn [bind Nat.add Z.add].
  unfold fill_middle.
  assert (Hhalf : num_bins / 2 = Z.of_nat h + (if num_bins mod 2 =? 0 then 1 else 0)).
  { pose proof (Z.div_mod num_bins 2 ltac:(lia)).
    pose proof (Z.mod_pos_bound num_bins 2 ltac:(lia)).
    destruct (Z.eqb_spec (num_bins mod 2) 0); lia. }
  rewrite (u64_small (nF - 2 * step * Z.of_nat h)) by lia.
  set (left := nF - 2 * step * Z.of_nat h) in *.
  assert (Hrem : nF mod num_bins = nF - step * num_bins)
    by (unfold step; rewrite Z.mod_eq by lia; lia).
  pose proof (Z.mod_pos_bound nF num_bins ltac:(lia)) as Hrb.
  rewrite Hrem in Hrb.
  pose proof (Z.div_mod left 2 ltac:(lia)) as Hl2m.
  pose proof (Z.mod_pos_bound left 2 ltac:(lia)) as Hl2b.
  destruct (Z.eqb_spec (num_bins mod 2) 0) as [Heven | Hodd].
  - (* two middle bins *)
    assert (Em : m = 2%nat).
    { pose proof (Z.div_mod num_bins 2 ltac:(lia)). lia. }
    destruct Mid as [|x [|y [|? ?]]]; cbn [length] in HMid; try lia.
    rewrite (u64_small (num_bins / 2 - 1)) by lia. cbn [app].
    rewrite (store_at (repeat step h) x (y :: repeat step h))
      by (rewrite repeat_length; lia).
    cbn [bind].
    unfold index. rewrite length_app. cbn [length]. rewrite repeat_length.
    replace ((0 <=? num_bins / 2 - 1) && (num_bins / 2 - 1 <? Z.of_nat (h + S (S h))))
      with true
      by (symmetry; apply andb_true_iff; split; [apply Z.leb_le | apply Z.ltb_lt]; lia).
    replace (Z.to_nat (num_bins / 2 - 1)) with h by lia.
    rewrite app_nth2 by (rewrite repeat_length; lia).
    rewrite repeat_length, Nat.sub_diag. cbn [nth bind].
    assert (Hl2 : 0 <= left / 2 <= left).
    { split; [apply Z.div_pos; lia|]. apply Z.div_le_upper_bound; lia. }
    rewrite (u64_small (left - left / 2)) by lia.
    assert (Eshape : repeat step h ++ (left / 2) :: y :: repeat step h
                     = (repeat step h ++ [left / 2]) ++ y :: repeat step h)
      by (rewrite <- app_assoc; reflexivity).
    rewrite Eshape.
    rewrite (store_at (repeat step h ++ [left / 2]) y (repeat step h))
      by (rewrite length_app, repeat_length; cbn [length]; lia).
    eexists. split; [reflexivity|]. repeat apply conj.
    + rewrite EC, !length_app. cbn [length]. rewrite ?length_app, ?repeat_length.
      cbn [length]. lia.
    + assert (Hp : step * num_bins
                   = 2 * step * Z.of_nat h + step * (num_bins - 2 * Z.of_nat h)) by ring.
      apply Forall_forall. intros z Hz. fold step. rewrite Hrem.
      unfold left in *. repeat in_cases; nia.
    + rewrite !sum_app, !sum_repeat. cbn [sum fold_right]. rewrite sum_repeat.
      unfold left. lia.
  - (* one middle bin *)
    assert (Em : m = 1%nat).
    { pose proof (Z.div_mod num_bins 2 ltac:(lia)).
      pose proof (Z.mod_pos_bound num_bins 2 ltac:(lia)). lia. }
    destruct Mid as [|x [|? ?]]; cbn [length] in HMid; try lia.
    cbn [app].
    rewrite (store_at (repeat step h) x (repeat step h))
      by (rewrite repeat_length; lia).
    eexists. split; [reflexivity|]. repeat apply conj.
    + rewrite EC, !length_app. cbn [length]. rewrite ?length_app, ?repeat_length.
      cbn [length]. lia.
    + assert (Hp : step * num_bins
                   = 2 * step * Z.of_nat h + step * (num_bins - 2 * Z.of_nat h)) by ring.
      apply Forall_forall. intros z Hz. fold step. rewrite Hrem.
      unfold left in *. repeat in_cases; nia.
    + rewrite !sum_app, !sum_repeat. cbn [sum fold_right]. rewrite sum_repeat.
      unfold left. lia.
Qed.

End BalanceFacts.

(** ** The layout of the bins file and the bounds it holds *)

Module LayoutFacts.
Import ToolSpec FileSpec Quantize CoderSpec TableFacts FloatOrder SearchFacts WriteFacts.

(** Every row of the table: the bound of bin [j] is the value before the
    start of bin [j+1]. *)
Lemma write_table_rows C F :
  Forall (fun f => 0 <= f) C -> sum C = Z.of_nat (length F) ->
  Z.of_nat (length F) < 2 ^ 64 -> 0 < nth 0 C 0 ->
  forall k i fb,
  (i + k = length C)%nat -> length fb = (2 + 2 * i)%nat ->
  exists fb',
    write_table k (Z.of_nat i) (start C i) C F fb = Ret (sum C, fb') /\
    length fb' = (2 + 2 * length C)%nat /\
    (forall p, (p < length fb)%nat -> nth_error fb' p = nth_error fb p) /\
    (forall j, (i <= j < length C)%nat ->
       written_bound fb' j
       = Some (float_datum (at_ F (Z.to_nat (start C (S j) - 1))))).
Proof.
  intros Hpos Hsum Hlen H0.
  induction k as [|k IH]; intros i fb Hik Hfb.
  - cbn [write_table]. exists fb.
    replace i with (length C) in * by lia. unfold start. rewrite firstn_all.
    split; [reflexivity|]. split; [lia|]. split; [reflexivity|]. intros j Hj. lia.
  - cbn [write_table].
    assert (Hi : (i < length C)%nat) by lia.
    rewrite index_nth by exact Hi. cbn [bind].
    set (ci := nth i C 0).
    assert (Hci : 0 <= ci).
    { unfold ci. rewrite Forall_forall in Hpos. apply Hpos. apply nth_In. exact Hi. }
    pose proof (start_bounds C i Hpos) as Hsi.
    pose proof (start_bounds C (S i) Hpos) as HsS.
    rewrite start_S in HsS by exact Hi. fold ci in HsS.
    assert (Hfirst : 0 < start C i + ci).
    { destruct i as [|i]; [unfold start, ci; cbn; lia|].
      pose proof (cum_mono C 1 (S i) Hpos ltac:(lia)) as Hm.
      unfold cum in Hm. fold (start C (S i)) in Hm.
      assert (sum (firstn 1 C) = nth 0 C 0) by (destruct C; cbn; lia).
      lia. }
    rewrite (u64_small (start C i + ci)) by lia.
    rewrite (u64_small (start C i + ci - 1)) by lia.
    rewrite (findex_at F (start C i + ci - 1)) by lia.
    set (ub := at_ F (Z.to_nat (start C i + ci - 1))).
    assert (Hrep : exists binrep,
      (if 0 <? ci
       then s <- bin_sum (Z.to_nat ci) F (start C i) zero ;; Ret (s / of_size_t ci)%float
       else Ret ub) = Ret binrep).
    { destruct (Z.ltb_spec 0 ci) as [Hp | Hz].
      - destruct (bin_sum_returns (Z.to_nat ci) F (start C i) zero) as (s & Hs); try lia.
        rewrite Hs. cbn [bind]. eexists. reflexivity.
      - exists ub. reflexivity. }
    destruct Hrep as (binrep & Hrep). rewrite Hrep. cbn [bind].
    replace (Z.of_nat i + 1) with (Z.of_nat (S i)) by lia.
    replace (start C i + ci) with (start C (S i)) in *
      by (rewrite start_S by exact Hi; reflexivity).
    set (fb2 := (fb ++ [float_datum ub]) ++ [float_datum (to_float binrep)]).
    assert (Hfb2 : length fb2 = (2 + 2 * S i)%nat).
    { unfold fb2. rewrite !length_app. cbn [length]. lia. }
    destruct (IH (S i) fb2 ltac:(lia) Hfb2) as (fb' & Hrun & Hl' & Hpre & Hrows).
    exists fb'. split; [exact Hrun|]. split; [exact Hl'|]. split.
    + intros p Hp. rewrite Hpre by lia. unfold fb2.
      rewrite <- app_assoc. apply nth_error_app1. exact Hp.
    + intros j Hj. destruct (Nat.eq_dec j i) as [-> | Hne].
      * unfold written_bound. rewrite Hpre by lia. unfold fb2.
        rewrite <- app_assoc. cbn [app].
        rewrite nth_error_app2 by lia.
        replace (2 + 2 * i - length fb)%nat with 0%nat by lia.
        cbn [nth_error]. unfold ub. rewrite (start_S C i) by exact Hi. reflexivity.
      * apply Hrows. lia.
Qed.

Lemma bounds_length C F : length (bounds C F) = length C.
Proof. unfold bounds. rewrite length_map, length_seq. reflexivity. Qed.

Lemma bounds_at C F j :
  (j < length C)%nat ->
  at_ (bounds C F) j = at_ F (Z.to_nat (start C (S j) - 1)).
Proof.
  intros Hj. unfold at_ at 1, bounds.
  rewrite (nth_indep _ nan (at_ F (Z.to_nat (start C (S 0) - 1))))
    by (rewrite length_map, length_seq; exact Hj).
  rewrite (map_nth (fun k => at_ F (Z.to_nat (start C (S k) - 1))) (seq 0 (length C)) 0%nat).
  rewrite seq_nth by exact Hj. reflexivity.
Qed.

(** Where the bound of bin [j] stands in [F]. *)
Lemma bound_position C (F : list float) j :
  Forall (fun f => 0 <= f) C -> sum C = Z.of_nat (length F) -> 0 < nth 0 C 0 ->
  (j < length C)%nat ->
  0 <= start C (S j) - 1 < Z.of_nat (length F).
Proof.
  intros Hpos Hsum H0 Hj.
  pose proof (start_bounds C (S j) Hpos) as Hb.
  pose proof (cum_mono C 1 (S j) Hpos ltac:(lia)) as Hm.
  unfold cum in Hm. fold (start C (S j)) in Hm.
  assert (sum (firstn 1 C) = nth 0 C 0) by (destruct C; cbn; lia).
  lia.
Qed.

Lemma bounds_nondecreasing C F :
  Forall (fun f => 0 <= f) C -> sum C = Z.of_nat (length F) -> 0 < nth 0 C 0 ->
  nondecreasing F -> Forall (fun x => fle x x) F ->
  nondecreasing (bounds C F).
Proof.
  intros Hpos Hsum H0 Hs Hrefl i Hi. rewrite bounds_length in Hi.
  rewrite !bounds_at by lia.
  pose proof (bound_position C F i Hpos Hsum H0 ltac:(lia)) as P1.
  pose proof (bound_position C F (S i) Hpos Hsum H0 ltac:(lia)) as P2.
  pose proof (cum_mono C (S i) (S (S i)) Hpos ltac:(lia)) as Hm.
  unfold cum in Hm. fold (start C (S i)) (start C (S (S i))) in Hm.
  destruct (Z.eq_dec (start C (S i)) (start C (S (S i)))) as [E | E].
  - rewrite E. rewrite Forall_forall in Hrefl. apply Hrefl. apply nth_In. lia.
  - apply nondecreasing_le; try assumption; lia.
Qed.

Lemma bounds_last C (F : list float) :
  (0 < length C)%nat -> sum C = Z.of_nat (length F) ->
  at_ (bounds C F) (length C - 1) = at_ F (length F - 1).
Proof.
  intros Hn Hsum. rewrite bounds_at by lia.
  replace (S (length C - 1)) with (length C) by lia.
  unfold start. rewrite firstn_all, Hsum. f_equal. lia.
Qed.

(** The whole file: two sizes, the table, the counts. *)
Lemma write_bins_layout C F :
  (0 < length C)%nat ->
  Forall (fun f => 0 <= f) C -> sum C = Z.of_nat (length F) ->
  Z.of_nat (length F) < 2 ^ 64 -> 0 < nth 0 C 0 ->
  exists fb,
    write_bins C (Z.of_nat (length C)) F (Z.of_nat (length F)) [] = Ret fb /\
    length fb = (2 + 3 * length C)%nat /\
    nth_error fb 0 = Some (size_datum 2) /\
    nth_error fb 1 = Some (size_datum (Z.of_nat (length C))) /\
    (forall j, (j < length C)%nat ->
       written_bound fb j = Some (float_datum (at_ (bounds C F) j)) /\
       nth_error fb (2 + 2 * length C + j) = Some (size_datum (nth j C 0))).
Proof.
  intros Hn Hpos Hsum Hlen H0. unfold write_bins. rewrite Nat2Z.id.
  destruct (write_table_rows C F Hpos Hsum Hlen H0 (length C) 0
              ([] ++ [size_datum 2] ++ [size_datum (Z.of_nat (length C))])
              ltac:(lia) eq_refl) as (fb' & Hrun & Hl' & Hpre & Hrows).
  change (start C 0) with 0 in Hrun. change (Z.of_nat 0) with 0 in Hrun.
  cbn [app] in Hrun, Hpre |- *. rewrite Hrun. cbn [bind].
  rewrite Hsum, Z.eqb_refl. cbn [assert bind].
  unfold write_freqs. rewrite Z.leb_refl, Nat2Z.id, firstn_all.
  eexists. split; [reflexivity|]. split; [|split; [|split]].
  - rewrite length_app, length_map. lia.
  - rewrite nth_error_app1 by lia. rewrite Hpre by (cbn; lia). reflexivity.
  - rewrite nth_error_app1 by lia. rewrite Hpre by (cbn; lia). reflexivity.
  - intros j Hj. split.
    + unfold written_bound. rewrite nth_error_app1 by lia.
      rewrite bounds_at by exact Hj. apply Hrows. lia.
    + rewrite nth_error_app2 by lia.
      replace (2 + 2 * length C + j - length fb')%nat with j by lia.
      rewrite nth_error_map.
      rewrite (nth_error_nth' C 0) by exact Hj. reflexivity.
Qed.

(** The bin the search finds for a value of [F] is not empty. *)
Lemma value_finds_nonempty_bin C F j :
  (0 < length C)%nat -> Z.of_nat (length C) <= 2 ^ 31 ->
  Forall (fun f => 0 <= f) C -> sum C = Z.of_nat (length F) -> 0 < nth 0 C 0 ->
  nondecreasing F -> Forall (fun x => fle x x) F ->
  (j < length F)%nat ->
  exists k,
    Encoder.find_bin (bounds C F) (Z.of_nat (length C)) (at_ F j) = Ret (Z.of_nat k) /\
    (k < length C)%nat /\ 0 < nth k C 0 /\
    fle (at_ F j) (at_ (bounds C F) k).
Proof.
  intros Hn H31 Hpos Hsum H0 Hs Hrefl Hj.
  pose proof (bounds_nondecreasing C F Hpos Hsum H0 Hs Hrefl) as HsU.
  pose proof (bounds_length C F) as HlU.
  assert (Hlast : fle (at_ F j) (at_ (bounds C F) (length (bounds C F) - 1))).
  { rewrite HlU, bounds_last by assumption.
    destruct (Nat.eq_dec j (length F - 1)) as [-> | Hne].
    - rewrite Forall_forall in Hrefl. apply Hrefl. apply nth_In. lia.
    - apply nondecreasing_le; try assumption; lia. }
  destruct (find_bin_spec (bounds C F) (at_ F j)) as (k & Hr & Hk & Hle & _ & Hmin);
    try assumption; [rewrite HlU; exact H31|].
  rewrite HlU in Hr, Hk.
  exists k. split; [exact Hr|]. split; [exact Hk|]. split; [|exact Hle].
  destruct k as [|k]; [exact H0|].
  destruct (Z_lt_dec 0 (nth (S k) C 0)) as [Hp | Hz]; [exact Hp|].
  exfalso. apply (Hmin k ltac:(lia)).
  rewrite bounds_at in Hle |- * by lia.
  rewrite (start_S C (S k)) in Hle by lia.
  assert (Hck : nth (S k) C 0 = 0).
  { rewrite Forall_forall in Hpos.
    pose proof (Hpos (nth (S k) C 0) ltac:(apply nth_In; lia)). lia. }
  rewrite Hck, Z.add_0_r in Hle. exact Hle.
Qed.

End LayoutFacts.

(** ** The counts of Fixed Range and Central Fixed Range *)

Module RangeFacts.
Import ToolSpec QuantizeSpec Quantize CoderSpec TableFacts FloatOrder SearchFacts
  FixedDomainFacts.

Section Counting.

Variable F : list float.
Variable nF : Z.
Hypothesis HnF : nF <= Z.of_nat (length F).
Hypothesis Hn64 : nF < 2 ^ 64.

(** The inner loop takes the values below [bound], in order, and stops
    at the first that is not, or at the end. *)
Lemma fr_count_spec bound : forall fuel iF cnt,
  0 <= iF <= nF -> nF - iF <= Z.of_nat fuel ->
  0 <= cnt -> cnt + (nF - iF) < 2 ^ 64 ->
  exists d, 0 <= d <= nF - iF /\
    fr_count fuel F nF iF cnt bound = Ret (iF + d, cnt + d) /\
    (iF + d < nF -> (at_ F (Z.to_nat (iF + d)) <? bound)%float = false).
Proof.
  induction fuel as [|fuel IH]; intros iF cnt HiF Hfuel Hcnt Hroom; cbn [fr_count].
  - replace (iF <? nF) with false by (symmetry; apply Z.ltb_ge; lia).
    exists 0. rewrite !Z.add_0_r. split; [lia|]. split; [reflexivity | lia].
  - destruct (Z.ltb_spec iF nF) as [Hlt | Hge].
    + rewrite findex_at by lia. cbn [bind].
      destruct (at_ F (Z.to_nat iF) <? bound)%float eqn:E.
      * rewrite (u64_small (iF + 1)), (u64_small (cnt + 1)) by lia.
        destruct (IH (iF + 1) (cnt + 1)) as (d & Hd & Hrun & Hstop); try lia.
        exists (d + 1). split; [lia|].
        replace (iF + (d + 1)) with (iF + 1 + d) by lia.
        replace (cnt + (d + 1)) with (cnt + 1 + d) by lia.
        split; [exact Hrun | exact Hstop].
      * exists 0. rewrite !Z.add_0_r. split; [lia|]. split; [reflexivity|].
        intros _. exact E.
    + exists 0. rewrite !Z.add_0_r. split; [lia|]. split; [reflexivity | lia].
Qed.

(** The outer loop fills the next [k] entries of [C] and leaves the rest
    as it was; the entries add up to the number of values taken.  When
    every value is below the last bound, all are taken. *)
Lemma fr_loop_spec minF interval k : forall A Rest Tail iF,
  length Rest = k -> 0 <= iF <= nF ->
  Z.of_nat (length A + k) < 2 ^ 64 ->
  exists cs,
    fr_loop k (Z.of_nat (length A)) iF (A ++ Rest ++ Tail) F nF minF interval
    = Ret (A ++ cs ++ Tail) /\
    length cs = k /\ Forall (fun f => 0 <= f) cs /\ iF + sum cs <= nF /\
    ((0 < k)%nat ->
     (forall j, 0 <= j < nF ->
        (at_ F (Z.to_nat j)
         <? minF + of_size_t (Z.of_nat (length A + k)) * interval)%float = true) ->
     iF + sum cs = nF).
Proof.
  induction k as [|k IH]; intros A Rest Tail iF HR HiF H64.
  - destruct Rest; [|discriminate]. exists []. cbn [fr_loop app sum fold_right].
    split; [reflexivity|]. split; [reflexivity|]. split; [constructor|].
    split; [lia|]. intros H; lia.
  - destruct Rest as [|x Rest]; [discriminate|]. cbn [length] in HR.
    cbn [fr_loop app].
    rewrite store_at by reflexivity. cbn [bind].
    set (bound := (minF + of_size_t (u64 (Z.of_nat (length A) + 1)) * interval)%float).
    destruct (fr_count_spec bound (Z.to_nat (nF - iF)) iF 0)
      as (d & Hd & Hrun & Hstop); try lia.
    rewrite Hrun. cbn [bind]. rewrite Z.add_0_l.
    rewrite store_at by reflexivity. cbn [bind].
    replace (Z.of_nat (length A) + 1) with (Z.of_nat (length (A ++ [d])))
      by (rewrite length_app; cbn [length]; lia).
    replace (A ++ d :: Rest ++ Tail) with ((A ++ [d]) ++ Rest ++ Tail)
      by (rewrite <- app_assoc; reflexivity).
    destruct (IH (A ++ [d]) Rest Tail (iF + d)) as (cs & Hloop & Hl & Hpos & Hsum & Hall);
      try lia.
    { rewrite length_app. cbn [length]. lia. }
    rewrite Hloop. exists (d :: cs).
    split; [rewrite <- app_assoc; reflexivity|].
    split; [cbn [length]; lia|].
    split; [constructor; [lia | exact Hpos]|].
    cbn [sum fold_right]. fold (sum cs).
    split; [lia|].
    intros _ Hbelow. destruct k as [|k].
    + (* the last bin *)
      destruct cs; [|discriminate]. cbn [sum fold_right].
      destruct (Z_lt_dec (iF + d) nF) as [Hlt | Hge]; [|lia].
      exfalso. specialize (Hstop Hlt). specialize (Hbelow (iF + d) ltac:(lia)).
      unfold bound in Hstop.
      rewrite (u64_small (Z.of_nat (length A) + 1)) in Hstop by lia.
      replace (Z.of_nat (length A + 1)) with (Z.of_nat (length A) + 1) in Hbelow by lia.
      congruence.
    + rewrite Z.add_assoc. apply Hall; [lia|].
      rewrite length_app. cbn [length].
      replace (length A + 1 + S k)%nat with (length A + S (S k))%nat by lia.
      exact Hbelow.
Qed.

(** The counts the outer loop stores depend on the values and on the
    position only: not on what the array held, nor on what follows the
    entries it fills. *)
Lemma fr_loop_counts minF interval k : forall a iF,
  0 <= iF <= nF -> Z.of_nat (a + k) < 2 ^ 64 ->
  exists cs, length cs = k /\
    forall A Rest Tail, length A = a -> length Rest = k ->
      fr_loop k (Z.of_nat a) iF (A ++ Rest ++ Tail) F nF minF interval
      = Ret (A ++ cs ++ Tail).
Proof.
  induction k as [|k IH]; intros a iF HiF H64.
  - exists []. split; [reflexivity|]. intros A Rest Tail HA HR.
    destruct Rest; [|discriminate]. reflexivity.
  - set (bound := (minF + of_size_t (u64 (Z.of_nat a + 1)) * interval)%float).
    destruct (fr_count_spec bound (Z.to_nat (nF - iF)) iF 0)
      as (d & Hd & Hrun & _); try lia.
    destruct (IH (S a) (iF + d)) as (cs & Hl & Hall); try lia.
    exists (d :: cs). split; [cbn [length]; lia|].
    intros A Rest Tail HA HR. destruct Rest as [|x Rest]; [discriminate|].
    cbn [length] in HR. cbn [fr_loop app].
    rewrite store_at by lia. cbn [bind].
    fold bound. rewrite Hrun. cbn [bind]. rewrite Z.add_0_l.
    rewrite store_at by lia. cbn [bind].
    replace (Z.of_nat a + 1) with (Z.of_nat (S a)) by lia.
    replace (A ++ d :: Rest ++ Tail) with ((A ++ [d]) ++ Rest ++ Tail)
      by (rewrite <- app_assoc; reflexivity).
    rewrite (Hall (A ++ [d]) Rest Tail)
      by (try (rewrite length_app; cbn [length]); lia).
    rewrite <- app_assoc. reflexivity.
Qed.

End Counting.

(** Fixed Range on the first [length C0] entries of an array. *)
Lemma fixed_range_spec C0 Tail F nF :
  1 <= nF <= Z.of_nat (length F) -> nF < 2 ^ 64 ->
  Z.of_nat (length C0) < 2 ^ 64 ->
  exists cs,
    bins_fixed_range (C0 ++ Tail) (Z.of_nat (length C0)) F nF = Ret (cs ++ Tail) /\
    length cs = length C0 /\ Forall (fun f => 0 <= f) cs /\ sum cs <= nF /\
    ((0 < length C0)%nat ->
     (forall j, 0 <= j < nF ->
        flt (at_ F (Z.to_nat j)) (fr_top (Z.of_nat (length C0)) F nF)) ->
     sum cs = nF).
Proof.
  intros HnF H64 HC. unfold bins_fixed_range.
  rewrite findex_at by lia. cbn [bind].
  rewrite (u64_small (nF - 1)) by lia.
  rewrite findex_at by lia. cbn [bind]. rewrite Nat2Z.id.
  set (minF := (at_ F (Z.to_nat 0) - EPS)%float).
  set (interval := ((at_ F (Z.to_nat (nF - 1)) + EPS - minF)
                    / of_size_t (Z.of_nat (length C0)))%float).
  destruct (fr_loop_spec F nF ltac:(lia) H64 minF interval (length C0) [] C0 Tail 0
              eq_refl ltac:(lia) ltac:(cbn [length Nat.add]; exact HC))
    as (cs & Hloop & Hl & Hpos & Hsum & Hall).
  cbn [app length Z.of_nat Nat.add] in Hloop, Hall.
  exists cs. split; [exact Hloop|]. split; [exact Hl|]. split; [exact Hpos|].
  split; [lia|]. intros Hn Hbelow.
  rewrite <- (Hall Hn); [lia|]. exact Hbelow.
Qed.

(** The counts of Fixed Range for [k] bins are the same on every array. *)
Lemma fixed_range_counts k F nF :
  1 <= nF <= Z.of_nat (length F) -> nF < 2 ^ 64 -> Z.of_nat k < 2 ^ 64 ->
  exists cs, length cs = k /\
    forall C0 Tail, length C0 = k ->
      bins_fixed_range (C0 ++ Tail) (Z.of_nat k) F nF = Ret (cs ++ Tail).
Proof.
  intros HnF H64 Hk.
  set (minF := (at_ F (Z.to_nat 0) - EPS)%float).
  set (interval := ((at_ F (Z.to_nat (nF - 1)) + EPS - minF)
                    / of_size_t (Z.of_nat k))%float).
  destruct (fr_loop_counts F nF ltac:(lia) H64 minF interval k 0%nat 0
              ltac:(lia) ltac:(cbn [Nat.add]; exact Hk))
    as (cs & Hl & Hall).
  exists cs. split; [exact Hl|]. intros C0 Tail HC.
  unfold bins_fixed_range.
  rewrite findex_at by lia. cbn [bind].
  rewrite (u64_small (nF - 1)) by lia.
  rewrite findex_at by lia. cbn [bind]. rewrite Nat2Z.id.
  exact (Hall [] C0 Tail eq_refl HC).
Qed.

(** [for (i=0; i<singles; i++) { C[i] = 1; C[num_bins-i-1] = 1; }] *)
Lemma skinny_loop_spec num_bins k : forall i A Mid B,
  length A = k -> length B = k ->
  num_bins = Z.of_nat (2 * i + 2 * k + length Mid) -> num_bins < 2 ^ 64 ->
  skinny_loop k (Z.of_nat i) (repeat 1 i ++ A ++ Mid ++ B ++ repeat 1 i) num_bins
  = Ret (repeat 1 (i + k) ++ Mid ++ repeat 1 (i + k)).
Proof.
  induction k as [|k IH]; intros i A Mid B HA HB Hn Hnb.
  - destruct A; [|discriminate]. destruct B; [|discriminate].
    cbn [skinny_loop app]. rewrite Nat.add_0_r. reflexivity.
  - destruct A as [|a A]; [discriminate|].
    destruct (exists_last (l := B)) as (B' & b & ->); [intros ->; discriminate|].
    rewrite length_app in HB. cbn [length] in HA, HB.
    cbn [skinny_loop].
    cbn [app]. rewrite store_at by (rewrite repeat_length; reflexivity).
    cbn [bind].
    rewrite (u64_small (num_bins - Z.of_nat i)) by lia.
    rewrite (u64_small (num_bins - Z.of_nat i - 1)) by lia.
    replace (repeat 1 i ++ 1 :: A ++ Mid ++ (B' ++ [b]) ++ repeat 1 i)
      with ((repeat 1 i ++ 1 :: A ++ Mid ++ B') ++ b :: repeat 1 i)
      by (rewrite <- !app_assoc; cbn [app]; rewrite <- !app_assoc; reflexivity).
    rewrite store_at
      by (rewrite !length_app; cbn [length]; rewrite !length_app, repeat_length; lia).
    cbn [bind].
    rewrite <- app_assoc. cbn [app].
    replace (Z.of_nat i + 1) with (Z.of_nat (S i)) by lia.
    rewrite wrap_step, <- !app_assoc.
    rewrite IH; try lia.
    replace (S i + k)%nat with (i + S k)%nat by lia. reflexivity.
Qed.

(** Central Fixed Range: ones on both sides, Fixed Range in between. *)
Lemma fixed_skinny_spec C0 F :
  let num_bins := Z.of_nat (length C0) in
  let nF := Z.of_nat (length F) in
  let singles := num_bins / 4 in
  let s := Z.to_nat singles in
  1 <= num_bins < 2 ^ 64 -> 2 * singles < nF -> nF < 2 ^ 64 ->
  exists cs,
    bins_fixed_skinny C0 num_bins F nF = Ret (repeat 1 s ++ cs ++ repeat 1 s) /\
    (length cs + 2 * s = length C0)%nat /\
    Forall (fun f => 0 <= f) cs /\ sum cs <= nF - 2 * singles /\
    ((forall j, 0 <= j < nF - 2 * singles ->
        flt (at_ (skipn s F) (Z.to_nat j))
            (fr_top (num_bins - 2 * singles) (skipn s F) (nF - 2 * singles))) ->
     sum cs = nF - 2 * singles) /\
    (forall M Tail, length M = length cs ->
       bins_fixed_range (M ++ Tail) (Z.of_nat (length M)) (skipn s F)
         (nF - 2 * singles) = Ret (cs ++ Tail)).
Proof.
  intros num_bins nF singles s Hnb Hs HnF.
  assert (Hsing : 0 <= singles /\ 4 * singles <= num_bins).
  { unfold singles. split; [apply Z.div_pos; lia | apply Z.mul_div_le; lia]. }
  assert (Es : Z.of_nat s = singles) by (unfold s; lia).
  destruct (split_three C0 s (length C0 - 2 * s)) as (A & Mid & B & EC & HA & HMid & HB);
    [unfold num_bins in *; lia|].
  unfold bins_fixed_skinny. fold singles. fold s.
  pose proof (skinny_loop_spec num_bins s 0 A Mid B HA HB) as Hloop.
  cbn [repeat app Z.of_nat Nat.add] in Hloop. rewrite app_nil_r, <- EC in Hloop.
  rewrite Hloop by (unfold num_bins in *; lia). clear Hloop. cbn [bind].
  rewrite (u64_small (2 * singles)) by lia.
  rewrite (u64_small (num_bins - 2 * singles)) by lia.
  rewrite (u64_small (nF - 2 * singles)) by lia.
  rewrite skipn_app, skipn_all2 by (rewrite repeat_length; lia).
  rewrite repeat_length, Nat.sub_diag. cbn [skipn app].
  rewrite firstn_app, firstn_all2 by (rewrite repeat_length; lia).
  rewrite repeat_length, Nat.sub_diag. cbn [firstn]. rewrite app_nil_r.
  replace (num_bins - 2 * singles) with (Z.of_nat (length Mid))
    by (unfold num_bins; lia).
  destruct (fixed_range_spec Mid (repeat 1 s) (skipn s F) (nF - 2 * singles))
    as (cs & Hrun & Hl & Hpos & Hsum & Hall).
  { rewrite length_skipn. unfold nF in *. lia. }
  { lia. }
  { unfold num_bins in *. lia. }
  destruct (fixed_range_counts (length Mid) (skipn s F) (nF - 2 * singles))
    as (cs' & Hl' & Hsame).
  { rewrite length_skipn. unfold nF in *. lia. }
  { lia. }
  { unfold num_bins in *. lia. }
  assert (Ecs : cs' = cs).
  { pose proof (Hsame Mid (repeat 1 s) eq_refl) as Hrun'.
    rewrite Hrun in Hrun'. inversion Hrun' as [Happ].
    apply app_inv_tail in Happ. symmetry. exact Happ. }
  subst cs'.
  rewrite Hrun. cbn [bind]. exists cs.
  split; [reflexivity|]. split; [lia|]. split; [exact Hpos|]. split; [exact Hsum|].
  split.
  - intros Hbelow. apply Hall; [unfold num_bins in *; lia | exact Hbelow].
  - intros M Tail HM. rewrite HM, Hl. apply Hsame. lia.
Qed.

End RangeFacts.

(** ** The sortedness check and the report *)

Module ReportFacts.
Import ToolSpec QuantizeSpec Quantize QuantizeReport CoderSpec TableFacts FloatOrder
  SearchFacts WriteFacts.

(** The check passes when every value is at or below the next, and stops
    at a failed assertion otherwise. *)
Lemma sorted_loop_spec F k : forall i,
  0 <= i -> i + Z.of_nat k < Z.of_nat (length F) -> i + Z.of_nat k <= INT_MAX ->
  (sorted_loop k i F = Ret tt /\
   forall j, (Z.to_nat i <= j < Z.to_nat i + k)%nat -> fle (at_ F j) (at_ F (S j))) \/
  (sorted_loop k i F = AssertFailure /\
   exists j, (Z.to_nat i <= j < Z.to_nat i + k)%nat /\ ~ fle (at_ F j) (at_ F (S j))).
Proof.
  induction k as [|k IH]; intros i Hi Hlen Hmax.
  - left. split; [reflexivity|]. intros j Hj. lia.
  - cbn [sorted_loop].
    replace (i + 1 <=? INT_MAX) with true by (symmetry; apply Z.leb_le; lia).
    rewrite findex_at by lia. cbn [bind].
    rewrite findex_at by lia. cbn [bind].
    replace (Z.to_nat (i + 1)) with (S (Z.to_nat i)) by lia.
    destruct (at_ F (Z.to_nat i) <=? at_ F (S (Z.to_nat i)))%float eqn:E;
      cbn [assert bind].
    + destruct (IH (i + 1)) as [[Hr Hall] | [Hr (j & Hj & Hbad)]]; try lia.
      * left. split; [exact Hr|]. intros j Hj.
        destruct (Nat.eq_dec j (Z.to_nat i)) as [-> | Hne]; [exact E|].
        apply Hall. lia.
      * right. split; [exact Hr|]. exists j. split; [lia | exact Hbad].
    + right. split; [reflexivity|]. exists (Z.to_nat i). split; [lia|].
      unfold fle. rewrite E. discriminate.
Qed.

(** Without values the first comparison reads [F[0]]. *)
Lemma check_sorted_empty : check_sorted [] 0 = Undefined.
Proof.
  unfold check_sorted.
  destruct (Z.to_nat (u64 (0 - 1))) as [|k] eqn:E.
  - exfalso. change (u64 (0 - 1)) with (2 ^ 64 - 1) in E. lia.
  - reflexivity.
Qed.

(** *** What the loops of the report can come to *)

Lemma findex_outcome F i : returns_or_undefined (findex F i).
Proof.
  unfold findex. destruct ((0 <=? i) && (i <? Z.of_nat (length F)));
    [left; eexists; reflexivity | right; reflexivity].
Qed.

Lemma index_outcome C i : returns_or_undefined (index C i).
Proof.
  unfold index. destruct ((0 <=? i) && (i <? Z.of_nat (length C)));
    [left; eexists; reflexivity | right; reflexivity].
Qed.

Lemma bind_outcome {A B} (m : outcome A) (k : A -> outcome B) :
  returns_or_undefined m -> (forall a, returns_or_undefined (k a)) ->
  returns_or_undefined (bind m k).
Proof.
  intros [[a ->] | ->] Hk; [apply Hk | right; reflexivity].
Qed.

Lemma bin_sum_outcome k : forall F j acc, returns_or_undefined (bin_sum k F j acc).
Proof.
  induction k as [|k IH]; intros F j acc; cbn [bin_sum].
  - left. eexists. reflexivity.
  - apply bind_outcome; [apply findex_outcome | intros x; apply IH].
Qed.

Lemma add_errors_outcome k : forall F j r acc,
  returns_or_undefined (add_errors k F j r acc).
Proof.
  induction k as [|k IH]; intros F j r acc; cbn [add_errors].
  - left. eexists. reflexivity.
  - apply bind_outcome; [apply findex_outcome | intros x; apply IH].
Qed.

Lemma add_errors_returns k : forall F j r acc,
  0 <= j -> j + Z.of_nat k <= Z.of_nat (length F) -> Z.of_nat (length F) < 2 ^ 64 ->
  exists s, add_errors k F j r acc = Ret s.
Proof.
  induction k as [|k IH]; intros F j r acc Hj Hk Hlen; cbn [add_errors].
  - exists acc. reflexivity.
  - rewrite findex_at by lia. cbn [bind].
    rewrite u64_small by lia. apply IH; lia.
Qed.

Lemma count_empty_outcome k : forall i strt e C F,
  returns_or_undefined (count_empty k i strt e C F).
Proof.
  induction k as [|k IH]; intros i strt e C F; cbn [count_empty].
  - left. eexists. reflexivity.
  - apply bind_outcome; [apply index_outcome | intros ci].
    apply bind_outcome; [apply findex_outcome | intros a].
    apply bind_outcome; [apply findex_outcome | intros b].
    apply IH.
Qed.

(** One pass of the second loop on a bin. *)
Lemma report_step_outcome ci F strt maxerror avgerror :
  returns_or_undefined
    (if 0 <? ci then
       lo <- findex F strt ;;
       hi <- findex F (u64 (u64 (strt + ci) - 1)) ;;
       s <- bin_sum (Z.to_nat ci) F strt zero ;;
       let binrep := (s / of_size_t ci)%float in
       let error := (binrep - lo)%float in
       let error := if (error <? hi - binrep)%float
                    then (hi - binrep)%float else error in
       let maxerror := if (maxerror <? error)%float then error else maxerror in
       avgerror <- add_errors (Z.to_nat ci) F strt binrep avgerror ;;
       Ret (maxerror, avgerror)
     else Ret (maxerror, avgerror)).
Proof.
  destruct (0 <? ci); [|left; eexists; reflexivity].
  apply bind_outcome; [apply findex_outcome | intros lo].
  apply bind_outcome; [apply findex_outcome | intros hi].
  apply bind_outcome; [apply bin_sum_outcome | intros s]. cbv zeta.
  apply bind_outcome; [apply add_errors_outcome | intros a].
  left. eexists. reflexivity.
Qed.

(** When the counts that are left do not reach [nF], the second loop
    runs off the end of [C]. *)
Lemma report_loop_short F nF : forall rest strt maxerror avgerror,
  Forall (fun f => 0 <= f) rest -> 0 <= strt -> strt + sum rest < nF -> nF <= 2 ^ 64 ->
  report_loop rest strt F nF maxerror avgerror = Undefined.
Proof.
  induction rest as [|ci rest IH]; intros strt m a Hpos Hs Hsum HnF;
    cbn [report_loop sum fold_right] in *.
  - replace (strt <? nF) with true by (symmetry; apply Z.ltb_lt; lia). reflexivity.
  - fold (sum rest) in Hsum. inversion Hpos as [|? ? Hci Hpos']; subst.
    pose proof (sum_nonneg rest Hpos') as Hr.
    replace (strt <? nF) with true by (symmetry; apply Z.ltb_lt; lia).
    match goal with |- bind ?X _ = _ =>
      assert (HX : returns_or_undefined X) by apply report_step_outcome;
      destruct HX as [[[m' a'] E] | E]; rewrite E end;
      cbn [bind]; [|reflexivity].
    apply IH; try assumption; rewrite u64_small by lia; lia.
Qed.

Lemma skipn_nth_cons (C : list Z) : forall i d,
  (i < length C)%nat -> skipn i C = nth i C d :: skipn (S i) C.
Proof.
  induction C as [|x C IH]; intros i d Hi; [cbn in Hi; lia|].
  destruct i as [|i]; [reflexivity|].
  cbn [skipn nth]. apply IH. cbn [length] in Hi. lia.
Qed.

(** When the counts add up to [nF], the second loop ends with
    [strt = nF]. *)
Lemma report_loop_exact C F :
  Forall (fun f => 0 <= f) C -> sum C = Z.of_nat (length F) ->
  Z.of_nat (length F) < 2 ^ 64 ->
  forall k i maxerror avgerror,
  (i + k = length C)%nat ->
  exists m a,
    report_loop (skipn i C) (start C i) F (Z.of_nat (length F)) maxerror avgerror
    = Ret (Z.of_nat (length F), m, a).
Proof.
  intros Hpos Hsum Hlen. induction k as [|k IH]; intros i m a Hik.
  - replace i with (length C) by lia. rewrite skipn_all.
    unfold start. rewrite firstn_all, Hsum. cbn [report_loop].
    rewrite Z.ltb_irrefl. eexists. eexists. reflexivity.
  - assert (Hi : (i < length C)%nat) by lia.
    rewrite (skipn_nth_cons C i 0 Hi).
    cbn [report_loop].
    pose proof (start_bounds C i Hpos) as Hsi.
    pose proof (start_bounds C (S i) Hpos) as HsS.
    rewrite start_S in HsS by exact Hi.
    set (ci := nth i C 0) in *.
    assert (Hci : 0 <= ci).
    { unfold ci. rewrite Forall_forall in Hpos. apply Hpos. apply nth_In. exact Hi. }
    destruct (Z.ltb_spec (start C i) (Z.of_nat (length F))) as [Hlt | Hge].
    + match goal with |- exists _ _, bind ?X _ = _ =>
        assert (Hstep : exists m' a', X = Ret (m', a')) end.
      { destruct (Z.ltb_spec 0 ci) as [Hp | Hz]; [|eexists; eexists; reflexivity].
        rewrite findex_at by lia. cbn [bind].
        rewrite (u64_small (start C i + ci)), (u64_small (start C i + ci - 1)) by lia.
        rewrite findex_at by lia. cbn [bind].
        destruct (bin_sum_returns (Z.to_nat ci) F (start C i) zero) as (s & Hs); try lia.
        rewrite Hs. cbn [bind]. cbv zeta.
        match goal with |- context [add_errors ?k ?F ?j ?r ?acc] =>
          destruct (add_errors_returns k F j r acc) as (s' & Hs'); try lia;
          rewrite Hs' end.
        cbn [bind]. eexists. eexists. reflexivity. }
      destruct Hstep as (m' & a' & Hstep). rewrite Hstep. cbn [bind].
      rewrite (u64_small (start C i + ci)) by lia.
      replace (start C i + ci) with (start C (S i))
        by (rewrite start_S by exact Hi; reflexivity).
      apply IH. lia.
    + eexists. eexists. do 2 f_equal. f_equal. lia.
Qed.

(** The first loop reads [F] at the start of each bin from the second
    on; all those positions lie in [F] exactly when the last bin starts
    inside [F]. *)
Lemma count_empty_spec C F :
  Forall (fun f => 0 <= f) C -> sum C <= Z.of_nat (length F) ->
  Z.of_nat (length F) < 2 ^ 64 ->
  forall k i e,
  (i + k < length C)%nat ->
  (start C (i + k) < Z.of_nat (length F) ->
   exists e', count_empty k (Z.of_nat i) (start C i) e C F = Ret e') /\
  ((0 < k)%nat -> Z.of_nat (length F) <= start C (i + k) ->
   count_empty k (Z.of_nat i) (start C i) e C F = Undefined).
Proof.
  intros Hpos Hsum Hlen. induction k as [|k IH]; intros i e Hik.
  - split; [intros _; exists e; reflexivity | lia].
  - cbn [count_empty].
    rewrite index_nth by lia. cbn [bind].
    pose proof (start_bounds C i Hpos) as Hsi.
    pose proof (start_bounds C (S i) Hpos) as HsS.
    pose proof (cum_mono C (S i) (i + S k) Hpos ltac:(lia)) as Hm.
    unfold cum in Hm. fold (start C (S i)) (start C (i + S k)) in Hm.
    pose proof (cum_mono C i (S i) Hpos ltac:(lia)) as Hm0.
    unfold cum in Hm0. fold (start C i) (start C (S i)) in Hm0.
    rewrite (u64_small (start C i + nth i C 0))
      by (rewrite <- start_S by lia; lia).
    rewrite <- start_S by lia.
    replace (Z.of_nat i + 1) with (Z.of_nat (S i)) by lia.
    replace (i + S k)%nat with (S i + k)%nat in * by lia.
    destruct (IH (S i)
                (if (at_ F (Z.to_nat (start C i)) =? at_ F (Z.to_nat (start C (S i))))%float
                 then u64 (e + 1) else e) ltac:(lia)) as [IH1 IH2].
    split.
    + intros Hin.
      rewrite findex_at by lia. cbn [bind].
      rewrite findex_at by lia. cbn [bind].
      apply IH1. exact Hin.
    + intros _ Hout.
      destruct (Z_lt_dec (start C i) (Z.of_nat (length F))) as [H1 | H1].
      * rewrite findex_at by lia. cbn [bind].
        destruct (Z_lt_dec (start C (S i)) (Z.of_nat (length F))) as [H2 | H2].
        -- rewrite findex_at by lia. cbn [bind].
           apply IH2; [|exact Hout].
           destruct k as [|k]; [|lia]. rewrite Nat.add_0_r in Hout. lia.
        -- unfold findex at 1.
           replace ((0 <=? start C (S i)) && (start C (S i) <? Z.of_nat (length F)))
             with false
             by (symmetry; apply andb_false_iff; right; apply Z.ltb_ge; lia).
           reflexivity.
      * unfold findex at 1.
        replace ((0 <=? start C i) && (start C i <? Z.of_nat (length F)))
          with false
          by (symmetry; apply andb_false_iff; right; apply Z.ltb_ge; lia).
        reflexivity.
Qed.

End ReportFacts.

(** * The claims on the arithmetic coder *)

Module CoderClaims.
Import Coder CoderSpec TableFacts EncoderFacts DecoderFacts RoundTrip ReachFacts.

Lemma encode_all_reachable freqs :
  forall xs g fp g' fp',
  Forall (valid_symbol freqs) xs ->
  encode_all xs (cumfreqs freqs) g fp = Ret (g', fp') ->
  (reachable freqs g -> reachable freqs g') /\
  (enc_reachable freqs g fp -> enc_reachable freqs g' fp').
Proof.
  induction xs as [|s xs IH]; intros g fp g' fp' Hxs Hrun.
  - cbn [encode_all] in Hrun. injection Hrun as <- <-. split; intros H; exact H.
  - inversion Hxs as [|? ? Hs Hxs']; subst.
    cbn [encode_all] in Hrun. rewrite cumfreqs_length in Hrun.
    apply bind_ret in Hrun. destruct Hrun as ([g1 fp1] & Hcall & Hrest).
    destruct (IH g1 fp1 g' fp' Hxs' Hrest) as [I1 I2].
    split; intros H.
    + apply I1. exact (reach_encode freqs g s fp g1 fp1 H Hs Hcall).
    + apply I2. exact (enc_reach_encode freqs g s fp g1 fp1 H Hs Hcall).
Qed.

(** C1.  Coder symmetry fails on the code once the run of pending [0xFF]
    bytes reaches [2^32]: for bins of 255 and 1 values (total 256, far
    below MINR) and the second symbol coded [2^32 + 8] times, the 32-bit
    counter [num_ff_bytes] wraps to zero, the encoder writes fourteen
    bytes, and the decoder run on those bytes stops in a failed assertion
    rather than return the symbols. *)
Theorem ff_run_overflow_breaks_symmetry :
  valid_freqs ff_freqs /\ sum ff_freqs <= MINR /\
  Forall (valid_symbol ff_freqs) long_run /\
  encode ff_freqs long_run = Ret short_stream /\
  decode ff_freqs (length long_run) short_stream = AssertFailure.
Proof.
  destruct Overflow.long_run_valid as [Hv Hxs].
  assert (HN : Z.of_nat (Z.to_nat 4294967296) = 2 ^ 32)
    by (apply Z2Nat.id; discriminate).
  split; [exact Hv|]. split; [discriminate|]. split; [exact Hxs|]. split.
  - apply Overflow.overflow_encode. exact HN.
  - apply Overflow.overflow_decode. lia.
Qed.

(** C2, as stated, fails at the lower end of the interval: against two
    bins of one value each, the symbols 1, 0, 0, 0, 0, 0, 0, 0 leave
    [R = PART] exactly, so [R] is not in [(PART, FULL]]. *)
Lemma range_reaches_PART :
  valid_freqs [1; 1] /\ Forall (valid_symbol [1; 1]) [1; 0; 0; 0; 0; 0; 0; 0] /\
  exists g, reachable [1; 1] g /\ R g = PART /\ ~ (PART < R g <= FULL).
Proof.
  assert (Hv : valid_freqs [1; 1]).
  { repeat split; try discriminate. repeat constructor; discriminate. }
  assert (Hxs : Forall (valid_symbol [1; 1]) [1; 0; 0; 0; 0; 0; 0; 0]).
  { repeat constructor; cbn; lia. }
  split; [exact Hv|]. split; [exact Hxs|].
  destruct (encode_all [1; 0; 0; 0; 0; 0; 0; 0] (cumfreqs [1; 1])
              (set_total initial 2) []) as [[g fp]| | | |] eqn:E;
    try (vm_compute in E; discriminate).
  exists g. split.
  - apply (encode_all_reachable [1; 1] _ _ _ _ _ Hxs E).
    apply (reach_setup [1; 1] (cumfreqs [1; 1])). reflexivity.
  - vm_compute in E. injection E as <- _. split; [reflexivity|].
    cbn [R]. rewrite PART_val. lia.
Qed.

(** C2 (amended).  For every bins table with a total of at most MINR and
    every sequence of coder calls (encoder calls on symbols of nonzero
    frequency, decoder calls on any stream), [R] lies in [[PART, FULL]]
    between calls, so that [R > total] holds at entry to every call and
    [scale = R / total] is positive whenever the total is: neither
    [assert(R>total)] nor [assert(scale>0)] fails. *)
Theorem range_exceeds_total freqs g :
  valid_freqs freqs -> reachable freqs g ->
  PART <= R g <= FULL /\ total g < R g /\
  assert (total g <? R g) = Ret tt /\
  (0 < total g -> 0 < R g / total g /\ assert (0 <? R g / total g) = Ret tt).
Proof.
  intros Hv Hr. destruct (reachable_inv freqs g Hv Hr) as (HR & Htot & _).
  destruct Hv as (_ & _ & _ & Hsum). rewrite <- Htot in Hsum.
  rewrite PART_val, FULL_val, MINR_val in *.
  assert (Hlt : total g < R g) by lia.
  split; [exact HR|]. split; [exact Hlt|]. split.
  - apply Z.ltb_lt in Hlt. rewrite Hlt. reflexivity.
  - intros Hpos.
    assert (Hs : 0 < R g / total g) by (apply Z.div_str_pos; lia).
    split; [exact Hs|]. apply Z.ltb_lt in Hs. rewrite Hs. reflexivity.
Qed.

Lemma range_exceeds_total_witness :
  PART <= R after_carry <= FULL /\ total after_carry < R after_carry /\
  assert (total after_carry <? R after_carry) = Ret tt /\
  (0 < total after_carry ->
   0 < R after_carry / total after_carry /\
   assert (0 <? R after_carry / total after_carry) = Ret tt).
Proof.
  apply (range_exceeds_total carry_freqs).
  - repeat split; try discriminate. repeat constructor; discriminate.
  - apply (encode_all_reachable carry_freqs [1; 1; 0; 0; 1] (set_total initial 256) []
             after_carry [1]).
    + repeat constructor; cbn; lia.
    + vm_compute. reflexivity.
    + apply (reach_setup carry_freqs (cumfreqs carry_freqs)). reflexivity.
Defined.

(** C3, as stated, fails when no [0xFF] byte is pending: in the state
    reached against bins of 1 and 255 values by the symbols 1, 1, 0, 0,
    coding another 1 makes [L > FULL] with [num_ff_bytes = 0]; the call
    writes no byte at all and leaves the incremented byte, [0xFF], held in
    [last_non_ff_byte] instead of writing it and resetting the slot to 0. *)
Lemma carry_writes_nothing_without_ff_run :
  enc_reachable carry_freqs before_carry [1] /\
  valid_symbol carry_freqs 1 /\
  FULL < L (coded before_carry 1 256) /\
  num_ff_bytes before_carry = 0 /\
  carry (coded before_carry 1 256) [1] = (after_carry, [1]) /\
  arith_encode 1 (cumfreqs carry_freqs) 2 before_carry [1] = Ret (after_carry, [1]) /\
  [1] <> [1] ++ [255] /\ last_non_ff_byte after_carry <> 0.
Proof.
  repeat apply conj; try (vm_compute; reflexivity); try discriminate.
  - apply (encode_all_reachable carry_freqs [1; 1; 0; 0] (set_total initial 256) []
             before_carry [1]).
    + repeat constructor; cbn; lia.
    + vm_compute. reflexivity.
    + apply (enc_reach_setup carry_freqs (cumfreqs carry_freqs)). reflexivity.
Qed.

(** C3 (amended).  When the coding step has made [L > FULL], the encoder
    sets [L <- L & FULL] and increments the held byte (modulo 256).  With
    [k = num_ff_bytes > 0] it then writes the incremented byte followed by
    [k - 1] zero bytes and leaves [num_ff_bytes = 0] and
    [last_non_ff_byte = 0]: the last zero of the flipped run is the new
    held byte.  With [num_ff_bytes = 0] it writes nothing and the
    incremented byte stays held. *)
Theorem carry_step g fp :
  FULL < L g -> 0 <= num_ff_bytes g ->
  let b := u8 (last_non_ff_byte g + 1) in
  let r := carry g fp in
  L (fst r) = Z.land (L g) FULL /\
  R (fst r) = R g /\ total (fst r) = total g /\ first (fst r) = first g /\
  num_ff_bytes (fst r) = 0 /\
  (num_ff_bytes g = 0 -> snd r = fp /\ last_non_ff_byte (fst r) = b) /\
  (0 < num_ff_bytes g ->
   snd r = fp ++ b :: repeat 0 (Z.to_nat (num_ff_bytes g - 1)) /\
   last_non_ff_byte (fst r) = 0).
Proof.
  intros HL Hk. pose proof (carry_closed g fp HL Hk) as H. cbv zeta in *.
  destruct H as (H1 & H2 & H3 & H4 & H5 & H6 & H7 & _).
  repeat apply conj; try assumption.
  - intros E. rewrite E in H1, H5. cbn in H1, H5. rewrite app_nil_r in H1.
    split; assumption.
  - intros E. replace (Z.to_nat (num_ff_bytes g))
      with (S (Z.to_nat (num_ff_bytes g - 1))) in H1, H5 by lia.
    split; assumption.
Qed.

Lemma carry_step_witness :
  let g := set_num_ff (coded before_carry 1 256) 3 in
  snd (carry g [1]) = [1; 255; 0; 0] /\ last_non_ff_byte (fst (carry g [1])) = 0.
Proof.
  pose proof (carry_step (set_num_ff (coded before_carry 1 256) 3) [1]) as H.
  cbv zeta in *. destruct H as (_ & _ & _ & _ & _ & _ & H).
  - vm_compute. reflexivity.
  - discriminate.
  - apply H. reflexivity.
Defined.




(** C5, as stated, fails: the stream the encoder writes for the symbols
    0, 1, 2, 2, 2, 1, 0 against three bins of 3 values ends in a zero
    byte; without that byte the decoder reads [EOF] in its place and stops
    in a failed assertion, while the stream padded with the zero byte
    decodes to the seven symbols. *)
Lemma eof_is_not_a_zero_byte :
  encode [3; 3; 3] [0; 1; 2; 2; 2; 1; 0] = Ret scenario_stream /\
  scenario_stream = cut_stream ++ [0] /\
  decode [3; 3; 3] 7 (cut_stream ++ [0]) = Ret [0; 1; 2; 2; 2; 1; 0] /\
  decode [3; 3; 3] 7 cut_stream = AssertFailure /\
  fst (fill_step (set_D initial 5) []) <> fst (fill_step (set_D initial 5) [0]).
Proof.
  repeat apply conj; try (vm_compute; reflexivity).
  vm_compute. discriminate.
Qed.

(** C5 (amended).  A read past end-of-file yields [EOF = -1], not a zero
    byte: in the renormalization of [arith_decode] and in the loop of
    [decoder_start] the window becomes one less, modulo [2^64], than a
    zero byte would make it, and so never the same.  For bins of total at
    most MINR, at most [2^31] of them, and a run of fewer than [2^32 / 6]
    symbols of nonzero frequency, the decoder takes exactly the bytes
    the encoder wrote for the run, whatever bytes follow them in its
    input: it returns the run, it leaves none of the encoder's bytes and
    it takes none of the bytes that follow. *)
Theorem eof_is_added_and_streams_are_taken_exactly :
  (forall g,
     D (fst (fill_step g [])) = u64 (Z.land (u64 (Z.shiftl (D g) 8)) FULL + EOF) /\
     D (fst (fill_step g [])) = u64 (D (fst (fill_step g [0])) - 1) /\
     D (fst (fill_step g [])) <> D (fst (fill_step g [0])) /\
     D (fst (start_loop 1 g [])) = u64 (D (fst (start_loop 1 g [0])) - 1) /\
     D (fst (start_loop 1 g [])) <> D (fst (start_loop 1 g [0]))) /\
  (forall freqs xs,
     valid_freqs freqs -> Z.of_nat (length freqs) <= 2 ^ 31 ->
     Forall (valid_symbol freqs) xs ->
     6 * Z.of_nat (length xs) < 2 ^ 32 ->
     exists stream,
       encode freqs xs = Ret stream /\
       forall extra, bytes extra ->
         decode freqs (length xs) (stream ++ extra) = Ret xs /\
         exists gd,
           decode_all (length xs) (cumfreqs freqs)
             (fst (decoder_start (set_total initial (sum freqs)) (stream ++ extra)))
             (snd (decoder_start (set_total initial (sum freqs)) (stream ++ extra)))
           = Ret (xs, gd, extra)).
Proof.
  split.
  - intros g. unfold fill_step, start_loop, fgetc, EOF.
    cbn [fst set_D set_R D R].
    set (x := Z.land (u64 (Z.shiftl (D g) 8)) FULL).
    set (y := u64 (Z.shiftl (D g) 8)).
    assert (Hx : 0 <= x < 2 ^ 56).
    { unfold x. rewrite land_FULL by apply u64_range.
      apply Z.mod_pos_bound. lia. }
    assert (Hy : 0 <= y < 2 ^ 64) by apply u64_range.
    rewrite !Z.add_0_r, (u64_small x), (u64_small y) by lia.
    assert (Hm : forall z, 0 <= z < 2 ^ 64 ->
                 u64 (z + -1) = u64 (z - 1) /\ u64 (z + -1) <> z).
    { intros z Hz. split; [reflexivity|]. unfold u64.
      destruct (Z.eq_dec z 0) as [-> | Hnz]; [discriminate|].
      rewrite Z.mod_small by lia. lia. }
    destruct (Hm x ltac:(lia)) as [X1 X2]. destruct (Hm y Hy) as [Y1 Y2].
    repeat apply conj; try reflexivity; assumption.
  - intros freqs xs Hv Hlen Hxs Hshort.
    destruct (setup_inv freqs _ _ Hv (setup_ok freqs Hv)) as (_ & Hinv & Htot & _).
    destruct (decoder_takes_exactly freqs xs Hv Hlen Hxs) as (stream & He & _ & _ & Hx).
    { apply (ff_room_short freqs Hv); assumption. }
    exists stream. split; [exact He | exact Hx].
Qed.

(** On the run of the counterexample: the bytes of the encoder followed
    by two zero bytes decode to the run, and the two zero bytes are left
    unread; the bytes of the encoder alone are all read. *)
Lemma eof_is_added_and_streams_are_taken_exactly_witness :
  D (fst (fill_step (set_D initial 5) []))
  = u64 (D (fst (fill_step (set_D initial 5) [0])) - 1) /\
  decode [3; 3; 3] 7 (scenario_stream ++ [0; 0]) = Ret [0; 1; 2; 2; 2; 1; 0] /\
  (exists gd,
     decode_all 7 (cumfreqs [3; 3; 3])
       (fst (decoder_start (set_total initial 9) (scenario_stream ++ [0; 0])))
       (snd (decoder_start (set_total initial 9) (scenario_stream ++ [0; 0])))
     = Ret ([0; 1; 2; 2; 2; 1; 0], gd, [0; 0])) /\
  (exists gd,
     decode_all 7 (cumfreqs [3; 3; 3])
       (fst (decoder_start (set_total initial 9) (scenario_stream ++ [])))
       (snd (decoder_start (set_total initial 9) (scenario_stream ++ [])))
     = Ret ([0; 1; 2; 2; 2; 1; 0], gd, [])).
Proof.
  destruct eof_is_added_and_streams_are_taken_exactly as [Hstep Hrun].
  split; [apply (Hstep (set_D initial 5))|].
  destruct (Hrun [3; 3; 3] [0; 1; 2; 2; 2; 1; 0]) as (stream & He & Hx).
  - repeat split; try discriminate. repeat constructor; discriminate.
  - cbn. lia.
  - repeat constructor; cbn; lia.
  - cbn. lia.
  - assert (E : encode [3; 3; 3] [0; 1; 2; 2; 2; 1; 0] = Ret scenario_stream)
      by (vm_compute; reflexivity).
    rewrite E in He. inversion He as [Hs]. subst stream.
    destruct (Hx [0; 0]) as [Hd Hall]; [repeat constructor; lia|].
    destruct (Hx []) as [_ Hnone]; [constructor|].
    split; [exact Hd|]. split; [exact Hall | exact Hnone].
Defined.

End CoderClaims.
(** * The tools: [encoder.c] and [quantize.c] *)

Module ToolClaims.
Import ToolSpec CoderSpec.

(** The statements of [main] after the header check, run on the bins
    file and on the index file split at byte 45: the header is copied,
    the eight floats are searched for and coded, the coder is closed. *)
Lemma after_header_works :
  ('(b, g) <- Encoder.make_arrays_and_read_bin_data Coder.initial bins_file ;;
   '(g1, fo1) <- Encoder.encode_floats index_floats b g index_header ;;
   Ret (snd (Coder.encoder_close g1 fo1)))
  = Ret (index_header ++ [5; 174; 255; 255; 255; 255; 250; 162; 0]).
Proof. vm_compute. reflexivity. Qed.

Lemma bins_file_is_read :
  exists b g, Encoder.make_arrays_and_read_bin_data Coder.initial bins_file = Ret (b, g).
Proof. eexists. eexists. vm_compute. reflexivity. Qed.

(** C6: the encode tool reads the header with
    [fread(head, sizeof( *head), HEADER, fi) != 1], which counts items of
    one byte: for an index file of 45 bytes or more the count is 45, the
    test holds and the tool leaves through [read_error()].  Whenever the
    bins file has been read, [main] exits with a failure, and it never
    produces an output file. *)
Theorem header_read_rejects_every_index fb fi :
  (Z.to_nat Coder.HEADER <= length fi)%nat ->
  (forall b g, Encoder.make_arrays_and_read_bin_data Coder.initial fb = Ret (b, g) ->
     Encoder.main fb fi = ExitFailure) /\
  (forall out, Encoder.main fb fi <> Ret out).
Proof.
  change (Z.to_nat Coder.HEADER) with 45%nat. intros Hlen. split.
  - intros b g Hb. unfold Encoder.main. rewrite Hb. cbn [bind].
    unfold Encoder.fread. rewrite Nat.div_1_r.
    change (Z.to_nat Coder.HEADER) with 45%nat.
    rewrite Nat.min_l by exact Hlen. reflexivity.
  - apply HeaderFacts.main_rejects_header. exact Hlen.
Qed.

Lemma header_read_rejects_every_index_witness :
  (Z.to_nat Coder.HEADER <= length index_file)%nat /\
  Encoder.main bins_file index_file = ExitFailure.
Proof.
  assert (H : (Z.to_nat Coder.HEADER <= length index_file)%nat) by (vm_compute; lia).
  split; [exact H|].
  destruct bins_file_is_read as (b & g & Hb).
  exact (proj1 (header_read_rejects_every_index bins_file index_file H) b g Hb).
Defined.

(** C7: [labels] has an unused entry at index 0 and [bin_funcs] has
    none, and [main] indexes both with [bintype].  For every accepted
    [num_bins], [bintype] 1, 2 and 3 run FR, GD and CFR under the labels
    FD, FR and GD, and [bintype] 4, labelled CFR, reads past the end of
    [bin_funcs].  On seven zeros and a seven, [bintype] 1 gives the FR
    counts 7, 0, 0, 1 where FD gives 2, 2, 2, 2. *)
Theorem bintype_selects_the_next_strategy pow num_bins :
  4 <= num_bins < 2 ^ 64 ->
  Quantize.selected pow num_bins 1 = Ret Quantize.bins_fixed_range /\
  Quantize.selected pow num_bins 2 = Ret (Quantize.bins_geometric_domain pow) /\
  Quantize.selected pow num_bins 3 = Ret Quantize.bins_fixed_skinny /\
  Quantize.selected pow num_bins 4 = Undefined /\
  Quantize.label 1 = Some "FD"%string /\
  Quantize.label 2 = Some "FR"%string /\
  Quantize.label 3 = Some "GD"%string /\
  Quantize.label 4 = Some "CFR"%string /\
  (exists f, Quantize.selected pow num_bins 1 = Ret f /\
             f fresh_counts 4 skewed_values 8 = Ret [7; 0; 0; 1]) /\
  Quantize.bins_fixed_domain fresh_counts 4 skewed_values 8 = Ret [2; 2; 2; 2].
Proof.
  intros Hn.
  assert (Hsel : forall t, 1 <= t <= 4 ->
            Quantize.selected pow num_bins t =
            match nth_error (Quantize.bin_funcs pow) (Z.to_nat t) with
            | Some f => Ret f
            | None => Undefined
            end).
  { intros t Ht. unfold Quantize.selected.
    rewrite (u64_small num_bins) by lia.
    destruct (Z.ltb_spec num_bins 4) as [Hlt | _]; [lia|].
    rewrite (u64_small t) by lia.
    destruct (Z.ltb_spec t 1) as [Hlt | _]; [lia|].
    destruct (Z.ltb_spec Quantize.NUM_METHODS t) as [Hlt | _];
      [unfold Quantize.NUM_METHODS in Hlt; lia|].
    reflexivity. }
  repeat apply conj; try (rewrite Hsel by lia; reflexivity); try reflexivity.
  - exists Quantize.bins_fixed_range. split.
    + rewrite Hsel by lia. reflexivity.
    + vm_compute. reflexivity.
Qed.

Lemma bintype_selects_the_next_strategy_witness :
  4 <= 256 < 2 ^ 64 /\
  Quantize.selected (fun x _ => x) 256 1 = Ret Quantize.bins_fixed_range.
Proof.
  assert (H : 4 <= 256 < 2 ^ 64) by lia.
  split; [exact H|].
  exact (proj1 (bintype_selects_the_next_strategy (fun x _ => x) 256 H)).
Defined.

(** C8: FD gives every value a bin, FR and CFR need not.  For four
    values equal to [2^40], sorted, and four bins, [F[0] - EPS] and
    [F[nF-1] + EPS] are both [2^40], the interval is 0 and no value is
    below any bound: FR leaves all four bins empty and CFR fills only its
    two singleton bins, while FD returns counts that sum to 4. *)
Theorem fixed_range_loses_values :
  nondecreasing equal_values /\
  Forall is_float equal_values /\
  (exists C, Quantize.bins_fixed_domain fresh_counts 4 equal_values 4 = Ret C /\
             sum C = 4) /\
  (exists C, Quantize.bins_fixed_range fresh_counts 4 equal_values 4 = Ret C /\
             sum C = 0) /\
  (exists C, Quantize.bins_fixed_skinny fresh_counts 4 equal_values 4 = Ret C /\
             sum C = 2).
Proof.
  split; [|split; [|split; [|split]]].
  - intros i Hi. unfold equal_values in *. cbn [length] in Hi.
    do 3 (destruct i as [|i]; [vm_compute; reflexivity|]). lia.
  - repeat constructor; vm_compute; reflexivity.
  - destruct (FixedDomainFacts.fixed_domain_conserves fresh_counts 4 equal_values 4)
      as (C & HC & _ & _ & Hsum); [reflexivity | lia | lia |].
    exists C. split; assumption.
  - exists [0; 0; 0; 0]. split; [vm_compute; reflexivity | reflexivity].
  - exists [1; 0; 0; 1]. split; [vm_compute; reflexivity | reflexivity].
Qed.

Lemma search_beyond_int N :
  (1 <= N)%nat -> Z.of_nat N = 2147483648 ->
  let U := repeat zero N ++ [one] in
  nondecreasing U /\
  fle one (at_ U (length U - 1)) /\
  Encoder.find_bin U (Z.of_nat (length U)) one = AssertFailure.
Proof.
  intros HN EN U.
  assert (Hlen : length U = (N + 1)%nat).
  { unfold U. rewrite length_app, repeat_length. reflexivity. }
  split; [apply SearchFacts.huge_nondecreasing|]. split.
  - rewrite Hlen. unfold at_, U.
    rewrite app_nth2 by (rewrite repeat_length; lia).
    rewrite repeat_length. replace (N + 1 - 1 - N)%nat with 0%nat by lia.
    reflexivity.
  - rewrite Hlen. replace (Z.of_nat (N + 1)) with 2147483649 by lia.
    apply SearchFacts.find_bin_huge. exact HN.
Qed.

(** C9, as stated: an array of [2^31 + 1] bounds, zeros and then a one,
    is non-decreasing and the query 1 is not above its last bound, yet
    [hi = num_bins-1] does not fit the [int] that holds it, the loop is
    not entered and [assert(f <= U[lo])] fails with [lo = 0]. *)
Theorem search_fails_beyond_int :
  nondecreasing huge_bounds /\
  fle one (at_ huge_bounds (length huge_bounds - 1)) /\
  Encoder.find_bin huge_bounds (Z.of_nat (length huge_bounds)) one = AssertFailure.
Proof.
  unfold huge_bounds.
  apply (search_beyond_int (Z.to_nat 2147483648)); lia.
Qed.

(** C9, amended: for every non-decreasing array [U[0..num_bins)] of at
    most [2^31] bounds and every query [f] with [f <= U[num_bins-1]], the
    search of the encoder passes both assertions and returns the smallest
    [k] with [f <= U[k]]: [f <= U[k]], and every bound before is below
    [f]. *)
Theorem search_returns_smallest_bin U f :
  Z.of_nat (length U) <= 2 ^ 31 ->
  nondecreasing U ->
  fle f (at_ U (length U - 1)) ->
  exists k,
    Encoder.find_bin U (Z.of_nat (length U)) f = Ret (Z.of_nat k) /\
    (k < length U)%nat /\
    fle f (at_ U k) /\
    (k = 0%nat \/ flt (at_ U (k - 1)) f) /\
    (forall j, (j < k)%nat -> ~ fle f (at_ U j)).
Proof.
  intros Hlen Hs Hlast.
  destruct (SearchFacts.find_bin_spec U f Hlen Hs Hlast) as (k & Hr & Hk & Hle & Hlt & Hmin).
  exists k. repeat apply conj; try assumption.
  destruct k as [|k]; [left; reflexivity | right].
  apply Hlt. lia.
Qed.

Lemma search_returns_smallest_bin_witness :
  exists k,
    Encoder.find_bin four_bounds (Z.of_nat (length four_bounds)) 3 = Ret (Z.of_nat k) /\
    (k < length four_bounds)%nat /\
    fle 3 (at_ four_bounds k) /\
    (k = 0%nat \/ flt (at_ four_bounds (k - 1)) 3) /\
    (forall j, (j < k)%nat -> ~ fle 3 (at_ four_bounds j)).
Proof.
  apply (search_returns_smallest_bin four_bounds 3%float).
  - vm_compute. discriminate.
  - intros i Hi. unfold four_bounds in *. cbn [length] in Hi.
    do 3 (destruct i as [|i]; [vm_compute; reflexivity|]). lia.
  - vm_compute. reflexivity.
Defined.

(** C10: [write_bins] on counts [C] of the values [F].  When bin 0 is
    empty the first pass of the table loop reads [F[strt+C[0]-1]] with an
    index of [-1] as a [size_t], outside the array.  When bin 0 is not
    empty the call returns, and for every empty bin [k > 0] the upper
    bound and the representative written for it are both [F[start-1]],
    where [start] counts the values of the bins before [k]: the last
    value of the nearest nonempty bin [j] before [k].  So the call fails
    to return exactly when bin 0 is empty. *)
Theorem write_bins_empty_bins C F :
  (0 < length C)%nat ->
  Forall (fun f => 0 <= f) C ->
  sum C = Z.of_nat (length F) ->
  Z.of_nat (length F) < 2 ^ 64 ->
  Forall is_float F ->
  let run := Quantize.write_bins C (Z.of_nat (length C)) F (Z.of_nat (length F)) [] in
  (nth 0 C 0 = 0 -> run = Undefined) /\
  (0 < nth 0 C 0 ->
   exists fb, run = Ret fb /\
     forall k, (0 < k < length C)%nat -> nth k C 0 = 0 ->
       written_bound fb k =
         Some (Quantize.float_datum (at_ F (Z.to_nat (start C k - 1)))) /\
       written_rep fb k =
         Some (Quantize.float_datum (at_ F (Z.to_nat (start C k - 1)))) /\
       exists j, (j < k)%nat /\ 0 < nth j C 0 /\
         (forall m, (j < m < k)%nat -> nth m C 0 = 0) /\
         start C k - 1 = start C j + nth j C 0 - 1) /\
  ((forall fb, run <> Ret fb) <-> nth 0 C 0 = 0).
Proof.
  intros Hn Hpos Hsum Hlen Hfl run.
  assert (Hzero : nth 0 C 0 = 0 -> run = Undefined).
  { intros H0. unfold run, Quantize.write_bins. rewrite Nat2Z.id.
    destruct (length C) as [|n] eqn:En; [lia|].
    rewrite WriteFacts.write_table_empty_first by (try lia; assumption).
    reflexivity. }
  assert (Hsome : 0 < nth 0 C 0 ->
    exists fb, run = Ret fb /\
     forall k, (0 < k < length C)%nat -> nth k C 0 = 0 ->
       written_bound fb k =
         Some (Quantize.float_datum (at_ F (Z.to_nat (start C k - 1)))) /\
       written_rep fb k =
         Some (Quantize.float_datum (at_ F (Z.to_nat (start C k - 1)))) /\
       exists j, (j < k)%nat /\ 0 < nth j C 0 /\
         (forall m, (j < m < k)%nat -> nth m C 0 = 0) /\
         start C k - 1 = start C j + nth j C 0 - 1).
  { intros H0. unfold run, Quantize.write_bins. rewrite Nat2Z.id.
    destruct (WriteFacts.write_table_spec C F Hpos Hsum Hlen Hfl H0 (length C) 0
                ([] ++ [Quantize.size_datum 2] ++ [Quantize.size_datum (Z.of_nat (length C))])
                ltac:(lia) eq_refl) as (fb' & Hrun & _ & Hrows).
    change (start C 0) with 0 in Hrun. change (Z.of_nat 0) with 0 in Hrun.
    cbn [app] in Hrun |- *. rewrite Hrun. cbn [bind].
    rewrite Hsum, Z.eqb_refl. cbn [assert bind].
    unfold Quantize.write_freqs. rewrite Z.leb_refl.
    eexists. split; [reflexivity|].
    intros k Hk Hck.
    destruct (Hrows k ltac:(lia) Hck) as [Hb Hr].
    unfold written_bound, written_rep in *.
    rewrite !nth_error_app1
      by (apply nth_error_Some; first [rewrite Hb | rewrite Hr]; discriminate).
    split; [exact Hb|]. split; [exact Hr|].
    apply WriteFacts.nearest_nonempty; assumption. }
  split; [exact Hzero|]. split; [exact Hsome|]. split.
  - intros Hno.
    assert (H0 : 0 <= nth 0 C 0).
    { rewrite Forall_forall in Hpos. apply Hpos. apply nth_In. exact Hn. }
    destruct (Z.eq_dec (nth 0 C 0) 0) as [E | E]; [exact E|].
    destruct Hsome as (fb & Hfb & _); [lia|].
    exfalso. exact (Hno fb Hfb).
  - intros H0 fb Hfb. rewrite (Hzero H0) in Hfb. discriminate.
Qed.

Lemma write_bins_empty_bins_witness :
  exists fb,
    Quantize.write_bins gapped_counts (Z.of_nat (length gapped_counts))
      eight_values (Z.of_nat (length eight_values)) [] = Ret fb /\
    written_bound fb 1 = Some (Quantize.float_datum 1) /\
    written_rep fb 1 = Some (Quantize.float_datum 1).
Proof.
  assert (Hn : (0 < length gapped_counts)%nat) by (cbn; lia).
  assert (Hpos : Forall (fun f => 0 <= f) gapped_counts)
    by (repeat constructor; lia).
  assert (Hsum : sum gapped_counts = Z.of_nat (length eight_values)) by reflexivity.
  assert (Hlen : Z.of_nat (length eight_values) < 2 ^ 64) by (cbn; lia).
  assert (Hfl : Forall is_float eight_values)
    by (repeat constructor; vm_compute; reflexivity).
  destruct (write_bins_empty_bins gapped_counts eight_values Hn Hpos Hsum Hlen Hfl)
    as (_ & Hsome & _).
  destruct Hsome as (fb & Hrun & Hrows); [cbn; lia|].
  exists fb. split; [exact Hrun|].
  destruct (Hrows 1%nat ltac:(cbn; lia) eq_refl) as (Hb & Hr & _).
  split; [exact Hb | exact Hr].
Defined.

End ToolClaims.

(** * Further properties of the arithmetic coder *)

Module CoderProperties.
Import Coder CoderSpec OutputSpec RateSpec TableFacts ByteFacts EncoderFacts DecoderFacts
  RoundTrip ReachFacts LoopFacts OutputFacts SafetyFacts RateFacts.

(** X1: for bins of total at most MINR, at most [2^31] of them, and a
    run of fewer than [2^32 / 6] symbols of nonzero frequency, the
    decoder started on the bytes of the encoder returns the symbols of
    the run and leaves none of the bytes; and whatever bytes follow the
    encoder's in the input, it still returns the run and stops exactly
    where the encoder's bytes end: it leaves the bytes that follow, all
    of them and nothing else. *)
Theorem round_trip_takes_exactly_the_stream freqs xs :
  valid_freqs freqs -> Z.of_nat (length freqs) <= 2 ^ 31 ->
  Forall (valid_symbol freqs) xs ->
  6 * Z.of_nat (length xs) < 2 ^ 32 ->
  exists stream,
    encode freqs xs = Ret stream /\ bytes stream /\
    decode freqs (length xs) stream = Ret xs /\
    (exists gd,
       decode_all (length xs) (cumfreqs freqs)
         (fst (decoder_start (set_total initial (sum freqs)) stream))
         (snd (decoder_start (set_total initial (sum freqs)) stream))
       = Ret (xs, gd, [])) /\
    forall extra, bytes extra ->
      decode freqs (length xs) (stream ++ extra) = Ret xs /\
      exists gd,
        decode_all (length xs) (cumfreqs freqs)
          (fst (decoder_start (set_total initial (sum freqs)) (stream ++ extra)))
          (snd (decoder_start (set_total initial (sum freqs)) (stream ++ extra)))
        = Ret (xs, gd, extra).
Proof.
  intros Hv Hlen Hxs Hshort.
  destruct (setup_inv freqs _ _ Hv (setup_ok freqs Hv)) as (_ & Hinv & Htot & _).
  destruct (decoder_takes_exactly freqs xs Hv Hlen Hxs) as (stream & He & Hb & _ & Hx).
  { apply (ff_room_short freqs Hv); assumption. }
  exists stream. split; [exact He|]. split; [exact Hb|].
  destruct (Hx [] ltac:(constructor)) as [Hd Hall].
  rewrite app_nil_r in Hd, Hall.
  split; [exact Hd|]. split; [exact Hall | exact Hx].
Qed.

Lemma round_trip_takes_exactly_the_stream_witness :
  encode [3; 3; 3] [0; 1; 2; 2; 2; 1; 0] = Ret scenario_stream /\
  decode [3; 3; 3] 7 scenario_stream = Ret [0; 1; 2; 2; 2; 1; 0] /\
  decode [3; 3; 3] 7 (scenario_stream ++ [255; 0]) = Ret [0; 1; 2; 2; 2; 1; 0] /\
  exists gd,
    decode_all 7 (cumfreqs [3; 3; 3])
      (fst (decoder_start (set_total initial 9) (scenario_stream ++ [255; 0])))
      (snd (decoder_start (set_total initial 9) (scenario_stream ++ [255; 0])))
    = Ret ([0; 1; 2; 2; 2; 1; 0], gd, [255; 0]).
Proof.
  destruct (round_trip_takes_exactly_the_stream [3; 3; 3] [0; 1; 2; 2; 2; 1; 0])
    as (stream & He & _ & Hd & _ & Hx).
  - repeat split; try discriminate. repeat constructor; discriminate.
  - cbn. lia.
  - repeat constructor; cbn; lia.
  - cbn. lia.
  - assert (E : encode [3; 3; 3] [0; 1; 2; 2; 2; 1; 0] = Ret scenario_stream)
      by (vm_compute; reflexivity).
    rewrite E in He. inversion He as [Hs]. subst stream.
    split; [exact E|]. split; [exact Hd|].
    apply (Hx [255; 0]). repeat constructor; lia.
Defined.

(** X2: the encoder accepts every run: for bins of total at most MINR
    and any sequence of symbols of nonzero frequency, of any length, each
    call of [arith_encode] returns (no assertion fails, no array is read
    out of bounds, the renormalization loop ends) and [encoder_close]
    leaves a stream of at least seven bytes. *)
Theorem encoder_returns_on_every_run freqs xs :
  valid_freqs freqs -> Forall (valid_symbol freqs) xs ->
  exists stream, encode freqs xs = Ret stream /\ (7 <= length stream)%nat.
Proof.
  intros Hv Hxs.
  destruct (setup_inv freqs _ _ Hv (setup_ok freqs Hv)) as (_ & Hinv & Htot & _).
  destruct (encode_all_returns freqs Hv xs _ [] Hxs Hinv Htot)
    as (g' & fp' & Hrun & Hinv' & _).
  destruct (encoder_close_spec g' fp' Hinv') as (w & Hw & Hwl & _).
  exists (snd (encoder_close g' fp')). split.
  - unfold encode. rewrite (setup_ok freqs Hv). cbn [bind]. rewrite Hrun. reflexivity.
  - rewrite Hw, length_app. lia.
Qed.

Lemma encoder_returns_on_every_run_witness :
  exists stream, encode [255; 1] (repeat 1 20) = Ret stream /\ (7 <= length stream)%nat.
Proof.
  apply (encoder_returns_on_every_run [255; 1] (repeat 1 20)).
  - repeat split; try discriminate. repeat constructor; discriminate.
  - cbn [repeat]. repeat constructor; cbn; lia.
Defined.

(** X3: [arith_encode] does not check the frequency of the symbol.  A
    symbol of frequency zero that has a nonempty bin after it gets
    [low = high], the range becomes [R = 0], and [while (R < PART)] never
    exits: the call does not return. *)
Theorem zero_frequency_symbol_never_returns freqs s g fp :
  valid_freqs freqs -> PART <= R g -> total g = sum freqs ->
  0 <= s < Z.of_nat (length freqs) ->
  nth (Z.to_nat s) freqs 0 = 0 ->
  cum freqs (S (Z.to_nat s)) < sum freqs ->
  arith_encode s (cumfreqs freqs) (Z.of_nat (length freqs)) g fp = Diverges.
Proof.
  intros Hv HR Htot Hs Hzero Hlater.
  pose proof Hv as (Hne & Hlen64 & Hpos & Hsum).
  pose proof (cum_le_total freqs (Z.to_nat s) Hpos) as Hc.
  assert (Hhigh : cum freqs (S (Z.to_nat s)) = cum freqs (Z.to_nat s))
    by (rewrite cum_S by lia; lia).
  rewrite PART_val in HR. rewrite MINR_val in Hsum.
  unfold arith_encode.
  replace (total g <? R g) with true by (symmetry; apply Z.ltb_lt; lia).
  cbn [assert bind].
  assert (Hrange : symbol_range s (cumfreqs freqs)
                   = Ret (cum freqs (Z.to_nat s), cum freqs (Z.to_nat s))).
  { unfold symbol_range.
    rewrite (index_cumfreqs freqs s Hv Hs), Hhigh.
    destruct (Z.eqb_spec s 0) as [-> | Hs0]; [reflexivity|].
    rewrite (u64_small (s - 1)) by lia.
    rewrite (index_cumfreqs freqs (s - 1) Hv) by lia.
    replace (S (Z.to_nat (s - 1))) with (Z.to_nat s) by lia. reflexivity. }
  rewrite Hrange. cbn [bind].
  unfold udiv. replace (total g =? 0) with false by (symmetry; apply Z.eqb_neq; lia).
  cbn [bind].
  set (low := cum freqs (Z.to_nat s)) in *.
  set (scale := R g / total g).
  set (g1 := set_L g (u64 (L g + u64 (low * scale)))).
  assert (Hn : narrow g1 low low scale = 0).
  { unfold narrow, g1. cbn [set_L total].
    replace (low <? total g) with true by (symmetry; apply Z.ltb_lt; lia).
    rewrite Z.sub_diag. reflexivity. }
  rewrite Hn.
  pose proof (carry_R (set_R g1 0) fp) as [HR0 _].
  destruct (carry (set_R g1 0) fp) as [g3 fp3]. cbn [fst] in HR0.
  apply renorm_zero. exact HR0.
Qed.

Lemma zero_frequency_symbol_never_returns_witness :
  arith_encode 1 (cumfreqs [1; 0; 1]) (Z.of_nat (length [1; 0; 1]))
    (set_total initial 2) [] = Diverges.
Proof.
  apply (zero_frequency_symbol_never_returns [1; 0; 1] 1 (set_total initial 2) []).
  - repeat split; try discriminate. repeat constructor; discriminate.
  - discriminate.
  - reflexivity.
  - cbn. lia.
  - reflexivity.
  - vm_compute. reflexivity.
Defined.

(** X4: the binary search of [arith_decode].  For bins of total at most
    MINR, at most [2^31] of them, and a target below the total, the
    search returns the one symbol [v] with [c[v-1] <= target < c[v]]; its
    frequency is not zero, so that the three assertions after the search
    hold. *)
Theorem decoder_search_finds_the_symbol freqs target :
  valid_freqs freqs -> Z.of_nat (length freqs) <= 2 ^ 31 ->
  0 <= target < sum freqs ->
  exists v,
    search (cumfreqs freqs) target 0 (to_int (u64 (Z.of_nat (length freqs) - 1))) = Ret v /\
    valid_symbol freqs v /\
    cum freqs (Z.to_nat v) <= target < cum freqs (S (Z.to_nat v)) /\
    (forall s, 0 <= s ->
       cum freqs (Z.to_nat s) <= target < cum freqs (S (Z.to_nat s)) -> s = v).
Proof.
  intros Hv Hlen Ht.
  destruct (search_finds freqs target Hv Hlen Ht) as (v & Hsearch & Hs & Hvr).
  exists v. split; [exact Hsearch|]. split; [exact Hs|]. split; [exact Hvr|].
  intros s Hs0 Hsr. destruct Hv as (_ & _ & Hpos & _). destruct Hs as [Hv0 _].
  assert (Z.to_nat s = Z.to_nat v); [|lia].
  apply (cum_unique freqs target); assumption.
Qed.

Lemma decoder_search_finds_the_symbol_witness :
  exists v,
    search (cumfreqs [3; 0; 3]) 3 0 (to_int (u64 (Z.of_nat (length [3; 0; 3]) - 1))) = Ret v /\
    valid_symbol [3; 0; 3] v /\
    cum [3; 0; 3] (Z.to_nat v) <= 3 < cum [3; 0; 3] (S (Z.to_nat v)) /\
    (forall s, 0 <= s ->
       cum [3; 0; 3] (Z.to_nat s) <= 3 < cum [3; 0; 3] (S (Z.to_nat s)) -> s = v).
Proof.
  apply (decoder_search_finds_the_symbol [3; 0; 3] 3).
  - repeat split; try discriminate. repeat constructor; discriminate.
  - cbn. lia.
  - vm_compute. split; [discriminate | reflexivity].
Defined.

(** X5: the decoder on any stream, whether an encoder wrote it or not.
    For bins of positive total at most MINR, at most [2^31] of them,
    [decoder_start] followed by any number of calls of [arith_decode]
    either returns that many symbols, each of nonzero frequency, or stops
    at a failed assertion: no call reads outside [c[]], divides by zero
    or loops for ever. *)
Theorem decoder_is_safe_on_any_stream freqs count fp :
  valid_freqs freqs -> 0 < sum freqs -> Z.of_nat (length freqs) <= 2 ^ 31 ->
  decode freqs count fp = AssertFailure \/
  exists vs, decode freqs count fp = Ret vs /\ length vs = count /\
             Forall (valid_symbol freqs) vs.
Proof.
  intros Hv Hsum0 Hlen. unfold decode.
  rewrite (setup_ok freqs Hv). cbn [bind].
  set (g := set_total initial (sum freqs)).
  pose proof (start_loop_range (Z.to_nat BBYTES) (set_D g 0) fp) as Hst.
  cbv zeta in Hst. fold (decoder_start g fp) in Hst.
  destruct (decoder_start g fp) as [g1 fp1]. cbn [fst] in Hst.
  destruct Hst as (HR & Htot & HD); [cbn; lia|].
  cbn [set_D R total] in HR, Htot.
  destruct (decode_all_safe freqs Hv Hsum0 Hlen count g1 fp1)
    as [E | (vs & g2 & fp2 & E & Hl & Hall)].
  - rewrite HR. change (R g) with FULL. rewrite PART_val, FULL_val. lia.
  - rewrite Htot. reflexivity.
  - exact HD.
  - left. rewrite E. reflexivity.
  - right. exists vs. rewrite E. split; [reflexivity|]. split; assumption.
Qed.

Lemma decoder_is_safe_on_any_stream_witness :
  decode [3; 3; 3] 7 cut_stream = AssertFailure \/
  exists vs, decode [3; 3; 3] 7 cut_stream = Ret vs /\ length vs = 7%nat /\
             Forall (valid_symbol [3; 3; 3]) vs.
Proof.
  apply (decoder_is_safe_on_any_stream [3; 3; 3] 7 cut_stream).
  - repeat split; try discriminate. repeat constructor; discriminate.
  - cbn. lia.
  - cbn. lia.
Defined.

(** X6: the byte count the encode tool reports.  From variables with
    [bytes_out = HEADER] and an output holding the 45 header bytes,
    whatever floats the loop of [main] codes, the calls of [arith_encode]
    and the closing [encoder_close] only append to the output, at least
    seven bytes, and leave in [bytes_out] the length of the output. *)
Theorem bytes_out_is_the_output_length fi b g hdr g1 fo1 :
  bytes_out g = HEADER -> length hdr = Z.to_nat HEADER ->
  Encoder.encode_floats fi b g hdr = Ret (g1, fo1) ->
  exists w,
    snd (encoder_close g1 fo1) = hdr ++ w /\ (7 <= length w)%nat /\
    bytes_out (fst (encoder_close g1 fo1))
      = u64 (Z.of_nat (length (snd (encoder_close g1 fo1)))).
Proof.
  intros Hb Hh Hrun.
  pose proof (extends_encode_floats b (length fi) fi g hdr g1 fo1 (le_n _) Hrun) as H1.
  destruct (encoder_close_out g1 fo1) as (H2 & H3 & H4).
  destruct (extends_trans _ _ _ _ _ _ H1 H2) as (w & Ew & Bw).
  destruct H1 as (w1 & E1 & _).
  exists w. split; [exact Ew|]. split.
  - rewrite Ew, E1, !length_app in H3. lia.
  - rewrite <- (u64_small (bytes_out (fst (encoder_close g1 fo1)))) by exact H4.
    rewrite Bw, Hb, Ew, length_app, Hh, Nat2Z.inj_add.
    change (Z.of_nat (Z.to_nat HEADER)) with HEADER. reflexivity.
Qed.

Lemma bytes_out_is_the_output_length_witness :
  exists g1 fo1 w,
    Encoder.encode_floats ToolSpec.index_floats
      (Encoder.mkBins 4 ToolSpec.four_bounds ToolSpec.four_bounds [2; 4; 6; 8])
      (set_total initial 8) ToolSpec.index_header = Ret (g1, fo1) /\
    snd (encoder_close g1 fo1) = ToolSpec.index_header ++ w /\ (7 <= length w)%nat /\
    bytes_out (fst (encoder_close g1 fo1))
      = u64 (Z.of_nat (length (snd (encoder_close g1 fo1)))).
Proof.
  destruct (Encoder.encode_floats ToolSpec.index_floats
      (Encoder.mkBins 4 ToolSpec.four_bounds ToolSpec.four_bounds [2; 4; 6; 8])
      (set_total initial 8) ToolSpec.index_header) as [[g1 fo1]| | | |] eqn:E;
    try (vm_compute in E; discriminate).
  exists g1, fo1.
  destruct (bytes_out_is_the_output_length ToolSpec.index_floats
              (Encoder.mkBins 4 ToolSpec.four_bounds ToolSpec.four_bounds [2; 4; 6; 8])
              (set_total initial 8) ToolSpec.index_header g1 fo1 eq_refl eq_refl E)
    as (w & H).
  exists w. split; [reflexivity | exact H].
Defined.

(** X21: the length of the code.  For bins of total at most MINR and
    a run of fewer than [2^32 / 6] symbols of nonzero frequency, the
    encoder writes seven bytes and [d] more, where [256^d] is at most the
    product over the run of [(129 * total) / (128 * frequency)]: the code
    is longer than the ideal [sum of log2 (total / frequency)] bits by
    less than 0.012 bits for each symbol, and the seven closing bytes. *)
Theorem code_length_is_near_the_ideal freqs xs :
  valid_freqs freqs -> Forall (valid_symbol freqs) xs ->
  6 * Z.of_nat (length xs) < 2 ^ 32 ->
  exists stream,
    encode freqs xs = Ret stream /\ (7 <= length stream)%nat /\
    256 ^ Z.of_nat (length stream - 7) * weight freqs xs <= budget freqs xs.
Proof.
  intros Hv Hxs Hshort.
  destruct (setup_inv freqs _ _ Hv (setup_ok freqs Hv)) as (_ & Hinv & Htot & Hp).
  set (g := set_total initial (sum freqs)) in *.
  destruct (encode_all_rate freqs Hv xs g [] Hxs Hinv Htot Hshort)
    as (g' & fp' & d & Hrun & Hinv' & Hlen & Hrate).
  destruct (encoder_close_spec g' fp' Hinv') as (w & Hw & Hwl & _).
  exists (snd (encoder_close g' fp')). split; [|split].
  - unfold encode. rewrite (setup_ok freqs Hv). cbn [bind]. fold g.
    rewrite Hrun. reflexivity.
  - rewrite Hw, length_app. lia.
  - rewrite Hw, length_app, Hwl, Hlen, Hp. cbn [length].
    replace (0 + d + 7 - 7)%nat with d by lia.
    destruct Hinv' as [[[_ HRF] _ _ _ _ _] _].
    destruct Hv as (_ & _ & Hpos & _).
    pose proof (budget_nonneg freqs xs Hpos) as HB.
    change (R g) with FULL in Hrate. rewrite FULL_val in *.
    assert (H : (2 ^ 56 - 1) * (256 ^ Z.of_nat d * weight freqs xs)
                <= (2 ^ 56 - 1) * budget freqs xs) by nia.
    apply Z.mul_le_mono_pos_l in H; lia.
Qed.

Lemma code_length_is_near_the_ideal_witness :
  exists stream,
    encode [3; 3; 3] [0; 1; 2; 2; 2; 1; 0] = Ret stream /\ (7 <= length stream)%nat /\
    256 ^ Z.of_nat (length stream - 7) * weight [3; 3; 3] [0; 1; 2; 2; 2; 1; 0]
    <= budget [3; 3; 3] [0; 1; 2; 2; 2; 1; 0].
Proof.
  apply (code_length_is_near_the_ideal [3; 3; 3] [0; 1; 2; 2; 2; 1; 0]).
  - repeat split; try discriminate. repeat constructor; discriminate.
  - repeat constructor; cbn; lia.
  - cbn. lia.
Defined.

End CoderProperties.

(** * Further properties of the encode tool *)

Module EncoderProperties.
Import Coder CoderSpec ToolSpec FileSpec FloatOrder SearchFacts SearchEdgeFacts
  ToolRunFacts BinsFileFacts.

(** X7: the search of the encode tool outside its precondition.  For a
    non-decreasing array of at most [2^31] bounds, the two assertions
    after the loop stop the tool exactly for the values that are not at
    or below the last bound: a value above it, or a NaN. *)
Theorem search_aborts_exactly_above_the_last_bound U f :
  (0 < length U)%nat -> Z.of_nat (length U) <= 2 ^ 31 -> nondecreasing U ->
  (Encoder.find_bin U (Z.of_nat (length U)) f = AssertFailure
   <-> ~ fle f (at_ U (length U - 1))).
Proof.
  intros Hn Hlen Hs. split.
  - intros Hfail Hle.
    destruct (find_bin_spec U f Hlen Hs Hle) as (k & Hr & _).
    rewrite Hr in Hfail. discriminate.
  - intros Hab. apply find_bin_above; try assumption.
    apply above_last_above_all; assumption.
Qed.

Lemma search_aborts_exactly_above_the_last_bound_witness :
  Encoder.find_bin four_bounds (Z.of_nat (length four_bounds)) 8 = AssertFailure.
Proof.
  apply (search_aborts_exactly_above_the_last_bound four_bounds 8%float).
  - cbn. lia.
  - cbn. lia.
  - intros i Hi. unfold four_bounds in *. cbn [length] in Hi.
    do 3 (destruct i as [|i]; [vm_compute; reflexivity|]). lia.
  - vm_compute. discriminate.
Defined.

(** X8: the search keeps the order of the values.  For a non-decreasing
    array of at most [2^31] bounds and two values [f <= f'] at or below
    the last bound, the bin found for [f] is not after the bin found for
    [f']. *)
Theorem search_is_monotone U f f' :
  Z.of_nat (length U) <= 2 ^ 31 -> nondecreasing U ->
  fle f f' -> fle f' (at_ U (length U - 1)) ->
  exists k k',
    Encoder.find_bin U (Z.of_nat (length U)) f = Ret (Z.of_nat k) /\
    Encoder.find_bin U (Z.of_nat (length U)) f' = Ret (Z.of_nat k') /\
    (k <= k')%nat.
Proof.
  intros Hlen Hs Hff Hlast'.
  assert (Hlast : fle f (at_ U (length U - 1)))
    by exact (fle_trans f f' _ Hff Hlast').
  destruct (find_bin_spec U f Hlen Hs Hlast) as (k & Hr & Hk & Hle & _ & Hmin).
  destruct (find_bin_spec U f' Hlen Hs Hlast') as (k' & Hr' & Hk' & Hle' & _).
  exists k, k'. split; [exact Hr|]. split; [exact Hr'|].
  destruct (Nat.le_gt_cases k k') as [H | H]; [exact H|].
  exfalso. apply (Hmin k' H). exact (fle_trans f f' (at_ U k') Hff Hle').
Qed.

Lemma search_is_monotone_witness :
  exists k k',
    Encoder.find_bin four_bounds (Z.of_nat (length four_bounds)) 2 = Ret (Z.of_nat k) /\
    Encoder.find_bin four_bounds (Z.of_nat (length four_bounds)) 6 = Ret (Z.of_nat k') /\
    (k <= k')%nat.
Proof.
  apply (search_is_monotone four_bounds 2%float 6%float).
  - cbn. lia.
  - intros i Hi. unfold four_bounds in *. cbn [length] in Hi.
    do 3 (destruct i as [|i]; [vm_compute; reflexivity|]). lia.
  - vm_compute. reflexivity.
  - vm_compute. reflexivity.
Defined.

(** X9: the loop of the encode tool with the coder, end to end.  For
    bins of total at most MINR, at most [2^31] of them, a header of
    bytes, and fewer than [2^32 / 6] floats whose bins [ks], as the
    search finds them, have nonzero frequency: the loop and
    [encoder_close] return, the output is the header followed by the
    code bytes, and the decoder run on the code bytes returns the bin
    numbers [ks].  Bytes after the last complete float are ignored. *)
Theorem encode_loop_round_trip freqs U S fi hdr ks :
  valid_freqs freqs -> Z.of_nat (length freqs) <= 2 ^ 31 -> bytes hdr ->
  Forall2 (fun f k => Encoder.find_bin U (Z.of_nat (length freqs)) f = Ret k /\
                      valid_symbol freqs k) (floats_of fi) ks ->
  6 * Z.of_nat (length ks) < 2 ^ 32 ->
  exists g1 fo1 code,
    Encoder.encode_floats fi
      (Encoder.mkBins (Z.of_nat (length freqs)) U S (cumfreqs freqs))
      (set_total initial (sum freqs)) hdr = Ret (g1, fo1) /\
    snd (encoder_close g1 fo1) = hdr ++ code /\
    decode freqs (length ks) code = Ret ks.
Proof.
  intros Hv Hlen Hhb Hks Hshort.
  rewrite (encode_floats_eq freqs U S (length fi) fi _ hdr ks (le_n _) Hks) by lia.
  apply coded_run_after_header; try assumption.
  exact (Forall2_valid _ freqs _ _ Hks).
Qed.

Lemma encode_loop_round_trip_witness :
  exists g1 fo1 code,
    Encoder.encode_floats (index_floats ++ [1; 2; 3])
      (Encoder.mkBins (Z.of_nat (length four_counts)) four_bounds four_bounds
         (cumfreqs four_counts))
      (set_total initial (sum four_counts)) index_header = Ret (g1, fo1) /\
    snd (encoder_close g1 fo1) = index_header ++ code /\
    decode four_counts (length eight_bins) code = Ret eight_bins.
Proof.
  apply (encode_loop_round_trip four_counts four_bounds four_bounds
           (index_floats ++ [1; 2; 3]) index_header eight_bins).
  - repeat split; try discriminate. repeat constructor; discriminate.
  - cbn. lia.
  - unfold index_header. repeat constructor; lia.
  - assert (E : floats_of (index_floats ++ [1; 2; 3]) = eight_values)
      by (vm_compute; reflexivity).
    rewrite E. unfold eight_values, eight_bins.
    repeat constructor; try (vm_compute; reflexivity); cbn; lia.
  - cbn. lia.
Defined.

(** X10: what [make_arrays_and_read_bin_data] makes of a well-formed
    bins file: the marker 2, the number [n] of bins ([1 <= n < 2^31]),
    [n] pairs of floats and [n] counts whose sum fits a [size_t], with
    anything after.  It returns with [num_bins = n], [U] and [S] the
    floats of the pairs, [c] the running sums of the counts and [total]
    their sum. *)
Theorem bins_file_is_read_back pairs counts extra g :
  length counts = length pairs -> (0 < length pairs)%nat ->
  Z.of_nat (length pairs) < 2 ^ 31 ->
  Forall (fun p => length (fst p) = 4%nat /\ length (snd p) = 4%nat) pairs ->
  Forall (fun c => 0 <= c) counts -> sum counts < 2 ^ 64 ->
  Encoder.make_arrays_and_read_bin_data g (bins_bytes pairs counts ++ extra)
  = Ret (Encoder.mkBins (Z.of_nat (length pairs))
           (map (fun p => float_of_bits (Encoder.le (fst p))) pairs)
           (map (fun p => float_of_bits (Encoder.le (snd p))) pairs)
           (cumfreqs counts),
         set_total g (sum counts)).
Proof.
  intros Hcl Hn H31 Hp Hpos Hsum.
  unfold Encoder.make_arrays_and_read_bin_data, bins_bytes.
  rewrite <- !app_assoc.
  rewrite read_size_t_ok by lia. cbn [bind Z.eqb Pos.eqb assert].
  rewrite read_size_t_ok by lia. cbn [bind].
  rewrite Nat2Z.id, read_pairs_ok by exact Hp. cbn [bind].
  rewrite <- Hcl, read_freqs_ok.
  - cbn [bind]. rewrite cum_total_cumfreqs by (try assumption; lia).
    cbn [bind]. rewrite Hcl. reflexivity.
  - eapply Forall_impl; [|exact (each_below_sum counts Hpos)].
    cbn beta. intros c Hc. lia.
Qed.

Lemma bins_file_is_read_back_witness :
  Encoder.make_arrays_and_read_bin_data initial (bins_bytes four_pairs four_counts ++ [])
  = Ret (Encoder.mkBins (Z.of_nat (length four_pairs))
           (map (fun p => float_of_bits (Encoder.le (fst p))) four_pairs)
           (map (fun p => float_of_bits (Encoder.le (snd p))) four_pairs)
           (cumfreqs four_counts),
         set_total initial (sum four_counts)).
Proof.
  apply (bins_file_is_read_back four_pairs four_counts [] initial).
  - reflexivity.
  - cbn. lia.
  - cbn. lia.
  - repeat constructor.
  - repeat constructor; lia.
  - cbn. lia.
Defined.

(** X11: a bins file that ends too early.  When the file starts with
    the marker 2 and then announces [n] bins ([n < 2^31]) but holds fewer
    than the [16 + 16 n] bytes of the two sizes, the pairs and the
    counts, one of the reads comes back short and the tool leaves through
    [read_error()]. *)
Theorem truncated_bins_file_is_a_read_error g fb :
  Encoder.le (firstn 8 fb) = 2 ->
  Encoder.le (firstn 8 (skipn 8 fb)) < 2 ^ 31 ->
  Z.of_nat (length fb) < 16 + 16 * Encoder.le (firstn 8 (skipn 8 fb)) ->
  Encoder.make_arrays_and_read_bin_data g fb = ExitFailure.
Proof.
  intros Hm H31 Hshort. unfold Encoder.make_arrays_and_read_bin_data.
  destruct (Nat.lt_ge_cases (length fb) 8) as [H8 | H8].
  { rewrite read_size_t_short by exact H8. reflexivity. }
  rewrite read_size_t_long by exact H8. cbn [bind]. rewrite Hm.
  cbn [Z.eqb Pos.eqb assert bind].
  destruct (Nat.lt_ge_cases (length (skipn 8 fb)) 8) as [H16 | H16].
  { rewrite read_size_t_short by exact H16. reflexivity. }
  rewrite read_size_t_long by exact H16. cbn [bind].
  set (n := Encoder.le (firstn 8 (skipn 8 fb))) in *.
  set (fb2 := skipn 8 (skipn 8 fb)).
  assert (Hl2 : length fb2 = (length fb - 16)%nat)
    by (unfold fb2; rewrite !length_skipn; lia).
  rewrite length_skipn in H16.
  destruct (Nat.lt_ge_cases (length fb2) (8 * Z.to_nat n)) as [Hp | Hp].
  { rewrite read_pairs_short by exact Hp. reflexivity. }
  destruct (read_pairs_long (Z.to_nat n) fb2 Hp) as (us & ss & E).
  rewrite E. cbn [bind].
  rewrite read_freqs_short; [reflexivity|].
  rewrite length_skipn. lia.
Qed.

Lemma truncated_bins_file_is_a_read_error_witness :
  Encoder.make_arrays_and_read_bin_data initial (firstn 50 bins_file) = ExitFailure.
Proof.
  apply (truncated_bins_file_is_a_read_error initial (firstn 50 bins_file)).
  - reflexivity.
  - vm_compute. reflexivity.
  - vm_compute. reflexivity.
Defined.

(** X20: the index files on which [main] of the encode tool completes.
    Once the bins file has been read, the test on the header,
    [fread(head, sizeof( *head), HEADER, fi) != 1], lets [main] go on
    only for an index file of exactly one byte; any other length, zero
    included, ends in [read_error()].  For the one byte [x], [main]
    writes 52 bytes: [x], the 44 zero bytes that follow it in the
    zero-initialized [head], and seven zero bytes from [encoder_close]. *)
Theorem main_completes_on_one_byte_only fb fi b g :
  Encoder.make_arrays_and_read_bin_data initial fb = Ret (b, g) ->
  (length fi <> 1%nat -> Encoder.main fb fi = ExitFailure) /\
  (forall x, fi = [x] -> Encoder.main fb fi = Ret (x :: repeat 0 44 ++ repeat 0 7)).
Proof.
  intros Hb.
  assert (Hg : g = set_total initial (total g) /\ first g = true).
  { unfold Encoder.make_arrays_and_read_bin_data in Hb.
    apply DecoderFacts.bind_ret in Hb. destruct Hb as ([marker fb1] & _ & Hb).
    apply DecoderFacts.bind_ret in Hb. destruct Hb as (_ & _ & Hb).
    apply DecoderFacts.bind_ret in Hb. destruct Hb as ([n fb2] & _ & Hb).
    apply DecoderFacts.bind_ret in Hb. destruct Hb as ([[us ss] fb3] & _ & Hb).
    apply DecoderFacts.bind_ret in Hb. destruct Hb as ([cs fb4] & _ & Hb).
    cbv zeta in Hb.
    apply DecoderFacts.bind_ret in Hb. destruct Hb as (t & _ & Hb).
    injection Hb as _ <-. split; reflexivity. }
  destruct Hg as [Eg _].
  split.
  - intros Hlen. unfold Encoder.main. rewrite Hb. cbn [bind].
    unfold Encoder.fread. rewrite Nat.div_1_r.
    change (Z.to_nat HEADER) with 45%nat.
    destruct (Z.eqb_spec (Z.of_nat (Nat.min 45 (length fi))) 1) as [E | E];
      [lia | reflexivity].
  - intros x ->. unfold Encoder.main. rewrite Hb. cbn [bind].
    rewrite Eg. reflexivity.
Qed.

Lemma main_completes_on_one_byte_only_witness :
  Encoder.main bins_file [7] = Ret (7 :: repeat 0 44 ++ repeat 0 7).
Proof.
  destruct (Encoder.make_arrays_and_read_bin_data initial bins_file)
    as [[b g]| | | |] eqn:E; try (vm_compute in E; discriminate).
  exact (proj2 (main_completes_on_one_byte_only bins_file [7] b g E) 7 eq_refl).
Defined.

End EncoderProperties.

(** * Further properties of the quantizer *)

Module QuantizeProperties.
Import ToolSpec FileSpec QuantizeSpec Quantize QuantizeReport CoderSpec TableFacts
  FloatOrder SearchFacts WriteFacts BalanceFacts LayoutFacts RangeFacts ReportFacts.

(** X12: Fixed Domain leaves no bin empty.  For [num_bins >= 1] bins and
    at least as many values, FD returns counts that add up to the number
    of values, each between the quotient [nF / num_bins] and the quotient
    plus the remainder, hence positive; [print_bins] and [write_bins]
    then both return on these counts. *)
Theorem fixed_domain_fills_every_bin C0 F :
  1 <= Z.of_nat (length C0) <= Z.of_nat (length F) ->
  Z.of_nat (length F) < 2 ^ 64 ->
  exists C report fb,
    bins_fixed_domain C0 (Z.of_nat (length C0)) F (Z.of_nat (length F)) = Ret C /\
    length C = length C0 /\ sum C = Z.of_nat (length F) /\
    Forall (fun f => Z.of_nat (length F) / Z.of_nat (length C0) <= f
                     <= Z.of_nat (length F) / Z.of_nat (length C0)
                        + Z.of_nat (length F) mod Z.of_nat (length C0)) C /\
    Forall (fun f => 0 < f) C /\
    print_bins C (Z.of_nat (length C0)) F (Z.of_nat (length F)) = Ret report /\
    write_bins C (Z.of_nat (length C0)) F (Z.of_nat (length F)) [] = Ret fb.
Proof.
  intros Hnb HnF.
  destruct (fixed_domain_balanced C0 (Z.of_nat (length C0)) F (Z.of_nat (length F))
              eq_refl ltac:(lia) ltac:(lia)) as (C & Hrun & Hl & Hbal & Hsum).
  assert (Hq : 1 <= Z.of_nat (length F) / Z.of_nat (length C0))
    by (apply Z.div_le_lower_bound; lia).
  assert (Hall : Forall (fun f => 0 < f) C)
    by (eapply Forall_impl; [|exact Hbal]; cbn beta; intros f Hf; lia).
  assert (Hpos : Forall (fun f => 0 <= f) C)
    by (eapply Forall_impl; [|exact Hall]; cbn beta; intros f Hf; lia).
  assert (Hnth : forall k, (k < length C)%nat -> 0 < nth k C 0).
  { intros k Hk. rewrite Forall_forall in Hall. apply Hall. apply nth_In. exact Hk. }
  destruct (write_bins_layout C F ltac:(lia) Hpos Hsum HnF (Hnth 0%nat ltac:(lia)))
    as (fb & Hfb & _).
  rewrite Hl in Hfb.
  (* the report *)
  assert (Hreport : exists report,
            print_bins C (Z.of_nat (length C0)) F (Z.of_nat (length F)) = Ret report).
  { unfold print_bins. rewrite (u64_small (Z.of_nat (length C0) - 1)) by lia.
    destruct (count_empty_spec C F Hpos ltac:(lia) HnF (Z.to_nat (Z.of_nat (length C0) - 1))
                0 0 ltac:(lia)) as [Hin _].
    destruct Hin as (e & He).
    { cbn [Nat.add].
      replace (Z.to_nat (Z.of_nat (length C0) - 1)) with (length C - 1)%nat by lia.
      pose proof (start_S C (length C - 1) ltac:(lia)) as HS.
      replace (S (length C - 1)) with (length C) in HS by lia.
      unfold start at 1 in HS. rewrite firstn_all in HS.
      pose proof (Hnth (length C - 1)%nat ltac:(lia)). lia. }
    change (Z.of_nat 0) with 0 in He. change (start C 0) with 0 in He.
    rewrite He. cbn [bind].
    destruct (report_loop_exact C F Hpos Hsum HnF (length C) 0 zero zero eq_refl)
      as (m & a & Hloop).
    cbn [skipn] in Hloop. change (start C 0) with 0 in Hloop.
    rewrite Hloop. cbn [bind]. rewrite Z.eqb_refl. cbn [assert bind].
    eexists. reflexivity. }
  destruct Hreport as (report & Hreport).
  exists C, report, fb. repeat apply conj; assumption.
Qed.

Lemma fixed_domain_fills_every_bin_witness :
  exists C report fb,
    bins_fixed_domain fresh_counts (Z.of_nat (length fresh_counts)) eight_values
      (Z.of_nat (length eight_values)) = Ret C /\
    length C = length fresh_counts /\ sum C = Z.of_nat (length eight_values) /\
    Forall (fun f => Z.of_nat (length eight_values) / Z.of_nat (length fresh_counts) <= f
                     <= Z.of_nat (length eight_values) / Z.of_nat (length fresh_counts)
                        + Z.of_nat (length eight_values) mod Z.of_nat (length fresh_counts)) C /\
    Forall (fun f => 0 < f) C /\
    print_bins C (Z.of_nat (length fresh_counts)) eight_values
      (Z.of_nat (length eight_values)) = Ret report /\
    write_bins C (Z.of_nat (length fresh_counts)) eight_values
      (Z.of_nat (length eight_values)) [] = Ret fb.
Proof.
  apply (fixed_domain_fills_every_bin fresh_counts eight_values).
  - cbn. lia.
  - cbn. lia.
Defined.

(** X13: the file [write_bins] writes.  For counts that add up to the
    number of values, with a first bin that is not empty, the call
    returns a file of the marker 2, the number of bins, a pair of floats
    for each bin and the counts; the bound of each bin is the value
    before the start of the next bin.  For sorted values free of NaN
    these bounds are non-decreasing and the last one is the last value
    [F[nF-1]], as the search of the encode tool expects. *)
Theorem write_bins_writes_sorted_bounds C F :
  (0 < length C)%nat ->
  Forall (fun f => 0 <= f) C -> sum C = Z.of_nat (length F) ->
  Z.of_nat (length F) < 2 ^ 64 -> 0 < nth 0 C 0 ->
  nondecreasing F -> Forall (fun x => fle x x) F ->
  exists fb,
    write_bins C (Z.of_nat (length C)) F (Z.of_nat (length F)) [] = Ret fb /\
    length fb = (2 + 3 * length C)%nat /\
    nth_error fb 0 = Some (size_datum 2) /\
    nth_error fb 1 = Some (size_datum (Z.of_nat (length C))) /\
    (forall j, (j < length C)%nat ->
       written_bound fb j = Some (float_datum (at_ (bounds C F) j)) /\
       at_ (bounds C F) j = at_ F (Z.to_nat (start C (S j) - 1)) /\
       nth_error fb (2 + 2 * length C + j) = Some (size_datum (nth j C 0))) /\
    nondecreasing (bounds C F) /\
    at_ (bounds C F) (length C - 1) = at_ F (length F - 1).
Proof.
  intros Hn Hpos Hsum Hlen H0 Hs Hrefl.
  destruct (write_bins_layout C F Hn Hpos Hsum Hlen H0) as (fb & Hrun & Hl & E0 & E1 & Hrows).
  exists fb. split; [exact Hrun|]. split; [exact Hl|]. split; [exact E0|].
  split; [exact E1|]. split; [|split].
  - intros j Hj. destruct (Hrows j Hj) as [Hb Hc].
    split; [exact Hb|]. split; [apply bounds_at; exact Hj | exact Hc].
  - apply bounds_nondecreasing; assumption.
  - apply bounds_last; assumption.
Qed.

Lemma write_bins_writes_sorted_bounds_witness :
  exists fb,
    write_bins gapped_counts (Z.of_nat (length gapped_counts)) eight_values
      (Z.of_nat (length eight_values)) [] = Ret fb /\
    length fb = (2 + 3 * length gapped_counts)%nat /\
    nth_error fb 0 = Some (size_datum 2) /\
    nth_error fb 1 = Some (size_datum (Z.of_nat (length gapped_counts))) /\
    (forall j, (j < length gapped_counts)%nat ->
       written_bound fb j = Some (float_datum (at_ (bounds gapped_counts eight_values) j)) /\
       at_ (bounds gapped_counts eight_values) j
       = at_ eight_values (Z.to_nat (start gapped_counts (S j) - 1)) /\
       nth_error fb (2 + 2 * length gapped_counts + j)
       = Some (size_datum (nth j gapped_counts 0))) /\
    nondecreasing (bounds gapped_counts eight_values) /\
    at_ (bounds gapped_counts eight_values) (length gapped_counts - 1)
    = at_ eight_values (length eight_values - 1).
Proof.
  apply (write_bins_writes_sorted_bounds gapped_counts eight_values).
  - cbn. lia.
  - repeat constructor; lia.
  - reflexivity.
  - cbn. lia.
  - cbn. lia.
  - intros i Hi. unfold eight_values in *. cbn [length] in Hi.
    do 7 (destruct i as [|i]; [vm_compute; reflexivity|]). lia.
  - repeat constructor; vm_compute; reflexivity.
Defined.

(** X14: from the quantizer to the encode tool.  With the bounds that
    [write_bins] writes for counts of sorted values free of NaN (at most
    [2^31] bins, the first not empty), the search of the encode tool
    returns for every value of the data, and the bin it finds is never an
    empty one: the coder is not asked for a symbol of frequency zero. *)
Theorem every_value_finds_a_nonempty_bin C F j :
  (0 < length C)%nat -> Z.of_nat (length C) <= 2 ^ 31 ->
  Forall (fun f => 0 <= f) C -> sum C = Z.of_nat (length F) -> 0 < nth 0 C 0 ->
  nondecreasing F -> Forall (fun x => fle x x) F ->
  (j < length F)%nat ->
  exists k,
    Encoder.find_bin (bounds C F) (Z.of_nat (length C)) (at_ F j) = Ret (Z.of_nat k) /\
    valid_symbol C (Z.of_nat k) /\
    fle (at_ F j) (at_ (bounds C F) k).
Proof.
  intros Hn H31 Hpos Hsum H0 Hs Hrefl Hj.
  destruct (value_finds_nonempty_bin C F j Hn H31 Hpos Hsum H0 Hs Hrefl Hj)
    as (k & Hr & Hk & Hck & Hle).
  exists k. split; [exact Hr|]. split; [|exact Hle].
  split; [lia|]. rewrite Nat2Z.id. exact Hck.
Qed.

Lemma every_value_finds_a_nonempty_bin_witness :
  exists k,
    Encoder.find_bin (bounds gapped_counts eight_values)
      (Z.of_nat (length gapped_counts)) (at_ eight_values 2) = Ret (Z.of_nat k) /\
    valid_symbol gapped_counts (Z.of_nat k) /\
    fle (at_ eight_values 2) (at_ (bounds gapped_counts eight_values) k).
Proof.
  apply (every_value_finds_a_nonempty_bin gapped_counts eight_values 2).
  - cbn. lia.
  - cbn. lia.
  - repeat constructor; lia.
  - reflexivity.
  - cbn. lia.
  - intros i Hi. unfold eight_values in *. cbn [length] in Hi.
    do 7 (destruct i as [|i]; [vm_compute; reflexivity|]). lia.
  - repeat constructor; vm_compute; reflexivity.
  - cbn. lia.
Defined.

(** X15: Fixed Range never counts a value twice, and keeps them all when
    the top of the range is above the data.  For [num_bins >= 1] bins and
    [nF >= 1] values, FR returns [num_bins] counts whose sum is at most
    [nF]; when the values are sorted and the last one is below
    [minF + num_bins*interval], the sum is [nF]. *)
Theorem fixed_range_counts_at_most_once C0 F :
  1 <= Z.of_nat (length C0) < 2 ^ 64 ->
  1 <= Z.of_nat (length F) < 2 ^ 64 ->
  exists C,
    bins_fixed_range C0 (Z.of_nat (length C0)) F (Z.of_nat (length F)) = Ret C /\
    length C = length C0 /\ Forall (fun f => 0 <= f) C /\
    sum C <= Z.of_nat (length F) /\
    (nondecreasing F ->
     flt (at_ F (length F - 1))
         (fr_top (Z.of_nat (length C0)) F (Z.of_nat (length F))) ->
     sum C = Z.of_nat (length F)).
Proof.
  intros Hnb HnF.
  destruct (fixed_range_spec C0 [] F (Z.of_nat (length F)) ltac:(lia) ltac:(lia) ltac:(lia))
    as (cs & Hrun & Hl & Hpos & Hsum & Hall).
  rewrite !app_nil_r in Hrun.
  exists cs. split; [exact Hrun|]. split; [exact Hl|]. split; [exact Hpos|].
  split; [exact Hsum|]. intros Hs Htop.
  apply Hall; [lia|]. intros j Hj.
  destruct (Nat.eq_dec (Z.to_nat j) (length F - 1)) as [-> | Hne]; [exact Htop|].
  apply fle_flt_trans with (at_ F (length F - 1)); [|exact Htop].
  apply nondecreasing_le; try assumption; lia.
Qed.

Lemma fixed_range_counts_at_most_once_witness :
  exists C,
    bins_fixed_range fresh_counts (Z.of_nat (length fresh_counts)) eight_values
      (Z.of_nat (length eight_values)) = Ret C /\
    length C = length fresh_counts /\ Forall (fun f => 0 <= f) C /\
    sum C = Z.of_nat (length eight_values).
Proof.
  destruct (fixed_range_counts_at_most_once fresh_counts eight_values)
    as (C & Hrun & Hl & Hpos & _ & Hall).
  - cbn. lia.
  - cbn. lia.
  - exists C. split; [exact Hrun|]. split; [exact Hl|]. split; [exact Hpos|].
    apply Hall.
    + intros i Hi. unfold eight_values in *. cbn [length] in Hi.
      do 7 (destruct i as [|i]; [vm_compute; reflexivity|]). lia.
    + vm_compute. reflexivity.
Defined.

(** X16: Central Fixed Range.  For [num_bins >= 1] bins and more than
    [2 * (num_bins / 4)] values, CFR returns counts of one for the first
    and for the last [num_bins / 4] bins, whatever the values; the counts
    [cs] of the bins in between are the counts of Fixed Range: those
    [bins_fixed_range] returns for the values without the first and the
    last [num_bins / 4], on any array of as many bins as there are in
    between, whatever the array held and whatever follows it.  The
    counts add up to at most [nF]. *)
Theorem fixed_skinny_has_singleton_ends C0 F :
  1 <= Z.of_nat (length C0) < 2 ^ 64 ->
  2 * (Z.of_nat (length C0) / 4) < Z.of_nat (length F) ->
  Z.of_nat (length F) < 2 ^ 64 ->
  exists cs,
    bins_fixed_skinny C0 (Z.of_nat (length C0)) F (Z.of_nat (length F))
    = Ret (repeat 1 (Z.to_nat (Z.of_nat (length C0) / 4)) ++ cs
           ++ repeat 1 (Z.to_nat (Z.of_nat (length C0) / 4))) /\
    (length cs + 2 * Z.to_nat (Z.of_nat (length C0) / 4) = length C0)%nat /\
    Forall (fun f => 0 <= f) cs /\
    sum (repeat 1 (Z.to_nat (Z.of_nat (length C0) / 4)) ++ cs
         ++ repeat 1 (Z.to_nat (Z.of_nat (length C0) / 4)))
    <= Z.of_nat (length F) /\
    (forall M Tail, length M = length cs ->
       bins_fixed_range (M ++ Tail) (Z.of_nat (length M))
         (skipn (Z.to_nat (Z.of_nat (length C0) / 4)) F)
         (Z.of_nat (length F) - 2 * (Z.of_nat (length C0) / 4))
       = Ret (cs ++ Tail)).
Proof.
  intros Hnb Hs HnF.
  destruct (fixed_skinny_spec C0 F Hnb Hs HnF)
    as (cs & Hrun & Hl & Hpos & Hsum & _ & Hfr).
  exists cs. split; [exact Hrun|]. split; [exact Hl|]. split; [exact Hpos|].
  split; [|exact Hfr].
  rewrite !sum_app, !FixedDomainFacts.sum_repeat.
  assert (0 <= Z.of_nat (length C0) / 4) by (apply Z.div_pos; lia).
  lia.
Qed.

Lemma fixed_skinny_has_singleton_ends_witness :
  bins_fixed_skinny fresh_counts 4 eight_values 8 = Ret [1; 3; 3; 1] /\
  bins_fixed_range [0; 0] 2 (skipn 1 eight_values) 6 = Ret [3; 3] /\
  bins_fixed_range [7; 7; 9] 2 (skipn 1 eight_values) 6 = Ret [3; 3; 9].
Proof.
  destruct (fixed_skinny_has_singleton_ends fresh_counts eight_values)
    as (cs & Hrun & _ & _ & _ & Hfr).
  - cbn. lia.
  - cbn. lia.
  - cbn. lia.
  - assert (E : bins_fixed_skinny fresh_counts (Z.of_nat (length fresh_counts))
                  eight_values (Z.of_nat (length eight_values))
                = Ret ([1] ++ [3; 3] ++ [1])) by (vm_compute; reflexivity).
    change (Z.to_nat (Z.of_nat (length fresh_counts) / 4)) with 1%nat in Hrun, Hfr.
    change (Z.of_nat (length eight_values) - 2 * (Z.of_nat (length fresh_counts) / 4))
      with 6 in Hfr.
    rewrite E in Hrun. cbn [repeat] in Hrun. inversion Hrun as [Hcs].
    change [3; 3; 1] with ([3; 3] ++ [1]) in Hcs.
    apply app_inv_tail in Hcs. subst cs.
    split; [exact E|].
    split; [exact (Hfr [0; 0] [] eq_refl) | exact (Hfr [7; 7] [9] eq_refl)].
Defined.

(** X17: the check [main] makes on the loaded values.  For at most
    [2^31] values: on no value at all the first comparison reads [F[0]]
    outside the array; otherwise the loop returns exactly when each value
    is at or below the next (so that no value but a single one is a NaN),
    and stops at a failed assertion when it does not return. *)
Theorem sortedness_check_accepts_sorted_values F :
  Z.of_nat (length F) <= 2 ^ 31 ->
  (F = [] -> check_sorted F (Z.of_nat (length F)) = Undefined) /\
  (F <> [] ->
   (check_sorted F (Z.of_nat (length F)) = Ret tt <-> nondecreasing F) /\
   (check_sorted F (Z.of_nat (length F)) = Ret tt \/
    check_sorted F (Z.of_nat (length F)) = AssertFailure)).
Proof.
  intros Hlen. split.
  - intros ->. apply check_sorted_empty.
  - intros Hne.
    assert (Hn : (0 < length F)%nat) by (destruct F; [congruence | cbn; lia]).
    unfold check_sorted. rewrite (u64_small (Z.of_nat (length F) - 1)) by lia.
    destruct (sorted_loop_spec F (Z.to_nat (Z.of_nat (length F) - 1)) 0)
      as [[Hr Hall] | [Hr (j & Hj & Hbad)]];
      try (unfold INT_MAX; lia).
    + split; [|left; exact Hr]. split; [|intros _; exact Hr].
      intros _ i Hi. apply Hall. lia.
    + split; [|right; exact Hr]. split.
      * rewrite Hr. discriminate.
      * intros Hs. exfalso. apply Hbad. apply Hs. lia.
Qed.

Lemma sortedness_check_accepts_sorted_values_witness :
  check_sorted skewed_values (Z.of_nat (length skewed_values)) = Ret tt.
Proof.
  destruct (sortedness_check_accepts_sorted_values skewed_values) as [_ H].
  - cbn. lia.
  - destruct (H ltac:(discriminate)) as [[_ Hs] _]. apply Hs.
    intros i Hi. unfold skewed_values in *. cbn [length] in Hi.
    do 7 (destruct i as [|i]; [vm_compute; reflexivity|]). lia.
Defined.

(** X18: [print_bins] relies on counts that add up to [nF] and on a last
    bin that is not empty.  For counts of sum at most [nF]: when the sum
    is [nF] and, with two bins or more, the last bin starts inside [F],
    the call returns (its assertion cannot fail); otherwise it reads
    outside [F] in its first loop or past the end of [C] in its second
    loop. *)
Theorem print_bins_needs_exact_counts C F :
  1 <= Z.of_nat (length C) < 2 ^ 64 ->
  Forall (fun f => 0 <= f) C -> sum C <= Z.of_nat (length F) ->
  Z.of_nat (length F) < 2 ^ 64 ->
  let exact := sum C = Z.of_nat (length F) /\
               ((2 <= length C)%nat -> start C (length C - 1) < Z.of_nat (length F)) in
  (exact -> exists report,
     print_bins C (Z.of_nat (length C)) F (Z.of_nat (length F)) = Ret report) /\
  (~ exact ->
     print_bins C (Z.of_nat (length C)) F (Z.of_nat (length F)) = Undefined).
Proof.
  intros Hnb Hpos Hsum HnF exact. unfold print_bins.
  rewrite (u64_small (Z.of_nat (length C) - 1)) by lia.
  replace (Z.to_nat (Z.of_nat (length C) - 1)) with (length C - 1)%nat by lia.
  destruct (count_empty_spec C F Hpos Hsum HnF (length C - 1) 0 0 ltac:(lia))
    as [Hin Hout].
  cbn [Nat.add] in Hin, Hout.
  change (Z.of_nat 0) with 0 in Hin, Hout. change (start C 0) with 0 in Hin, Hout.
  pose proof (start_bounds C (length C - 1) Hpos) as Hsb.
  split.
  - intros [He Hlast].
    assert (Hrun : exists e, count_empty (length C - 1) 0 0 0 C F = Ret e).
    { destruct (Nat.le_gt_cases 2 (length C)) as [H2 | H1].
      - apply Hin. apply Hlast. exact H2.
      - replace (length C - 1)%nat with 0%nat by lia. exists 0. reflexivity. }
    destruct Hrun as (e & Hrun).
    rewrite Hrun. cbn [bind].
    destruct (report_loop_exact C F Hpos He HnF (length C) 0 zero zero eq_refl)
      as (m & a & Hloop).
    cbn [skipn] in Hloop. change (start C 0) with 0 in Hloop.
    rewrite Hloop. cbn [bind]. rewrite Z.eqb_refl. cbn [assert bind].
    eexists. reflexivity.
  - intros Hno.
    destruct (count_empty_outcome (length C - 1) 0 0 0 C F) as [[e Hrun] | Hrun];
      rewrite Hrun; cbn [bind]; [|reflexivity].
    destruct (Z_lt_dec (sum C) (Z.of_nat (length F))) as [Hlt | Hge].
    + rewrite report_loop_short by (try assumption; lia). reflexivity.
    + exfalso.
      destruct (Nat.le_gt_cases 2 (length C)) as [H2 | H1].
      * destruct (Z_lt_dec (start C (length C - 1)) (Z.of_nat (length F))) as [Hs | Hs].
        -- apply Hno. split; [lia | intros _; exact Hs].
        -- rewrite Hout in Hrun by lia. discriminate.
      * apply Hno. split; [lia | intros H2; lia].
Qed.

Lemma print_bins_needs_exact_counts_witness :
  exists report,
    print_bins gapped_counts (Z.of_nat (length gapped_counts)) eight_values
      (Z.of_nat (length eight_values)) = Ret report.
Proof.
  destruct (print_bins_needs_exact_counts gapped_counts eight_values) as [H _].
  - cbn. lia.
  - repeat constructor; lia.
  - cbn. lia.
  - cbn. lia.
  - apply H. split; [reflexivity|]. intros _. vm_compute. reflexivity.
Defined.

(** X19: the checks [main] makes on its two numbers.  [atoi] returns an
    [int] and [main] stores it in a [size_t]: for arguments in the range
    of [int], the tool exits with the usage message exactly when
    [0 <= nbins < 4] or [bintype] is not one of 1, 2, 3, 4.  A negative
    [nbins] is a huge [size_t] and passes the check [num_bins<4]. *)
Theorem argument_checks_accept_negative_nbins pow num_bins bintype :
  - 2 ^ 31 <= num_bins < 2 ^ 31 -> - 2 ^ 31 <= bintype < 2 ^ 31 ->
  (selected pow num_bins bintype = ExitFailure
   <-> (0 <= num_bins < 4 \/ bintype < 1 \/ 4 < bintype)).
Proof.
  intros Hn Hb.
  assert (Hwrap : forall x, - 2 ^ 31 <= x < 2 ^ 31 ->
            (0 <= x /\ u64 x = x) \/ (x < 0 /\ u64 x = x + 2 ^ 64)).
  { intros x Hx. destruct (Z_lt_dec x 0) as [Hneg | Hpos].
    - right. split; [exact Hneg|]. unfold u64. symmetry.
      apply (Z.mod_unique_pos x (2 ^ 64) (-1)); lia.
    - left. split; [lia|]. apply u64_small. lia. }
  unfold selected, NUM_METHODS.
  destruct (Hwrap num_bins Hn) as [[Hn0 ->] | [Hn0 ->]];
    destruct (Hwrap bintype Hb) as [[Hb0 ->] | [Hb0 ->]].
  - destruct (Z.ltb_spec num_bins 4) as [H4 | H4]; [split; [lia | reflexivity]|].
    destruct (Z.ltb_spec bintype 1) as [H1 | H1]; [split; [lia | reflexivity]|].
    destruct (Z.ltb_spec 4 bintype) as [H5 | H5]; [split; [lia | reflexivity]|].
    cbn [orb].
    assert (Hc : bintype = 1 \/ bintype = 2 \/ bintype = 3 \/ bintype = 4) by lia.
    destruct Hc as [-> | [-> | [-> | ->]]]; cbn; (split; [discriminate | lia]).
  - destruct (Z.ltb_spec num_bins 4) as [H4 | H4]; [split; [lia | reflexivity]|].
    destruct (Z.ltb_spec (bintype + 2 ^ 64) 1) as [H1 | H1]; [lia|].
    destruct (Z.ltb_spec 4 (bintype + 2 ^ 64)) as [H5 | H5]; [|lia].
    split; [lia | reflexivity].
  - destruct (Z.ltb_spec (num_bins + 2 ^ 64) 4) as [H4 | H4]; [lia|].
    destruct (Z.ltb_spec bintype 1) as [H1 | H1]; [split; [lia | reflexivity]|].
    destruct (Z.ltb_spec 4 bintype) as [H5 | H5]; [split; [lia | reflexivity]|].
    cbn [orb].
    assert (Hc : bintype = 1 \/ bintype = 2 \/ bintype = 3 \/ bintype = 4) by lia.
    destruct Hc as [-> | [-> | [-> | ->]]]; cbn; (split; [discriminate | lia]).
  - destruct (Z.ltb_spec (num_bins + 2 ^ 64) 4) as [H4 | H4]; [lia|].
    destruct (Z.ltb_spec (bintype + 2 ^ 64) 1) as [H1 | H1]; [lia|].
    destruct (Z.ltb_spec 4 (bintype + 2 ^ 64)) as [H5 | H5]; [|lia].
    split; [lia | reflexivity].
Qed.

Lemma argument_checks_accept_negative_nbins_witness :
  selected (fun x _ => x) (-1) 2 <> ExitFailure.
Proof.
  intros H.
  apply (argument_checks_accept_negative_nbins (fun x _ => x) (-1) 2) in H; lia.
Defined.

End QuantizeProperties.
